(** * Game-day Master Chef rating service (app.py): model and properties

    A shallow embedding of the Flask application in [app.py]: the request
    handlers are functions over an explicit [ratings] table, Python values
    are an inductive type, exceptions are an error monad, and the two
    library layers the handlers lean on (Python's [str]/[int]/[round]
    builtins and the SQLite statements) are written out as the functions
    they compute. *)

From Stdlib Require Import String Ascii.
From Stdlib Require Import ZArith NArith QArith Qabs List Bool Lia Lqa.
From Stdlib Require Import DecimalString DecimalPos.
From Stdlib Require Import Sorted Permutation.
From Stdlib Require Import Floats.SpecFloat.
Import ListNotations.

Set Warnings "-register-all".
Local Open Scope Z_scope.

(* ================================================================= *)
(** ** Python strings *)

(** A Python [str] is a sequence of Unicode code points. *)
Definition char := N.
Definition str := list char.

(** Literals of this file are ASCII, where bytes and code points agree. *)
Definition of_string (s : string) : str :=
  map N_of_ascii (list_ascii_of_string s).

Definition str_eqb (a b : str) : bool :=
  if list_eq_dec N.eq_dec a b then true else false.

(** [str.isspace] on one code point: the characters [str.strip] and
    [str.split] treat as whitespace (U+0009..000D, U+001C..0020, U+0085,
    U+00A0, U+1680, U+2000..200A, U+2028, U+2029, U+202F, U+205F, U+3000). *)
Definition isspace (c : char) : bool :=
  (((9 <=? c) && (c <=? 13)) || ((28 <=? c) && (c <=? 32))
   || (c =? 133) || (c =? 160) || (c =? 5760)
   || ((8192 <=? c) && (c <=? 8202))
   || (c =? 8232) || (c =? 8233) || (c =? 8239) || (c =? 8287)
   || (c =? 12288))%N.

Fixpoint lstrip (s : str) : str :=
  match s with
  | [] => []
  | c :: t => if isspace c then lstrip t else s
  end.

Definition rstrip (s : str) : str := rev (lstrip (rev s)).

(** [s.strip()] *)
Definition strip (s : str) : str := rstrip (lstrip s).

(** [s.split()]: maximal runs of non-whitespace, in order.  [word] holds
    the run being read, last character first. *)
Fixpoint split_from (word s : str) : list str :=
  match s with
  | [] => match word with [] => [] | _ => [rev word] end
  | c :: t =>
      if isspace c
      then match word with
           | [] => split_from [] t
           | _ => rev word :: split_from [] t
           end
      else split_from (c :: word) t
  end.

Definition split (s : str) : list str := split_from [] s.

(** [s.replace(old, new)] for a one-character [old]. *)
Definition replace_char (old : char) (new : str) (s : str) : str :=
  flat_map (fun c => if (c =? old)%N then new else [c]) s.

(** [sep.join(parts)] *)
Fixpoint join (sep : str) (parts : list str) : str :=
  match parts with
  | [] => []
  | [p] => p
  | p :: rest => p ++ sep ++ join sep rest
  end.

(* ================================================================= *)
(** ** Exceptions *)

Inductive exn :=
| TypeError | ValueError | OverflowError | AttributeError | IndexError
| UnicodeEncodeError | IntegrityError.

Inductive result (A : Type) :=
| Ok (a : A)
| Raise (e : exn).
Arguments Ok {A} a.
Arguments Raise {A} e.

Definition bind {A B} (m : result A) (k : A -> result B) : result B :=
  match m with
  | Ok a => k a
  | Raise e => Raise e
  end.

Notation "x <- m ;; k" := (bind m (fun x => k))
  (at level 61, m at next level, right associativity).

(* ================================================================= *)
(** ** Python values *)

(** What [json.loads] and the request accessors hand to the handlers.  A
    [PDict] lists each key once, as a [dict] does; a [PFloat] is an IEEE
    binary64 value. *)
Inductive pyval :=
| PNone
| PBool (b : bool)
| PInt (z : Z)
| PFloat (f : spec_float)
| PStr (s : str)
| PList (l : list pyval)
| PDict (d : list (str * pyval)).

(** Truth value of an object, as [if v], [not v] and [v or w] test it. *)
Definition truthy (v : pyval) : bool :=
  match v with
  | PNone => false
  | PBool b => b
  | PInt z => negb (z =? 0)
  | PFloat (S754_zero _) => false
  | PFloat _ => true
  | PStr s => match s with [] => false | _ => true end
  | PList l => match l with [] => false | _ => true end
  | PDict d => match d with [] => false | _ => true end
  end.

(** [v or w] *)
Definition py_or (v w : pyval) : pyval := if truthy v then v else w.

(** [d.get(k)] on a dict; every other JSON-born object lacks [get]. *)
Fixpoint dict_get {V} (d : list (str * V)) (k : str) : option V :=
  match d with
  | [] => None
  | (k', v) :: rest => if str_eqb k' k then Some v else dict_get rest k
  end.

Definition get_or_none (d : list (str * pyval)) (k : str) : pyval :=
  match dict_get d k with
  | Some v => v
  | None => PNone
  end.

Definition py_get (data : pyval) (k : str) : result pyval :=
  match data with
  | PDict d => Ok (get_or_none d k)
  | _ => Raise AttributeError
  end.

(** [v.strip()]: only [str] has the method among these objects. *)
Definition py_strip (v : pyval) : result str :=
  match v with
  | PStr s => Ok (strip s)
  | _ => Raise AttributeError
  end.

(* ================================================================= *)
(** ** The [int] builtin *)

(** [int(x)] on a float truncates toward zero; NaN and the infinities
    raise. *)
Definition int_of_float (f : spec_float) : result Z :=
  match f with
  | S754_zero _ => Ok 0
  | S754_infinity _ => Raise OverflowError
  | S754_nan => Raise ValueError
  | S754_finite s m e => Ok (cond_Zopp s (Z.shiftl (Z.pos m) e))
  end.

(** The C-locale whitespace the integer parser skips. *)
Definition c_isspace (c : char) : bool :=
  (((9 <=? c) && (c <=? 13)) || (c =? 32))%N.

Definition digit_value (c : char) : option Z :=
  if ((48 <=? c) && (c <=? 57))%N then Some (Z.of_N (c - 48)) else None.

Fixpoint skip_c_spaces (s : str) : str :=
  match s with
  | [] => []
  | c :: t => if c_isspace c then skip_c_spaces t else s
  end.

(** The run of digits and single underscores at the head of [s]: its
    value, its number of digits and what follows it.  [prev_us] tells
    that the character just read was an underscore. *)
Fixpoint scan_digits (prev_us : bool) (acc : Z) (n : N) (s : str)
  : option (Z * N * str) :=
  match s with
  | [] => if prev_us then None else Some (acc, n, [])
  | c :: t =>
      match digit_value c with
      | Some d => scan_digits false (10 * acc + d) (n + 1) t
      | None =>
          if (c =? 95)%N
          then if prev_us then None else scan_digits true acc n t
          else if prev_us then None else Some (acc, n, s)
      end
  end.

(** The interpreter the closed examples below run on: their texts are
    ASCII and short, so neither setting is consulted. *)
Definition no_extra_decimal : char -> option N := fun _ => None.
Definition default_max_str_digits : N := 4300.

(** The default of [os.environ.get("ADMIN_PASSWORD", ...)]. *)
Definition default_admin_password : str := of_string "MASTERCHEF2025".

Section Runtime.

(** Two facts of the interpreter that vary with its version: the decimal
    value of the non-ASCII Unicode digits, and the limit on the number of
    digits [int] accepts in a string (0: no limit). *)
Variable extra_decimal : char -> option N.
Variable max_str_digits : N.

(** Non-ASCII text is brought to ASCII before parsing: Unicode spaces
    become a blank, Unicode decimal digits their ASCII digit, and the text
    is cut after the first character that is neither, left as ['?']. *)
Fixpoint to_ascii_decimal (s : str) : str :=
  match s with
  | [] => []
  | c :: t =>
      if (c <? 127)%N then c :: to_ascii_decimal t
      else if isspace c then 32%N :: to_ascii_decimal t
      else match extra_decimal c with
           | Some d => (48 + d)%N :: to_ascii_decimal t
           | None => [63%N]
           end
  end.

Definition exceeds_digit_limit (n : N) : bool :=
  ((640 <? n) && (0 <? max_str_digits) && (max_str_digits <? n))%N.

(** Base-10 [int(s)] on ASCII text: blanks, an optional sign, digits with
    single underscores between them, blanks. *)
Definition long_from_string (s : str) : result Z :=
  let s1 := skip_c_spaces s in
  let '(neg, s2) :=
    match s1 with
    | 43%N :: t => (false, t)
    | 45%N :: t => (true, t)
    | _ => (false, s1)
    end in
  match s2 with
  | 95%N :: _ => Raise ValueError
  | _ =>
      match scan_digits false 0 0 s2 with
      | None => Raise ValueError
      | Some (v, n, rest) =>
          if (n =? 0)%N then Raise ValueError
          else if exceeds_digit_limit n then Raise ValueError
          else match skip_c_spaces rest with
               | [] => Ok (if neg then - v else v)
               | _ => Raise ValueError
               end
      end
  end.

Definition int_of_str (s : str) : result Z :=
  long_from_string
    (if forallb (fun c => (c <? 128)%N) s then s else to_ascii_decimal s).

(** [int(v)] *)
Definition py_int (v : pyval) : result Z :=
  match v with
  | PNone => Raise TypeError
  | PBool b => Ok (if b then 1 else 0)
  | PInt z => Ok z
  | PFloat f => int_of_float f
  | PStr s => int_of_str s
  | PList _ => Raise TypeError
  | PDict _ => Raise TypeError
  end.

(* ================================================================= *)
(** ** Configuration and entrants *)

(** [ADMIN_PASSWORD] is read from the environment at start-up. *)
Variable ADMIN_PASSWORD : str.

Definition ENTRANTS : list str :=
  map of_string
    ["Javier"; "Lindsay"; "Yesenia"; "Bryan"; "Viviana"; "Bernie";
     "Rogelio"; "Daniella"; "Colleen"; "Justin"; "Paige"; "Nic";
     "Martha"; "Steve"]%string.

Definition N_ENTRANTS : Z := Z.of_nat (length ENTRANTS).

(** [l[i]]: a negative index counts from the end. *)
Definition list_index {A} (l : list A) (i : Z) : result A :=
  let n := Z.of_nat (length l) in
  let j := if i <? 0 then i + n else i in
  if (0 <=? j) && (j <? n)
  then match nth_error l (Z.to_nat j) with
       | Some x => Ok x
       | None => Raise IndexError
       end
  else Raise IndexError.

(** [sanitize_one_word(s)] *)
Definition sanitize_one_word (s : pyval) : result (option str) :=
  if negb (truthy s) then Ok None
  else
    s1 <- py_strip (py_or s (PStr [])) ;;
    match s1 with
    | [] => Ok None
    | _ =>
        match split s1 with
        | [] => Raise IndexError
        | first :: _ => Ok (Some (firstn 20 first))
        end
    end.

(* ================================================================= *)
(** ** The [ratings] table *)

(** One row of [ratings], column by column; the nullable TEXT columns are
    options.  [created_at] is the CURRENT_TIMESTAMP text of the insert. *)
Record row := {
  id : Z;
  entrant_index : Z;
  taste : Z;
  presentation : Z;
  easy : Z;
  judge : option str;
  device_id : option str;
  one_word : option str;
  created_at : str
}.

(** The table in rowid order, and the AUTOINCREMENT counter SQLite keeps
    for it in [sqlite_sequence]. *)
Record database := {
  ratings : list row;
  sqlite_sequence : Z
}.

(** [init_db()] on a fresh file. *)
Definition init_db : database := {| ratings := []; sqlite_sequence := 0 |}.

(** CHECK(... BETWEEN 1 AND 5) *)
Definition score_ok (v : Z) : bool := (1 <=? v) && (v <=? 5).

(** The conflict target of UNIQUE (entrant_index, device_id): a NULL
    device never conflicts. *)
Definition same_key (e : Z) (d : str) (r : row) : bool :=
  (entrant_index r =? e) &&
  match device_id r with
  | Some d' => str_eqb d' d
  | None => false
  end.

(** DO UPDATE SET taste=excluded.taste, ...: the five columns named, the
    others kept. *)
Definition update_row (t p ea : Z) (j w : option str) (r : row) : row :=
  {| id := id r; entrant_index := entrant_index r;
     taste := t; presentation := p; easy := ea;
     judge := j; device_id := device_id r; one_word := w;
     created_at := created_at r |}.

Fixpoint update_conflict (e : Z) (d : str) (f : row -> row) (rows : list row)
  : list row :=
  match rows with
  | [] => []
  | r :: rest =>
      if same_key e d r then f r :: rest
      else r :: update_conflict e d f rest
  end.

Definition max_rowid (rows : list row) : Z :=
  fold_right (fun r m => Z.max (id r) m) 0 rows.

(** A text parameter is bound as UTF-8, which a lone surrogate lacks. *)
Definition is_surrogate (c : char) : bool :=
  ((55296 <=? c) && (c <=? 57343))%N.

Definition utf8_encodable (s : str) : bool :=
  forallb (fun c => negb (is_surrogate c)) s.

Definition bindable (o : option str) : bool :=
  match o with
  | Some s => utf8_encodable s
  | None => true
  end.

(** The INSERT ... ON CONFLICT(entrant_index, device_id) DO UPDATE
    statement of [api_rate], with its commit.  The new rowid is drawn, and
    the counter moved, before the conflict is looked for. *)
Definition upsert_rating (db : database)
    (e t p ea : Z) (j : option str) (d : str) (w : option str) (now : str)
  : result database :=
  if negb (bindable j && utf8_encodable d && bindable w)
  then Raise UnicodeEncodeError
  else if negb (score_ok t && score_ok p && score_ok ea)
  then Raise IntegrityError
  else
    let rowid := Z.max (sqlite_sequence db) (max_rowid (ratings db)) + 1 in
    if existsb (same_key e d) (ratings db)
    then Ok {| ratings := update_conflict e d (update_row t p ea j w) (ratings db);
               sqlite_sequence := rowid |}
    else Ok {| ratings := ratings db ++
                 [ {| id := rowid; entrant_index := e;
                      taste := t; presentation := p; easy := ea;
                      judge := j; device_id := Some d; one_word := w;
                      created_at := now |} ];
               sqlite_sequence := rowid |}.

(** DELETE FROM ratings: the counter of an AUTOINCREMENT table stays. *)
Definition delete_ratings (db : database) : database :=
  {| ratings := []; sqlite_sequence := sqlite_sequence db |}.

(* ----------------------------------------------------------------- *)
(** *** Ordering *)

(** A stable sort: ORDER BY leaves the order of equal keys open, and the
    model keeps the order the rows came in. *)
Fixpoint insert_sorted {A} (leb : A -> A -> bool) (x : A) (l : list A)
  : list A :=
  match l with
  | [] => [x]
  | y :: t => if leb x y then x :: l else y :: insert_sorted leb x t
  end.

Fixpoint sort_by {A} (leb : A -> A -> bool) (l : list A) : list A :=
  match l with
  | [] => []
  | x :: t => insert_sorted leb x (sort_by leb t)
  end.

(** TEXT under the BINARY collation compares as its UTF-8 bytes, which
    order strings as their code points do. *)
Fixpoint str_compare (a b : str) : comparison :=
  match a, b with
  | [], [] => Eq
  | [], _ :: _ => Lt
  | _ :: _, [] => Gt
  | x :: a', y :: b' =>
      match N.compare x y with
      | Eq => str_compare a' b'
      | c => c
      end
  end.

Definition str_leb (a b : str) : bool :=
  match str_compare a b with
  | Gt => false
  | _ => true
  end.

(* ----------------------------------------------------------------- *)
(** *** REAL values and rounding *)

Definition prec : Z := 53.
Definition emax : Z := 1024.

(** An INTEGER converted to a double. *)
Definition double_of_int (z : Z) : spec_float :=
  binary_normalize prec emax z 0 false.

(** The number a finite double stands for (0 for the others, which no
    aggregate of this table yields). *)
Definition float_value (f : spec_float) : Q :=
  match f with
  | S754_finite s m e =>
      match e with
      | Z.neg p => cond_Zopp s (Z.pos m) # (2 ^ p)
      | _ => inject_Z (cond_Zopp s (Z.pos m) * 2 ^ e)
      end
  | _ => 0%Q
  end.

Definition float_leb (x y : spec_float) : bool :=
  Qle_bool (float_value x) (float_value y).

Definition sum_list (l : list Z) : Z := fold_right Z.add 0 l.

(** AVG(x) over the non-empty group [l] of integers: the sum, as a
    double, divided by the count.  SQLite adds the integers exactly, and
    a sum of scores below 2^53 is a double as it stands. *)
Definition sql_avg (l : list Z) : spec_float :=
  SFdiv prec emax (double_of_int (sum_list l))
                  (double_of_int (Z.of_nat (length l))).

(** The integer nearest to [q], a tie going to the even one. *)
Definition round_half_even (q : Q) : Z :=
  let d := Z.pos (Qden q) in
  let f := Qnum q / d in
  let r := Qnum q mod d in
  match 2 * r ?= d with
  | Lt => f
  | Gt => f + 1
  | Eq => if Z.even f then f else f + 1
  end.

(** [round(x or 0, 2)]: the decimal with two places nearest to the exact
    value of [x], ties to even.  Python returns the double closest to
    that decimal, and [jsonify] prints the decimal itself. *)
Definition py_round2 (x : spec_float) : Q :=
  round_half_even (float_value x * 100) # 100.

(* ================================================================= *)
(** ** Requests and responses *)

Record my_rating := {
  mr_taste : Z;
  mr_presentation : Z;
  mr_easy : Z;
  mr_judge : option str;
  mr_one_word : option str
}.

(** An element of the leaderboard JSON. *)
Record lb_entry := {
  name : str;
  votes : Z;
  avg_taste : Q;
  avg_presentation : Q;
  avg_easy : Q;
  avg_total : Q
}.

(** An element of a word list of the words JSON. *)
Record word_count := {
  word : str;
  count : Z
}.

(** A line of the admin page's detailed table. *)
Record detail := {
  d_id : Z;
  d_entrant : str;
  d_taste : Z;
  d_presentation : Z;
  d_easy : Z;
  d_total : Z;
  d_judge : str;
  d_device_id : str;
  d_one_word : str;
  d_created_at : str
}.

Record lb_summary := {
  s_name : str;
  s_votes : Z;
  s_avg_total : Q
}.

Inductive page :=
| admin_login (error : option string)
| admin_results (detailed : list detail) (leaderboard : list lb_summary)
                (reset_ok : bool).

Inductive response :=
| JsonOk                                  (* 200 {"ok": true} *)
| JsonError (error : string)              (* 400 {"ok": false, "error": ...} *)
| JsonRating (rating : option my_rating)  (* 200 {"ok": true, "rating": ...} *)
| JsonLeaderboard (out : list lb_entry)
| JsonWords (out : list (str * list word_count))
| Csv (chunks : list str)
| Redirect (reset : option str)           (* to url_for("admin", ...) *)
| Html (p : page)
| InternalServerError (e : exn).          (* an exception left the view *)

Inductive http_method := GET | POST.

(** The one key the views keep in the signed session cookie; only [True]
    is ever stored under it. *)
Record session := { is_admin : bool }.

(** [device_id_from_request()] *)
Definition device_id_from_request (cookie : option str) : str :=
  match cookie with
  | Some (c :: rest) => c :: rest
  | _ => of_string "anon"
  end.

(* ----------------------------------------------------------------- *)
(** *** /api/rate *)

(** A [s[:n] or None] of [api_rate]. *)
Definition nonempty (s : str) : option str :=
  match s with
  | [] => None
  | _ => Some s
  end.

Record rate_fields := {
  f_entrant_index : Z;
  f_taste : Z;
  f_presentation : Z;
  f_easy : Z;
  f_judge : option str;
  f_one_word : option str
}.

(** The [try] block of [api_rate]. *)
Definition parse_rate (data : pyval) : result rate_fields :=
  v_entrant <- py_get data (of_string "entrant_index") ;;
  entrant_index <- py_int v_entrant ;;
  v_taste <- py_get data (of_string "taste") ;;
  taste <- py_int v_taste ;;
  v_presentation <- py_get data (of_string "presentation") ;;
  presentation <- py_int v_presentation ;;
  v_easy <- py_get data (of_string "easy") ;;
  easy <- py_int v_easy ;;
  v_judge <- py_get data (of_string "judge") ;;
  stripped <- py_strip (py_or v_judge (PStr [])) ;;
  v_one_word <- py_get data (of_string "one_word") ;;
  one_word <- sanitize_one_word v_one_word ;;
  Ok {| f_entrant_index := entrant_index; f_taste := taste;
        f_presentation := presentation; f_easy := easy;
        f_judge := nonempty (firstn 50 stripped);
        f_one_word := one_word |}.

(** [request.get_json(silent=True) or {}] *)
Definition request_data (body : option pyval) : pyval :=
  py_or (match body with Some v => v | None => PNone end) (PDict []).

(** [api_rate()]: [body] is what [request.get_json(silent=True)] returns,
    [cookie] the device cookie, [now] the clock of the database. *)
Definition api_rate (body : option pyval) (cookie : option str) (now : str)
    (db : database) : response * database :=
  match parse_rate (request_data body) with
  | Raise _ => (JsonError "Invalid payload", db)
  | Ok f =>
      if negb ((0 <=? f_entrant_index f) && (f_entrant_index f <? N_ENTRANTS))
      then (JsonError "Invalid entrant", db)
      else if existsb (fun v => (v <? 1) || (v >? 5))
                      [f_taste f; f_presentation f; f_easy f]
      then (JsonError "Scores must be 1 to 5", db)
      else
        let device_id := device_id_from_request cookie in
        match upsert_rating db (f_entrant_index f) (f_taste f)
                (f_presentation f) (f_easy f) (f_judge f) device_id
                (f_one_word f) now with
        | Ok db' => (JsonOk, db')
        | Raise e => (InternalServerError e, db)
        end
  end.

(* ----------------------------------------------------------------- *)
(** *** /api/my-rating *)

(** [request.args.get(key, default)] *)
Definition arg_or (arg : option str) (default : str) : str :=
  match arg with
  | Some a => a
  | None => default
  end.

(** [api_my_rating()]: [arg] is the [entrant_index] query argument. *)
Definition api_my_rating (arg : option str) (cookie : option str)
    (db : database) : response :=
  match int_of_str (arg_or arg (of_string "-1")) with
  | Raise _ => JsonError "Bad entrant index"
  | Ok entrant_index =>
      if negb ((0 <=? entrant_index) && (entrant_index <? N_ENTRANTS))
      then JsonRating None
      else
        let device_id := device_id_from_request cookie in
        if negb (utf8_encodable device_id)
        then InternalServerError UnicodeEncodeError
        else
          JsonRating
            (option_map
               (fun r => {| mr_taste := taste r;
                            mr_presentation := presentation r;
                            mr_easy := easy r; mr_judge := judge r;
                            mr_one_word := one_word r |})
               (find (same_key entrant_index device_id) (ratings db)))
  end.

(* ----------------------------------------------------------------- *)
(** *** /api/leaderboard *)

(** A row of the SELECT ... GROUP BY entrant_index. *)
Record lb_row := {
  lb_entrant_index : Z;
  lb_votes : Z;
  lb_avg_taste : spec_float;
  lb_avg_presentation : spec_float;
  lb_avg_easy : spec_float;
  lb_avg_total : spec_float
}.

Definition rows_of (k : Z) (rows : list row) : list row :=
  filter (fun r => entrant_index r =? k) rows.

Definition total (r : row) : Z := taste r + presentation r + easy r.

Definition aggregate (rows : list row) (k : Z) : lb_row :=
  let g := rows_of k rows in
  {| lb_entrant_index := k;
     lb_votes := Z.of_nat (length g);
     lb_avg_taste := sql_avg (map taste g);
     lb_avg_presentation := sql_avg (map presentation g);
     lb_avg_easy := sql_avg (map easy g);
     lb_avg_total := sql_avg (map total g) |}.

(** GROUP BY entrant_index: one group per index present, met in ascending
    order. *)
Definition group_keys (rows : list row) : list Z :=
  sort_by Z.leb (nodup Z.eq_dec (map entrant_index rows)).

Definition by_avg_total_desc (a b : lb_row) : bool :=
  float_leb (lb_avg_total b) (lb_avg_total a).

Definition select_leaderboard (rows : list row) : list lb_row :=
  sort_by by_avg_total_desc (map (aggregate rows) (group_keys rows)).

Fixpoint mapM {A B} (f : A -> result B) (l : list A) : result (list B) :=
  match l with
  | [] => Ok []
  | x :: t => y <- f x ;; ys <- mapM f t ;; Ok (y :: ys)
  end.

Definition lb_entry_of (r : lb_row) : result lb_entry :=
  n <- list_index ENTRANTS (lb_entrant_index r) ;;
  Ok {| name := n;
        votes := lb_votes r;
        avg_taste := py_round2 (lb_avg_taste r);
        avg_presentation := py_round2 (lb_avg_presentation r);
        avg_easy := py_round2 (lb_avg_easy r);
        avg_total := py_round2 (lb_avg_total r) |}.

Definition leaderboard_out (db : database) : result (list lb_entry) :=
  mapM lb_entry_of (select_leaderboard (ratings db)).

Definition respond {A} (k : A -> response) (m : result A) : response :=
  match m with
  | Ok a => k a
  | Raise e => InternalServerError e
  end.

(** [api_leaderboard()] *)
Definition api_leaderboard (db : database) : response :=
  respond JsonLeaderboard (leaderboard_out db).

(* ----------------------------------------------------------------- *)
(** *** /api/words *)

(** TRIM(X): blanks (U+0020) off both ends. *)
Fixpoint sql_ltrim (s : str) : str :=
  match s with
  | [] => []
  | c :: t => if (c =? 32)%N then sql_ltrim t else s
  end.

Definition sql_trim (s : str) : str := rev (sql_ltrim (rev (sql_ltrim s))).

(** LOWER(X), the built-in one (no ICU extension is loaded by the
    program): the letters A..Z only. *)
Definition sql_lower (s : str) : str :=
  map (fun c => if ((65 <=? c) && (c <=? 90))%N then (c + 32)%N else c) s.

(** A row of the SELECT ... GROUP BY entrant_index, LOWER(TRIM(one_word)). *)
Record word_row := {
  wr_entrant_index : Z;
  wr_w : str;
  wr_c : Z
}.

(** The grouping key of a row that passes the WHERE clause. *)
Definition word_key (r : row) : option (Z * str) :=
  match one_word r with
  | None => None
  | Some w =>
      match sql_trim w with
      | [] => None
      | t => Some (entrant_index r, sql_lower t)
      end
  end.

Definition key_eq_dec (a b : Z * str) : {a = b} + {a <> b}.
Proof. decide equality; [apply (list_eq_dec N.eq_dec) | apply Z.eq_dec]. Defined.

Fixpoint filter_map {A B} (f : A -> option B) (l : list A) : list B :=
  match l with
  | [] => []
  | x :: t =>
      match f x with
      | Some y => y :: filter_map f t
      | None => filter_map f t
      end
  end.

(** ORDER BY entrant_index ASC, c DESC, w ASC *)
Definition word_row_leb (a b : word_row) : bool :=
  if wr_entrant_index a <? wr_entrant_index b then true
  else if wr_entrant_index b <? wr_entrant_index a then false
  else if wr_c b <? wr_c a then true
  else if wr_c a <? wr_c b then false
  else str_leb (wr_w a) (wr_w b).

Definition select_words (rows : list row) : list word_row :=
  let keys := filter_map word_key rows in
  sort_by word_row_leb
    (map (fun k => {| wr_entrant_index := fst k; wr_w := snd k;
                      wr_c := Z.of_nat (count_occ key_eq_dec keys k) |})
         (nodup key_eq_dec keys)).

(** [out.setdefault(k, []).append(x)] on an insertion-ordered dict. *)
Fixpoint setdefault_append {V} (out : list (str * list V)) (k : str) (x : V)
  : list (str * list V) :=
  match out with
  | [] => [(k, [x])]
  | (k', l) :: rest =>
      if str_eqb k' k then (k', l ++ [x]) :: rest
      else (k', l) :: setdefault_append rest k x
  end.

Fixpoint words_loop (rows : list word_row) (out : list (str * list word_count))
  : result (list (str * list word_count)) :=
  match rows with
  | [] => Ok out
  | r :: rest =>
      n <- list_index ENTRANTS (wr_entrant_index r) ;;
      words_loop rest
        (setdefault_append out n {| word := wr_w r; count := wr_c r |})
  end.

Definition words_out (db : database) : result (list (str * list word_count)) :=
  words_loop (select_words (ratings db)) [].

(** [api_words()] *)
Definition api_words (db : database) : response :=
  respond JsonWords (words_out db).

(* ----------------------------------------------------------------- *)
(** *** /export.csv *)

(** [str(n)] of an integer. *)
Definition str_of_int (z : Z) : str :=
  of_string (NilZero.string_of_int (Z.to_int z)).

Definition dquote : char := 34%N.

(** The local [q] of [generate]: [s] is never [None] where it is called. *)
Definition q (s : str) : str :=
  [dquote] ++ replace_char dquote [dquote; dquote] s ++ [dquote].

Definition or_empty (o : option str) : str :=
  match o with
  | Some s => s
  | None => []
  end.

(** The line terminator of the source is a backslash followed by [n]. *)
Definition line_end : str := of_string "\n".

Definition header : list str :=
  map of_string ["id"; "entrant_name"; "taste"; "presentation"; "easy";
                 "judge"; "device_id"; "one_word"; "created_at"]%string.

Definition csv_fields (n : str) (r : row) : list str :=
  [ str_of_int (id r); q n; str_of_int (taste r);
    str_of_int (presentation r); str_of_int (easy r);
    q (or_empty (judge r)); q (or_empty (device_id r));
    q (or_empty (one_word r)); created_at r ].

Definition csv_line (r : row) : result str :=
  n <- list_index ENTRANTS (entrant_index r) ;;
  Ok (join (of_string ",") (csv_fields n r) ++ line_end).

(** ORDER BY created_at ASC *)
Definition select_export (rows : list row) : list row :=
  sort_by (fun a b => str_leb (created_at a) (created_at b)) rows.

(** What [generate()] yields, or the exception that ends the stream. *)
Definition generate (db : database) : result (list str) :=
  lines <- mapM csv_line (select_export (ratings db)) ;;
  Ok ((join (of_string ",") header ++ line_end) :: lines).

(** [export_csv()] *)
Definition export_csv (db : database) : response :=
  respond Csv (generate db).

(* ----------------------------------------------------------------- *)
(** *** /admin, /admin/reset, /admin/logout *)

Definition detail_of (r : row) : result detail :=
  n <- list_index ENTRANTS (entrant_index r) ;;
  Ok {| d_id := id r; d_entrant := n;
        d_taste := taste r; d_presentation := presentation r;
        d_easy := easy r; d_total := taste r + presentation r + easy r;
        d_judge := or_empty (judge r);
        d_device_id := or_empty (device_id r);
        d_one_word := or_empty (one_word r);
        d_created_at := created_at r |}.

(** The index SQLite keeps for UNIQUE (entrant_index, device_id): its
    entries in ascending order, a NULL device before the texts, and
    entries that compare equal in rowid order. *)
Definition device_leb (a b : option str) : bool :=
  match a, b with
  | None, _ => true
  | Some _, None => false
  | Some x, Some y => str_leb x y
  end.

Definition unique_index_leb (a b : row) : bool :=
  if entrant_index a <? entrant_index b then true
  else if entrant_index b <? entrant_index a then false
  else device_leb (device_id a) (device_id b).

Definition unique_index_scan (rows : list row) : list row :=
  sort_by unique_index_leb rows.

(** ORDER BY r.entrant_index ASC, r.created_at ASC: SQLite reads the rows
    through the UNIQUE index, which gives them by entrant_index, and
    sorts on created_at; rows equal in both terms stay in the order of
    the index. *)
Definition select_detailed (rows : list row) : list row :=
  sort_by (fun a b =>
             if entrant_index a <? entrant_index b then true
             else if entrant_index b <? entrant_index a then false
             else str_leb (created_at a) (created_at b))
    (unique_index_scan rows).

(** The admin page's own leaderboard query returns the entrant, the
    count and AVG(taste + presentation + easy) of the same groups in the
    same order. *)
Definition lb_summary_of (r : lb_row) : result lb_summary :=
  n <- list_index ENTRANTS (lb_entrant_index r) ;;
  Ok {| s_name := n; s_votes := lb_votes r;
        s_avg_total := py_round2 (lb_avg_total r) |}.

Definition admin_page (reset : option str) (db : database) : result page :=
  detailed <- mapM detail_of (select_detailed (ratings db)) ;;
  lb_data <- mapM lb_summary_of (select_leaderboard (ratings db)) ;;
  Ok (admin_results detailed lb_data
        (match reset with
         | Some v => str_eqb v (of_string "1")
         | None => false
         end)).

(** [admin()]: [password] is the form field of a POST, [reset] the query
    argument of the same name. *)
Definition admin (method : http_method) (password reset : option str)
    (s : session) (db : database) : response * session :=
  match method with
  | POST =>
      let pw := strip (or_empty password) in
      if str_eqb pw ADMIN_PASSWORD
      then (Redirect None, {| is_admin := true |})
      else (Html (admin_login (Some "Incorrect password"%string)), s)
  | GET =>
      if negb (is_admin s) then (Html (admin_login None), s)
      else (respond Html (admin_page reset db), s)
  end.

(** [admin_reset()] *)
Definition admin_reset (s : session) (db : database) : response * database :=
  if negb (is_admin s) then (Redirect None, db)
  else (Redirect (Some (of_string "1")), delete_ratings db).

(** [admin_logout()] *)
Definition admin_logout (s : session) : response * session :=
  (Redirect None, {| is_admin := false |}).

(* ================================================================= *)
(** ** The states of the table *)

(** Only two views write: [api_rate] and [admin_reset]. *)
Inductive reachable : database -> Prop :=
| reach_init : reachable init_db
| reach_rate : forall db body cookie now,
    reachable db -> reachable (snd (api_rate body cookie now db))
| reach_reset : forall db s,
    reachable db -> reachable (snd (admin_reset s db)).

(* ================================================================= *)
(** ** Definitions the properties are stated with *)

Fixpoint take_while {A} (p : A -> bool) (l : list A) : list A :=
  match l with
  | [] => []
  | x :: t => if p x then x :: take_while p t else []
  end.

(** The normalisation of [one_word] in the words of the specification:
    trim; absent when nothing is left; else the first whitespace-delimited
    token, cut to 20 characters. *)
Definition normalized_one_word (s : str) : option str :=
  match strip s with
  | [] => None
  | t => Some (firstn 20 (take_while (fun c => negb (isspace c)) t))
  end.



(** The characters of a decimal integer: a digit or the minus sign. *)
Definition int_char (c : char) : Prop :=
  (48 <= c <= 57)%N \/ c = 45%N.

(** The leaderboard entry of entrant [k] over the table [rows]: the
    entrant's name, the number of its rows, and each average taken over
    its rows and rounded to two places. *)
Definition entry_of_entrant (rows : list row) (k : Z) (e : lb_entry) : Prop :=
  list_index ENTRANTS k = Ok (name e) /\
  votes e = Z.of_nat (length (rows_of k rows)) /\
  avg_taste e = py_round2 (sql_avg (map taste (rows_of k rows))) /\
  avg_presentation e
    = py_round2 (sql_avg (map presentation (rows_of k rows))) /\
  avg_easy e = py_round2 (sql_avg (map easy (rows_of k rows))) /\
  avg_total e = py_round2 (sql_avg (map total (rows_of k rows))).

(** The word a row contributes to the counts: its one_word, when it has
    one that is not blank, trimmed and lower-cased as the query does. *)
Definition normal_word (r : row) : option str :=
  match one_word r with
  | None => None
  | Some w =>
      match sql_trim w with
      | [] => None
      | t => Some (sql_lower t)
      end
  end.

(** The words of entrant [i], one per contributing row. *)
Definition words_of (i : Z) (rows : list row) : list str :=
  filter_map normal_word (rows_of i rows).

(** The order of a word list: count descending, then word ascending. *)
Definition word_count_before (a b : word_count) : Prop :=
  count b < count a \/
  (count a = count b /\ str_leb (word a) (word b) = true).

Definition entrant_name (i : Z) : str := nth (Z.to_nat i) ENTRANTS [].

(** One turn of the loop of [api_words], for an index that is in range. *)
Definition entry_of_word_row (w : word_row) : word_count :=
  {| word := wr_w w; count := wr_c w |}.

Definition words_step (out : list (str * list word_count)) (w : word_row)
  : list (str * list word_count) :=
  setdefault_append out (entrant_name (wr_entrant_index w))
    (entry_of_word_row w).

(* ----------------------------------------------------------------- *)
(** *** Sample requests and tables *)

(** The JSON body of a rating. *)
Definition rate_body (e : Z) (t p ea : pyval) (j w : str) : option pyval :=
  Some (PDict [ (of_string "entrant_index", PInt e);
                (of_string "taste", t);
                (of_string "presentation", p);
                (of_string "easy", ea);
                (of_string "judge", PStr j);
                (of_string "one_word", PStr w) ]).

Definition sample_row (i e t p ea : Z) (j : option str) (d : str)
    (w : option str) (at_ : str) : row :=
  {| id := i; entrant_index := e; taste := t; presentation := p;
     easy := ea; judge := j; device_id := Some d; one_word := w;
     created_at := at_ |}.

Definition dev_a : str := of_string "dev-a".
Definition six_pm : str := of_string "2025-02-09 18:00:01".
Definition seven_pm : str := of_string "2025-02-09 19:00:01".

(** A first vote of [dev_a] for entrant 3, and its second one. *)
Definition first_body : option pyval :=
  rate_body 3 (PInt 2) (PInt 3) (PInt 4) (of_string " Ana ")
    (of_string "  Delicious extra words  ").

Definition second_body : option pyval :=
  rate_body 3 (PInt 5) (PInt 4) (PInt 5) (of_string "Ana B")
    (of_string "Crispy").

Definition first_fields : rate_fields :=
  {| f_entrant_index := 3; f_taste := 2; f_presentation := 3; f_easy := 4;
     f_judge := Some (of_string "Ana");
     f_one_word := Some (of_string "Delicious") |}.

Definition second_fields : rate_fields :=
  {| f_entrant_index := 3; f_taste := 5; f_presentation := 4; f_easy := 5;
     f_judge := Some (of_string "Ana B");
     f_one_word := Some (of_string "Crispy") |}.

Definition first_vote : database :=
  {| ratings :=
       [ sample_row 1 3 2 3 4 (Some (of_string "Ana")) dev_a
           (Some (of_string "Delicious")) six_pm ];
     sqlite_sequence := 1 |}.

Definition second_vote : database :=
  {| ratings :=
       [ sample_row 1 3 5 4 5 (Some (of_string "Ana B")) dev_a
           (Some (of_string "Crispy")) six_pm ];
     sqlite_sequence := 2 |}.

Definition dev_b : str := of_string "dev-b".
Definition eight_pm : str := of_string "2025-02-09 20:00:01".

(** A vote of [dev_b] for entrant 3, and votes of [dev_a] for entrants 3
    and 5. *)
Definition three_votes : database :=
  {| ratings :=
       [ sample_row 1 3 1 1 1 None dev_b None six_pm;
         sample_row 2 3 1 2 1 None dev_a None six_pm;
         sample_row 3 5 2 2 2 None dev_a None six_pm ];
     sqlite_sequence := 3 |}.

(** The same table after [dev_a] has sent [first_body], and after it has
    then sent [second_body]. *)
Definition three_votes_first : database :=
  {| ratings :=
       [ sample_row 1 3 1 1 1 None dev_b None six_pm;
         sample_row 2 3 2 3 4 (Some (of_string "Ana")) dev_a
           (Some (of_string "Delicious")) six_pm;
         sample_row 3 5 2 2 2 None dev_a None six_pm ];
     sqlite_sequence := 4 |}.

Definition three_votes_second : database :=
  {| ratings :=
       [ sample_row 1 3 1 1 1 None dev_b None six_pm;
         sample_row 2 3 5 4 5 (Some (of_string "Ana B")) dev_a
           (Some (of_string "Crispy")) six_pm;
         sample_row 3 5 2 2 2 None dev_a None six_pm ];
     sqlite_sequence := 5 |}.

(** Three devices vote for entrant 0 within one second, dev-z first. *)
Definition same_second : database :=
  {| ratings :=
       [ sample_row 1 0 3 3 3 None (of_string "dev-z") None six_pm;
         sample_row 2 0 4 4 4 None (of_string "dev-a") None six_pm;
         sample_row 3 0 5 5 5 None (of_string "dev-m") None six_pm ];
     sqlite_sequence := 3 |}.

(** The double nearest to 3.7. *)
Definition three_point_seven : spec_float :=
  S754_finite false 8331659310635418 (-51).

(** Entrant 0 has rows of totals 10, 12 and 14, entrant 1 of totals 6
    and 8. *)
Definition two_entrants : database :=
  {| ratings :=
       [ sample_row 1 0 3 3 4 None (of_string "dev-a") None six_pm;
         sample_row 2 1 2 2 2 None (of_string "dev-a") None six_pm;
         sample_row 3 0 4 4 4 None (of_string "dev-b") None six_pm;
         sample_row 4 1 3 3 2 None (of_string "dev-b") None six_pm;
         sample_row 5 0 5 5 4 None (of_string "dev-c") None six_pm ];
     sqlite_sequence := 5 |}.


(** Three devices describe entrant 0 as Good, good and Bad. *)
Definition good_good_bad : database :=
  {| ratings :=
       [ sample_row 1 0 4 4 4 None (of_string "dev-a")
           (Some (of_string "Good")) (of_string "2025-02-09 18:00:01");
         sample_row 2 0 5 4 3 None (of_string "dev-b")
           (Some (of_string "good")) (of_string "2025-02-09 18:00:02");
         sample_row 3 0 2 3 3 None (of_string "dev-c")
           (Some (of_string "Bad")) (of_string "2025-02-09 18:00:03") ];
     sqlite_sequence := 3 |}.

(** Two devices describe entrant 0 with the one-letter words U+00C9
    (capital E with acute) and U+00E9 (its small letter). *)
Definition accented_pair : database :=
  {| ratings :=
       [ sample_row 1 0 4 4 4 None (of_string "dev-a")
           (Some [201%N]) (of_string "2025-02-09 18:00:01");
         sample_row 2 0 5 4 3 None (of_string "dev-b")
           (Some [233%N]) (of_string "2025-02-09 18:00:02") ];
     sqlite_sequence := 2 |}.

(** The exact mean of a list of integers. *)
Definition mean (l : list Z) : Q :=
  sum_list l # Pos.of_nat (length l).

(** How far a rounded average may be from the exact mean: half a unit of
    the second decimal place, and the error of the division in binary64. *)
Definition within_rounding (x mu : Q) : Prop :=
  (Qabs (x - mu) <= (1 # 200) + (1 # 2 ^ 48))%Q.

Definition entry_near_means (rows : list row) (k : Z) (e : lb_entry) : Prop :=
  within_rounding (avg_taste e) (mean (map taste (rows_of k rows))) /\
  within_rounding (avg_presentation e)
    (mean (map presentation (rows_of k rows))) /\
  within_rounding (avg_easy e) (mean (map easy (rows_of k rows))) /\
  within_rounding (avg_total e) (mean (map total (rows_of k rows))).

(** The same read off the columns of the table alone.  The rows of
    entrant [k]: those whose entrant_index column is [k]. *)
Fixpoint entrant_rows (k : Z) (rows : list row) : list row :=
  match rows with
  | [] => []
  | r :: rest =>
      if Z.eq_dec (entrant_index r) k
      then r :: entrant_rows k rest
      else entrant_rows k rest
  end.

(** The exact mean of the column [f] over [rows]. *)
Fixpoint column_sum (f : row -> Z) (rows : list row) : Z :=
  match rows with
  | [] => 0
  | r :: rest => f r + column_sum f rest
  end.

Definition column_mean (f : row -> Z) (rows : list row) : Q :=
  column_sum f rows # Pos.of_nat (length rows).

(** A decimal of two places: a whole number of hundredths. *)
Definition two_places (x : Q) : Prop := exists n : Z, x = n # 100.

(** The entry [e] is that of entrant [k]: votes is the number of the
    entrant's rows, each average is a decimal of two places and, in a
    table of fewer than 2^48 rows, within rounding of the exact mean of
    the column over the entrant's rows; avg_total is that of
    taste + presentation + easy. *)
Definition entry_averages (rows : list row) (k : Z) (e : lb_entry) : Prop :=
  votes e = Z.of_nat (length (entrant_rows k rows)) /\
  two_places (avg_taste e) /\ two_places (avg_presentation e) /\
  two_places (avg_easy e) /\ two_places (avg_total e) /\
  (Z.of_nat (length rows) < 2 ^ 48 ->
   within_rounding (avg_taste e) (column_mean taste (entrant_rows k rows)) /\
   within_rounding (avg_presentation e)
     (column_mean presentation (entrant_rows k rows)) /\
   within_rounding (avg_easy e) (column_mean easy (entrant_rows k rows)) /\
   within_rounding (avg_total e)
     (column_mean (fun r => taste r + presentation r + easy r)
        (entrant_rows k rows))).

(** The rational [num / den] lies in [[m, m + 1)], at the place [l]
    tells: on [m], or below, at or above the middle. *)
Definition inbetween (num den m : Z) (l : location) : Prop :=
  match l with
  | loc_Exact => num = m * den
  | loc_Inexact c =>
      m * den < num < (m + 1) * den /\ (2 * (num - m * den) ?= den) = c
  end.

(** The key of the UNIQUE constraint. *)
Definition key_of (r : row) : Z * option str :=
  (entrant_index r, device_id r).

(** What every table the views can produce satisfies. *)
Record table_ok (db : database) : Prop := {
  ok_entrant :
    Forall (fun r => 0 <= entrant_index r < N_ENTRANTS) (ratings db);
  ok_scores :
    Forall (fun r => score_ok (taste r) && score_ok (presentation r)
                     && score_ok (easy r) = true) (ratings db);
  ok_keys : NoDup (map key_of (ratings db))
}.

(* ----------------------------------------------------------------- *)
(** *** The routes, and a client's run of requests *)

(** A request to one of the routes that read or write the table or the
    session. *)
Inductive request :=
| PostRate (body : option pyval) (cookie : option str) (now : str)
| GetMyRating (arg cookie : option str)
| GetLeaderboard
| GetWords
| GetExport
| Admin (method : http_method) (password reset : option str)
| PostAdminReset
| GetAdminLogout.

(** The view [app.route] binds to each of them. *)
Definition dispatch (rq : request) (s : session) (db : database)
  : response * session * database :=
  match rq with
  | PostRate body cookie now =>
      (fst (api_rate body cookie now db), s,
       snd (api_rate body cookie now db))
  | GetMyRating arg cookie => (api_my_rating arg cookie db, s, db)
  | GetLeaderboard => (api_leaderboard db, s, db)
  | GetWords => (api_words db, s, db)
  | GetExport => (export_csv db, s, db)
  | Admin method password reset =>
      (fst (admin method password reset s db),
       snd (admin method password reset s db), db)
  | PostAdminReset => (fst (admin_reset s db), s, snd (admin_reset s db))
  | GetAdminLogout => (fst (admin_logout s), snd (admin_logout s), db)
  end.

(** The requests of one client in turn: its session and the table after
    the last of them. *)
Fixpoint serve (rqs : list request) (s : session) (db : database)
  : session * database :=
  match rqs with
  | [] => (s, db)
  | rq :: rest =>
      serve rest (snd (fst (dispatch rq s db))) (snd (dispatch rq s db))
  end.

(** The request is a login with the configured password. *)
Definition presents_password (rq : request) : bool :=
  match rq with
  | Admin POST password _ => str_eqb (strip (or_empty password)) ADMIN_PASSWORD
  | _ => false
  end.

(** The row [r'] is the row [r] at a later time: the columns a
    resubmission keeps are the same. *)
Definition same_vote (r r' : row) : Prop :=
  id r' = id r /\ entrant_index r' = entrant_index r /\
  device_id r' = device_id r /\ created_at r' = created_at r.

(* ----------------------------------------------------------------- *)
(** *** The shape of the stored rows *)

Definition no_space (s : str) : bool :=
  forallb (fun c => negb (isspace c)) s.

(** A stored judge: NULL, or a text of 1 to 50 characters that does not
    begin with whitespace. *)
Definition judge_ok (j : option str) : bool :=
  match j with
  | None => true
  | Some [] => false
  | Some (c :: t) =>
      negb (isspace c) && (length (c :: t) <=? 50)%nat
      && utf8_encodable (c :: t)
  end.

(** A stored one_word: NULL, or a text of 1 to 20 characters none of
    which is whitespace. *)
Definition one_word_ok (w : option str) : bool :=
  match w with
  | None => true
  | Some [] => false
  | Some s => no_space s && (length s <=? 20)%nat && utf8_encodable s
  end.

(** A stored device_id: a text that is not empty. *)
Definition device_ok (d : option str) : bool :=
  match d with
  | Some (c :: t) => utf8_encodable (c :: t)
  | _ => false
  end.

Definition row_ok (r : row) : bool :=
  score_ok (taste r) && score_ok (presentation r) && score_ok (easy r)
  && judge_ok (judge r) && device_ok (device_id r)
  && one_word_ok (one_word r).

(** The ids of the table against the AUTOINCREMENT counter: positive,
    ascending in the order of the table, none above the counter. *)
Record ids_ok (db : database) : Prop := {
  ids_sorted : StronglySorted Z.lt (map id (ratings db));
  ids_bounds :
    Forall (fun r => 0 < id r <= sqlite_sequence db) (ratings db);
  ids_counter : 0 <= sqlite_sequence db
}.

(* ----------------------------------------------------------------- *)
(** *** Decimal texts *)

(** The value of the decimal digits [d] read after digits of value
    [acc]. *)
Fixpoint uint_value (acc : Z) (d : Decimal.uint) : Z :=
  match d with
  | Decimal.Nil => acc
  | Decimal.D0 d' => uint_value (10 * acc) d'
  | Decimal.D1 d' => uint_value (10 * acc + 1) d'
  | Decimal.D2 d' => uint_value (10 * acc + 2) d'
  | Decimal.D3 d' => uint_value (10 * acc + 3) d'
  | Decimal.D4 d' => uint_value (10 * acc + 4) d'
  | Decimal.D5 d' => uint_value (10 * acc + 5) d'
  | Decimal.D6 d' => uint_value (10 * acc + 6) d'
  | Decimal.D7 d' => uint_value (10 * acc + 7) d'
  | Decimal.D8 d' => uint_value (10 * acc + 8) d'
  | Decimal.D9 d' => uint_value (10 * acc + 9) d'
  end.



(** The number of decimal digits of [z]. *)
Definition digits_of (z : Z) : N :=
  N.of_nat (length (str_of_int (Z.abs z))).

(* ----------------------------------------------------------------- *)
(** *** What the views show *)

(** The part of a leaderboard entry the admin page shows. *)
Definition summary_of_entry (e : lb_entry) : lb_summary :=
  {| s_name := name e; s_votes := votes e; s_avg_total := avg_total e |}.

(** The line of the admin page for the row [r]. *)
Definition detail_shows (r : row) (d : detail) : Prop :=
  list_index ENTRANTS (entrant_index r) = Ok (d_entrant d) /\
  d_id d = id r /\ d_taste d = taste r /\
  d_presentation d = presentation r /\ d_easy d = easy r /\
  d_total d = taste r + presentation r + easy r /\
  d_judge d = or_empty (judge r) /\
  d_device_id d = or_empty (device_id r) /\
  d_one_word d = or_empty (one_word r) /\
  d_created_at d = created_at r.

(** The comparison [select_detailed] sorts with. *)
Definition detail_leb (a b : row) : bool :=
  if entrant_index a <? entrant_index b then true
  else if entrant_index b <? entrant_index a then false
  else str_leb (created_at a) (created_at b).

(** The order of the admin page: entrant_index ascending, then
    created_at ascending. *)
Definition detail_order (a b : row) : Prop :=
  entrant_index a < entrant_index b \/
  (entrant_index a = entrant_index b /\
   str_leb (created_at a) (created_at b) = true).

(** The order of the admin page with its ties: rows equal in
    entrant_index and created_at come by device_id, ascending. *)
Definition detail_tie_order (a b : row) : Prop :=
  detail_order a b /\
  (entrant_index a = entrant_index b -> created_at a = created_at b ->
   device_leb (device_id a) (device_id b) = true).

(** The line feed, and the texts of a row the export writes as they
    are stored. *)
Definition line_feed : char := 10%N.

Definition row_texts (r : row) : list str :=
  [or_empty (judge r); or_empty (device_id r); or_empty (one_word r);
   created_at r].

(** The rows of entrant [i] that carry a one_word. *)
Definition worded_rows (i : Z) (rows : list row) : list row :=
  filter (fun r => match one_word r with Some _ => true | None => false end)
    (rows_of i rows).

(** The range of the displayed averages. *)
Definition averages_in_range (e : lb_entry) : Prop :=
  (1 <= avg_taste e <= 5)%Q /\ (1 <= avg_presentation e <= 5)%Q /\
  (1 <= avg_easy e <= 5)%Q /\ (3 <= avg_total e <= 15)%Q.

(* ----------------------------------------------------------------- *)
(** *** The schema at start-up *)










(* ================================================================= *)
(** ** Strings *)

Lemma lstrip_head (s : str) :
  lstrip s = [] \/ exists c t, lstrip s = c :: t /\ isspace c = false.
Proof.
  induction s as [|c t IH]; simpl; [now left|].
  destruct (isspace c) eqn:E; [exact IH|].
  right. now exists c, t.
Qed.

Lemma lstrip_app_keep (s : str) (c : char) (t : str) :
  isspace c = false -> lstrip (s ++ c :: t) = lstrip s ++ c :: t.
Proof.
  intros Hc. induction s as [|a s IH]; simpl.
  - now rewrite Hc.
  - destruct (isspace a); [exact IH|reflexivity].
Qed.

Lemma rstrip_cons_keep (c : char) (t : str) :
  isspace c = false -> exists t', rstrip (c :: t) = c :: t'.
Proof.
  intros Hc. unfold rstrip. simpl rev.
  replace (rev t ++ [c]) with (rev t ++ c :: []) by reflexivity.
  rewrite lstrip_app_keep by exact Hc.
  rewrite rev_app_distr. simpl. eauto.
Qed.

Lemma strip_head (s : str) :
  strip s = [] \/ exists c t, strip s = c :: t /\ isspace c = false.
Proof.
  unfold strip.
  destruct (lstrip_head s) as [E|(c & t & E & Hc)]; rewrite E.
  - now left.
  - right. destruct (rstrip_cons_keep c t Hc) as [t' E']. eauto.
Qed.

Lemma split_from_first (s w : str) :
  (w <> [] \/ exists c t, s = c :: t /\ isspace c = false) ->
  exists rest,
    split_from w s =
      (rev w ++ take_while (fun c => negb (isspace c)) s) :: rest.
Proof.
  revert w. induction s as [|c t IH]; intros w H; simpl.
  - destruct H as [H|(c & t & H & _)]; [|discriminate].
    destruct w; [congruence|]. rewrite app_nil_r. eauto.
  - destruct (isspace c) eqn:E; simpl.
    + destruct H as [H|(c' & t' & H & Hc)].
      * destruct w; [congruence|]. rewrite app_nil_r. eauto.
      * inversion H; subst. congruence.
    + destruct (IH (c :: w)) as [rest Hr]; [left; discriminate|].
      exists rest. rewrite Hr. simpl. now rewrite <- app_assoc.
Qed.

Lemma sanitize_one_word_str (s : str) :
  sanitize_one_word (PStr s) = Ok (normalized_one_word s).
Proof.
  unfold sanitize_one_word, normalized_one_word.
  destruct s as [|a s]; [reflexivity|].
  change (truthy (PStr (a :: s))) with true. cbn [negb].
  unfold py_or. change (truthy (PStr (a :: s))) with true. cbn [py_strip bind].
  destruct (strip_head (a :: s)) as [E|(c & t & E & Hc)]; rewrite E;
    [reflexivity|].
  destruct (split_from_first (c :: t) []) as [rest Hr].
  { right. eauto. }
  unfold split. rewrite Hr. reflexivity.
Qed.

(* ================================================================= *)
(** ** The upsert *)

Lemma str_eqb_eq (a b : str) : str_eqb a b = true <-> a = b.
Proof.
  unfold str_eqb. destruct (list_eq_dec N.eq_dec a b); split; congruence.
Qed.

Lemma same_key_iff (e : Z) (d : str) (r : row) :
  same_key e d r = true <-> key_of r = (e, Some d).
Proof.
  unfold same_key, key_of. rewrite andb_true_iff, Z.eqb_eq.
  destruct (device_id r) as [d'|].
  - rewrite str_eqb_eq. split.
    + intros [-> ->]. reflexivity.
    + intros H. inversion H. auto.
  - split; [intros [_ H]; discriminate | intros H; inversion H].
Qed.

Lemma filter_none_of_not_in (e : Z) (d : str) (rows : list row) :
  ~ In (e, Some d) (map key_of rows) -> filter (same_key e d) rows = [].
Proof.
  induction rows as [|r rows IH]; simpl; intros H; [reflexivity|].
  destruct (same_key e d r) eqn:E.
  - apply same_key_iff in E. tauto.
  - apply IH. tauto.
Qed.

Lemma filter_key_unique (e : Z) (d : str) (rows : list row) :
  NoDup (map key_of rows) ->
  filter (same_key e d) rows = [] \/
  exists r, filter (same_key e d) rows = [r].
Proof.
  induction rows as [|r rows IH]; simpl; intros H; [now left|].
  inversion H as [|k ks Hnotin Hnd]; subst.
  destruct (same_key e d r) eqn:E.
  - right. exists r. f_equal. apply filter_none_of_not_in.
    apply same_key_iff in E. now rewrite <- E.
  - auto.
Qed.

Lemma NoDup_snoc {A} (l : list A) (x : A) :
  NoDup l -> ~ In x l -> NoDup (l ++ [x]).
Proof.
  induction l as [|a l IH]; simpl; intros Hnd Hn.
  - constructor; [tauto | constructor].
  - inversion Hnd; subst. constructor.
    + rewrite in_app_iff. simpl. intuition congruence.
    + apply IH; tauto.
Qed.

Lemma existsb_filter_nil {A} (p : A -> bool) (l : list A) :
  existsb p l = false <-> filter p l = [].
Proof.
  induction l as [|x l IH]; simpl; [tauto|].
  destruct (p x); simpl; [split; discriminate | exact IH].
Qed.

Section UpdateConflict.

Variables (e : Z) (d : str) (f : row -> row).
Hypothesis f_key : forall r, key_of (f r) = key_of r.

Lemma same_key_f (r : row) : same_key e d (f r) = same_key e d r.
Proof.
  destruct (same_key e d r) eqn:E.
  - apply same_key_iff. rewrite f_key. now apply same_key_iff.
  - destruct (same_key e d (f r)) eqn:E'; [|reflexivity].
    apply same_key_iff in E'. rewrite f_key in E'.
    apply same_key_iff in E'. congruence.
Qed.

Lemma update_conflict_keys (rows : list row) :
  map key_of (update_conflict e d f rows) = map key_of rows.
Proof.
  induction rows as [|r rows IH]; simpl; [reflexivity|].
  destruct (same_key e d r); simpl; [now rewrite f_key | now rewrite IH].
Qed.

Lemma update_conflict_length (rows : list row) :
  length (update_conflict e d f rows) = length rows.
Proof.
  induction rows as [|r rows IH]; simpl; [reflexivity|].
  destruct (same_key e d r); simpl; congruence.
Qed.

Lemma update_conflict_filter (rows : list row) (r0 : row) :
  filter (same_key e d) rows = [r0] ->
  filter (same_key e d) (update_conflict e d f rows) = [f r0].
Proof.
  induction rows as [|r rows IH]; simpl; [discriminate|].
  destruct (same_key e d r) eqn:E; simpl.
  - intros H. inversion H; subst. rewrite same_key_f, E. now f_equal.
  - rewrite E. exact IH.
Qed.

Lemma update_conflict_other (k : row -> bool) (rows : list row) :
  (forall r, same_key e d r = true -> k r = false) ->
  (forall r, same_key e d r = true -> k (f r) = false) ->
  filter k (update_conflict e d f rows) = filter k rows.
Proof.
  intros H1 H2. induction rows as [|r rows IH]; simpl; [reflexivity|].
  destruct (same_key e d r) eqn:E; simpl.
  - now rewrite (H1 r E), (H2 r E).
  - now rewrite IH.
Qed.

Lemma update_conflict_Forall (P : row -> Prop) (rows : list row) :
  (forall r, P r -> P (f r)) ->
  Forall P rows -> Forall P (update_conflict e d f rows).
Proof.
  intros HP. induction 1 as [|r rows Hr Hrows IH]; simpl; [constructor|].
  destruct (same_key e d r); constructor; auto.
Qed.

End UpdateConflict.

Lemma update_row_key (t p ea : Z) (j w : option str) (r : row) :
  key_of (update_row t p ea j w r) = key_of r.
Proof. reflexivity. Qed.

(** What a successful statement leaves behind. *)
Lemma upsert_rating_ok (db db' : database) (e t p ea : Z)
    (j : option str) (d : str) (w : option str) (now : str) :
  upsert_rating db e t p ea j d w now = Ok db' ->
  score_ok t && score_ok p && score_ok ea = true /\
  bindable j && utf8_encodable d && bindable w = true /\
  ((existsb (same_key e d) (ratings db) = true /\
    ratings db' =
      update_conflict e d (update_row t p ea j w) (ratings db)) \/
   (existsb (same_key e d) (ratings db) = false /\
    exists rowid,
      ratings db' = ratings db ++
        [ {| id := rowid; entrant_index := e;
             taste := t; presentation := p; easy := ea;
             judge := j; device_id := Some d; one_word := w;
             created_at := now |} ])).
Proof.
  unfold upsert_rating.
  destruct (bindable j && utf8_encodable d && bindable w); simpl;
    [|discriminate].
  destruct (score_ok t && score_ok p && score_ok ea); simpl; [|discriminate].
  destruct (existsb (same_key e d) (ratings db)) eqn:E;
    intros H; inversion H; subst; simpl; repeat split; eauto.
Qed.

(** After the statement the key has exactly one row, with the submitted
    values; its [id] and [created_at] are those of the row the key had. *)
Lemma upsert_rating_row (db db' : database) (e t p ea : Z)
    (j : option str) (d : str) (w : option str) (now : str) :
  NoDup (map key_of (ratings db)) ->
  upsert_rating db e t p ea j d w now = Ok db' ->
  exists r,
    filter (same_key e d) (ratings db') = [r] /\
    taste r = t /\ presentation r = p /\ easy r = ea /\
    judge r = j /\ one_word r = w /\
    (forall r0, In r0 (filter (same_key e d) (ratings db)) ->
       id r = id r0 /\ created_at r = created_at r0 /\
       length (ratings db') = length (ratings db)).
Proof.
  intros Hnd H.
  destruct (upsert_rating_ok _ _ _ _ _ _ _ _ _ _ H)
    as (_ & _ & [[Hex ->]|[Hex [rowid ->]]]).
  - destruct (filter_key_unique e d _ Hnd) as [E|[r0 E]].
    + apply existsb_filter_nil in E. congruence.
    + exists (update_row t p ea j w r0).
      rewrite (update_conflict_filter e d _ (update_row_key t p ea j w) _ _ E).
      repeat split; try reflexivity;
        rewrite E in H0; destruct H0 as [<-|[]]; try reflexivity.
      apply update_conflict_length.
  - apply existsb_filter_nil in Hex.
    eexists. rewrite filter_app, Hex. simpl.
    assert (Hk : same_key e d
              {| id := rowid; entrant_index := e; taste := t;
                 presentation := p; easy := ea; judge := j;
                 device_id := Some d; one_word := w; created_at := now |}
            = true) by (apply same_key_iff; reflexivity).
    rewrite Hk. repeat split; try reflexivity; contradiction.
Qed.

(* ================================================================= *)
(** ** [api_rate] *)

Lemma bind_ok {A B} (m : result A) (k : A -> result B) (b : B) :
  bind m k = Ok b -> exists a, m = Ok a /\ k a = Ok b.
Proof. destruct m; simpl; [eauto | discriminate]. Qed.

(** A payload that parses is a dict, and each field is what the
    conversions make of the value under its key. *)
Lemma parse_rate_ok (data : pyval) (f : rate_fields) :
  parse_rate data = Ok f ->
  exists d stripped,
    data = PDict d /\
    py_int (get_or_none d (of_string "entrant_index")) = Ok (f_entrant_index f) /\
    py_int (get_or_none d (of_string "taste")) = Ok (f_taste f) /\
    py_int (get_or_none d (of_string "presentation")) = Ok (f_presentation f) /\
    py_int (get_or_none d (of_string "easy")) = Ok (f_easy f) /\
    py_strip (py_or (get_or_none d (of_string "judge")) (PStr [])) = Ok stripped /\
    f_judge f = nonempty (firstn 50 stripped) /\
    sanitize_one_word (get_or_none d (of_string "one_word")) = Ok (f_one_word f).
Proof.
  unfold parse_rate. intros H.
  destruct data; try discriminate. exists d.
  cbn [py_get bind] in H.
  apply bind_ok in H. destruct H as (e & He & H).
  apply bind_ok in H. destruct H as (t & Ht & H).
  apply bind_ok in H. destruct H as (p & Hp & H).
  apply bind_ok in H. destruct H as (ea & Hea & H).
  apply bind_ok in H. destruct H as (st & Hst & H).
  apply bind_ok in H. destruct H as (w & Hw & H).
  inversion H; subst; clear H. exists st. cbn. auto 10.
Qed.

Lemma api_rate_ok (body : option pyval) (cookie : option str) (now : str)
    (db db' : database) :
  api_rate body cookie now db = (JsonOk, db') ->
  exists f,
    parse_rate (request_data body) = Ok f /\
    0 <= f_entrant_index f < N_ENTRANTS /\
    1 <= f_taste f <= 5 /\ 1 <= f_presentation f <= 5 /\
    1 <= f_easy f <= 5 /\
    upsert_rating db (f_entrant_index f) (f_taste f) (f_presentation f)
      (f_easy f) (f_judge f) (device_id_from_request cookie)
      (f_one_word f) now = Ok db'.
Proof.
  unfold api_rate.
  destruct (parse_rate (request_data body)) as [f|]; [|discriminate].
  destruct ((0 <=? f_entrant_index f) && (f_entrant_index f <? N_ENTRANTS))
    eqn:He; cbn [negb]; [|discriminate].
  destruct (existsb (fun v => (v <? 1) || (v >? 5))
              [f_taste f; f_presentation f; f_easy f]) eqn:Hs;
    [discriminate|].
  destruct (upsert_rating db (f_entrant_index f) (f_taste f)
              (f_presentation f) (f_easy f) (f_judge f)
              (device_id_from_request cookie) (f_one_word f) now)
    as [db1|] eqn:Hu; [|discriminate].
  intros H. inversion H; subst. exists f.
  simpl in Hs. rewrite !orb_false_r in Hs.
  repeat (apply orb_false_iff in Hs; destruct Hs as [Hs ?]).
  apply andb_true_iff in He. rewrite Z.leb_le, Z.ltb_lt in He.
  rewrite Z.gtb_ltb in *. rewrite Z.ltb_ge in *.
  repeat split; try tauto; try lia.
Qed.

(** Every refusal leaves the table as it was. *)
Lemma api_rate_refused (body : option pyval) (cookie : option str)
    (now : str) (db : database) :
  fst (api_rate body cookie now db) <> JsonOk ->
  snd (api_rate body cookie now db) = db.
Proof.
  unfold api_rate.
  destruct (parse_rate (request_data body)) as [f|]; [|reflexivity].
  destruct (negb _); [reflexivity|].
  destruct (existsb (fun v => (v <? 1) || (v >? 5))
              [f_taste f; f_presentation f; f_easy f]); [reflexivity|].
  destruct (upsert_rating db (f_entrant_index f) (f_taste f)
              (f_presentation f) (f_easy f) (f_judge f)
              (device_id_from_request cookie) (f_one_word f) now);
    simpl; [congruence|reflexivity].
Qed.

Lemma upsert_rating_table_ok (db db' : database) (e t p ea : Z)
    (j : option str) (d : str) (w : option str) (now : str) :
  0 <= e < N_ENTRANTS ->
  table_ok db ->
  upsert_rating db e t p ea j d w now = Ok db' ->
  table_ok db'.
Proof.
  intros He [Hr Hs Hk] H.
  destruct (upsert_rating_ok _ _ _ _ _ _ _ _ _ _ H)
    as (Hsc & _ & [[Hex E]|[Hex [rowid E]]]).
  - split; rewrite E.
    + apply update_conflict_Forall; auto.
    + apply update_conflict_Forall; auto.
    + rewrite update_conflict_keys; auto using update_row_key.
  - split; rewrite E.
    + apply Forall_app. split; [exact Hr|]. repeat constructor; simpl; lia.
    + apply Forall_app. split; [exact Hs|]. repeat constructor. exact Hsc.
    + rewrite map_app. simpl.
      apply existsb_filter_nil in Hex.
      assert (Hn : ~ In (e, Some d) (map key_of (ratings db))).
      { intros Hin. apply in_map_iff in Hin. destruct Hin as (r & Hkr & Hin).
        apply same_key_iff in Hkr.
        assert (Hf : In r (filter (same_key e d) (ratings db)))
          by (apply filter_In; auto).
        rewrite Hex in Hf. exact Hf. }
      apply NoDup_snoc; assumption.
Qed.

Lemma api_rate_table_ok (body : option pyval) (cookie : option str)
    (now : str) (db : database) :
  table_ok db -> table_ok (snd (api_rate body cookie now db)).
Proof.
  intros Hok. unfold api_rate.
  destruct (parse_rate (request_data body)) as [f|]; [|exact Hok].
  destruct ((0 <=? f_entrant_index f) && (f_entrant_index f <? N_ENTRANTS))
    eqn:He; cbn [negb]; [|exact Hok].
  destruct (existsb (fun v => (v <? 1) || (v >? 5))
              [f_taste f; f_presentation f; f_easy f]); [exact Hok|].
  destruct (upsert_rating db (f_entrant_index f) (f_taste f)
              (f_presentation f) (f_easy f) (f_judge f)
              (device_id_from_request cookie) (f_one_word f) now)
    as [db1|] eqn:Hu; simpl; [|exact Hok].
  apply andb_true_iff in He. rewrite Z.leb_le, Z.ltb_lt in He.
  eapply upsert_rating_table_ok; eauto.
Qed.

Lemma init_db_ok : table_ok init_db.
Proof. split; simpl; constructor. Qed.

Lemma reachable_table_ok (db : database) : reachable db -> table_ok db.
Proof.
  induction 1 as [|db body cookie now _ IH|db s _ IH].
  - exact init_db_ok.
  - now apply api_rate_table_ok.
  - unfold admin_reset. destruct (negb (is_admin s)); simpl;
      [exact IH | exact init_db_ok || (split; simpl; constructor)].
Qed.

Lemma request_data_dict (d : list (str * pyval)) :
  request_data (Some (PDict d)) = PDict d.
Proof. destruct d; reflexivity. Qed.

Lemma filter_single_split {A} (p : A -> bool) (l : list A) (x : A) :
  filter p l = [x] ->
  exists before after,
    l = before ++ x :: after /\ p x = true /\
    Forall (fun y => p y = false) before /\
    Forall (fun y => p y = false) after.
Proof.
  induction l as [|a l IH]; simpl; [discriminate|].
  destruct (p a) eqn:E.
  - intros H. inversion H as [[Ha Hl]]. subst a.
    exists [], l. simpl.
    split; [reflexivity|]. split; [exact E|]. split; [constructor|].
    apply Forall_forall. intros y Hy.
    destruct (p y) eqn:Ey; [|reflexivity].
    assert (Hin : In y (filter p l)) by (apply filter_In; split; assumption).
    rewrite Hl in Hin. destruct Hin.
  - intros H. destruct (IH H) as (b & a' & Hl & Hx & Hb & Ha).
    exists (a :: b), a'. simpl.
    split; [now rewrite Hl|]. split; [exact Hx|].
    split; [constructor; assumption | exact Ha].
Qed.

Lemma update_conflict_split (e : Z) (d : str) (f : row -> row)
    (before after : list row) (r : row) :
  Forall (fun y => same_key e d y = false) before ->
  same_key e d r = true ->
  update_conflict e d f (before ++ r :: after) = before ++ f r :: after.
Proof.
  induction 1 as [|a b Ha _ IH]; simpl; intros Hr.
  - now rewrite Hr.
  - rewrite Ha. f_equal. exact (IH Hr).
Qed.

Lemma same_key_false (e : Z) (d : str) (r : row) :
  same_key e d r = false ->
  entrant_index r <> e \/ device_id r <> Some d.
Proof.
  unfold same_key.
  destruct (Z.eqb_spec (entrant_index r) e) as [_|Hne]; [|now left].
  simpl. destruct (device_id r) as [d'|]; [|right; discriminate].
  intros H. right. intros E. inversion E; subst d'.
  rewrite (proj2 (str_eqb_eq d d) eq_refl) in H. discriminate H.
Qed.

(** C1: two accepted submissions for one entrant from one device leave
    exactly one row under that (entrant_index, device_id) key; it carries
    the taste, presentation, easy, judge and one_word of the second
    submission and the id and created_at the first one left, and every
    other row of the table is as it was.  The row is the one whose
    entrant_index and device_id columns are those of the submissions: the
    table after either submission is the rows before it, that row, and the
    rows after it, and no row before or after has both columns equal to
    the key; the rows before and after are the same after both
    submissions. *)
Theorem resubmission_overwrites_in_place
    (db0 db1 db2 : database) (body1 body2 : option pyval)
    (cookie : option str) (now1 now2 : str) (f1 f2 : rate_fields) :
  reachable db0 ->
  parse_rate (request_data body1) = Ok f1 ->
  parse_rate (request_data body2) = Ok f2 ->
  f_entrant_index f2 = f_entrant_index f1 ->
  api_rate body1 cookie now1 db0 = (JsonOk, db1) ->
  api_rate body2 cookie now2 db1 = (JsonOk, db2) ->
  exists r1 r2,
    filter (same_key (f_entrant_index f1) (device_id_from_request cookie))
      (ratings db1) = [r1] /\
    filter (same_key (f_entrant_index f1) (device_id_from_request cookie))
      (ratings db2) = [r2] /\
    taste r2 = f_taste f2 /\ presentation r2 = f_presentation f2 /\
    easy r2 = f_easy f2 /\ judge r2 = f_judge f2 /\
    one_word r2 = f_one_word f2 /\
    id r2 = id r1 /\ created_at r2 = created_at r1 /\
    length (ratings db2) = length (ratings db1) /\
    filter (fun r => negb (same_key (f_entrant_index f1)
                             (device_id_from_request cookie) r))
      (ratings db2) =
    filter (fun r => negb (same_key (f_entrant_index f1)
                             (device_id_from_request cookie) r))
      (ratings db1) /\
    entrant_index r1 = f_entrant_index f1 /\
    device_id r1 = Some (device_id_from_request cookie) /\
    entrant_index r2 = f_entrant_index f1 /\
    device_id r2 = Some (device_id_from_request cookie) /\
    exists before after,
      ratings db1 = before ++ r1 :: after /\
      ratings db2 = before ++ r2 :: after /\
      Forall (fun r => entrant_index r <> f_entrant_index f1 \/
                       device_id r <> Some (device_id_from_request cookie))
        (before ++ after).
Proof.
  intros Hreach Hp1 Hp2 He H1 H2.
  apply reachable_table_ok in Hreach.
  destruct (api_rate_ok _ _ _ _ _ H1) as (g1 & Hg1 & Hr1 & _ & _ & _ & Hu1).
  destruct (api_rate_ok _ _ _ _ _ H2) as (g2 & Hg2 & _ & _ & _ & _ & Hu2).
  rewrite Hp1 in Hg1. inversion Hg1; subst g1; clear Hg1.
  rewrite Hp2 in Hg2. inversion Hg2; subst g2; clear Hg2.
  rewrite He in Hu2.
  pose proof (upsert_rating_table_ok _ _ _ _ _ _ _ _ _ _ Hr1 Hreach Hu1)
    as Hok1.
  destruct (upsert_rating_row _ _ _ _ _ _ _ _ _ _ (ok_keys _ Hreach) Hu1)
    as (r1 & Hf1 & _).
  destruct (upsert_rating_row _ _ _ _ _ _ _ _ _ _ (ok_keys _ Hok1) Hu2)
    as (r2 & Hf2 & Ht & Hpr & Hea & Hj & Hw & Hsame).
  destruct (Hsame r1) as (Hid & Hcr & Hlen); [rewrite Hf1; now left|].
  assert (Hconf : ratings db2 =
            update_conflict (f_entrant_index f1)
              (device_id_from_request cookie)
              (update_row (f_taste f2) (f_presentation f2) (f_easy f2)
                 (f_judge f2) (f_one_word f2)) (ratings db1)).
  { destruct (upsert_rating_ok _ _ _ _ _ _ _ _ _ _ Hu2)
      as (_ & _ & [[_ E]|[Hex _]]); [exact E|].
    apply existsb_filter_nil in Hex. rewrite Hf1 in Hex. discriminate. }
  destruct (filter_single_split _ _ _ Hf1)
    as (before & after & E1 & Hk1 & Hb & Ha).
  assert (Hr2 : r2 = update_row (f_taste f2) (f_presentation f2) (f_easy f2)
                       (f_judge f2) (f_one_word f2) r1).
  { rewrite Hconf in Hf2.
    rewrite (update_conflict_filter _ _ _ (update_row_key _ _ _ _ _) _ _ Hf1)
      in Hf2.
    inversion Hf2. reflexivity. }
  apply same_key_iff in Hk1. unfold key_of in Hk1.
  assert (Hke : entrant_index r1 = f_entrant_index f1) by congruence.
  assert (Hkd : device_id r1 = Some (device_id_from_request cookie))
    by congruence.
  exists r1, r2.
  split; [exact Hf1|]. split; [exact Hf2|].
  split; [exact Ht|]. split; [exact Hpr|]. split; [exact Hea|].
  split; [exact Hj|]. split; [exact Hw|]. split; [exact Hid|].
  split; [exact Hcr|]. split; [exact Hlen|].
  split.
  { rewrite Hconf. apply update_conflict_other.
    - intros r Hr. now rewrite Hr.
    - intros r Hr.
      rewrite (same_key_f _ _ _ (update_row_key _ _ _ _ _)), Hr.
      reflexivity. }
  split; [exact Hke|]. split; [exact Hkd|].
  split; [rewrite Hr2; exact Hke|]. split; [rewrite Hr2; exact Hkd|].
  exists before, after.
  split; [exact E1|].
  split.
  { rewrite Hconf, E1, Hr2. apply update_conflict_split; [exact Hb|].
    apply same_key_iff. unfold key_of. congruence. }
  apply Forall_app. split.
  - eapply Forall_impl; [|exact Hb]. intros r. apply same_key_false.
  - eapply Forall_impl; [|exact Ha]. intros r. apply same_key_false.
Qed.

(** C7: [sanitize_one_word] computes the normalisation the specification
    words (trim; absent when empty; else the first whitespace-delimited
    token cut to 20 characters), an accepted submission stores exactly
    that under its key, and the two inputs the specification names come
    out as "Delicious" and as absent. *)
Theorem one_word_stored_normalized :
  (forall s, sanitize_one_word (PStr s) = Ok (normalized_one_word s)) /\
  (forall d s cookie now db db' e,
      reachable db ->
      dict_get d (of_string "one_word") = Some (PStr s) ->
      py_int (get_or_none d (of_string "entrant_index")) = Ok e ->
      api_rate (Some (PDict d)) cookie now db = (JsonOk, db') ->
      exists r,
        filter (same_key e (device_id_from_request cookie)) (ratings db')
          = [r] /\
        one_word r = normalized_one_word s) /\
  normalized_one_word (of_string "  Delicious extra words  ")
    = Some (of_string "Delicious") /\
  (forall s, forallb isspace s = true -> normalized_one_word s = None).
Proof.
  split; [exact sanitize_one_word_str|]. split; [|split].
  - intros d s cookie now db db' e Hreach Hw He H.
    apply reachable_table_ok in Hreach.
    destruct (api_rate_ok _ _ _ _ _ H) as (f & Hf & _ & _ & _ & _ & Hu).
    rewrite request_data_dict in Hf.
    destruct (parse_rate_ok _ _ Hf)
      as (d' & st & Hd & He' & _ & _ & _ & _ & _ & Hs).
    inversion Hd; subst d'; clear Hd.
    rewrite He in He'. inversion He'; subst e; clear He'.
    destruct (upsert_rating_row _ _ _ _ _ _ _ _ _ _ (ok_keys _ Hreach) Hu)
      as (r & Hfr & _ & _ & _ & _ & Hw' & _).
    exists r. split; [exact Hfr|].
    unfold get_or_none in Hs. rewrite Hw in Hs.
    rewrite sanitize_one_word_str in Hs. congruence.
  - reflexivity.
  - intros s Hs. unfold normalized_one_word, strip.
    assert (E : lstrip s = []).
    { induction s as [|c t IH]; simpl in *; [reflexivity|].
      apply andb_true_iff in Hs. destruct Hs as [Hc Ht].
      rewrite Hc. auto. }
    rewrite E. reflexivity.
Qed.

(* ================================================================= *)
(** ** Conversions of the scores *)

Lemma parse_rate_score_raises (d : list (str * pyval)) (k : str) (e : exn) :
  In k [of_string "taste"; of_string "presentation"; of_string "easy"] ->
  py_int (get_or_none d k) = Raise e ->
  exists e', parse_rate (PDict d) = Raise e'.
Proof.
  unfold parse_rate. cbn [py_get bind].
  intros Hk H.
  destruct (py_int (get_or_none d (of_string "entrant_index")));
    cbn [bind]; [|eauto].
  destruct Hk as [<-|Hk]; [rewrite H; cbn [bind]; eauto|].
  destruct (py_int (get_or_none d (of_string "taste")));
    cbn [bind]; [|eauto].
  destruct Hk as [<-|Hk]; [rewrite H; cbn [bind]; eauto|].
  destruct (py_int (get_or_none d (of_string "presentation")));
    cbn [bind]; [|eauto].
  destruct Hk as [<-|[]]. rewrite H. cbn [bind]. eauto.
Qed.

(** [int] of a finite float is its integer part: the sign of the float on
    the floor of its magnitude. *)
Lemma int_of_float_truncates (sg : bool) (m : positive) (e : Z) :
  exists n,
    py_int (PFloat (S754_finite sg m e)) = Ok (cond_Zopp sg n) /\
    (inject_Z n <= float_value (S754_finite false m e))%Q /\
    (float_value (S754_finite false m e) < inject_Z n + 1)%Q.
Proof.
  exists (Z.shiftl (Z.pos m) e). split; [reflexivity|].
  unfold float_value, cond_Zopp. change 1%Q with (inject_Z 1).
  rewrite <- inject_Z_plus.
  destruct e as [|p|p].
  - rewrite Z.shiftl_0_r, Z.mul_1_r. split; [apply Qle_refl|].
    rewrite <- Zlt_Qlt. lia.
  - rewrite Z.shiftl_mul_pow2 by lia. split; [apply Qle_refl|].
    rewrite <- Zlt_Qlt. lia.
  - change (Z.shiftl (Z.pos m) (Z.neg p)) with (Z.shiftr (Z.pos m) (Z.pos p)).
    rewrite Z.shiftr_div_pow2 by lia.
    assert (Hpow : Z.pos (2 ^ p) = 2 ^ Z.pos p) by apply Pos2Z.inj_pow.
    assert (Hpos : 0 < 2 ^ Z.pos p) by (apply Z.pow_pos_nonneg; lia).
    split.
    + unfold Qle. simpl Qnum. simpl Qden. rewrite Hpow, Z.mul_1_r.
      rewrite Z.mul_comm. apply Z.mul_div_le. exact Hpos.
    + unfold Qlt. simpl Qnum. simpl Qden.
      rewrite Hpow, Z.mul_1_r. rewrite Z.mul_comm.
      apply Z.mul_succ_div_gt. exact Hpos.
Qed.

(** C4 (as the code has it): a submission is refused with "Invalid
    payload" and writes nothing whenever [int()] raises on its taste,
    presentation or easy value; on numbers [int()] raises for NaN and the
    infinities only, a finite float being truncated toward zero instead. *)
Theorem unconvertible_score_rejected :
  (forall body cookie now db d k e,
      request_data body = PDict d ->
      In k [of_string "taste"; of_string "presentation"; of_string "easy"] ->
      py_int (get_or_none d k) = Raise e ->
      api_rate body cookie now db = (JsonError "Invalid payload", db)) /\
  (forall sg m e,
      exists n,
        py_int (PFloat (S754_finite sg m e)) = Ok (cond_Zopp sg n) /\
        (inject_Z n <= float_value (S754_finite false m e))%Q /\
        (float_value (S754_finite false m e) < inject_Z n + 1)%Q) /\
  (forall v,
      (exists e, py_int v = Raise e) <->
      v = PNone \/ (exists l, v = PList l) \/ (exists d, v = PDict d) \/
      v = PFloat S754_nan \/ (exists sg, v = PFloat (S754_infinity sg)) \/
      (exists s e, v = PStr s /\ int_of_str s = Raise e)).
Proof.
  split; [|split].
  - intros body cookie now db d k e Hd Hk H.
    unfold api_rate. rewrite Hd.
    destruct (parse_rate_score_raises d k e Hk H) as [e' ->]. reflexivity.
  - exact int_of_float_truncates.
  - intros v. split.
    + intros [e H]. destruct v as [|b|z|f|s|l|d]; simpl in H;
        try discriminate; eauto 10.
      destruct f; simpl in H; try discriminate; eauto 10.
    + intros [->|[[l ->]|[[d ->]|[->|[[sg ->]|(s & e & -> & H)]]]]];
        simpl; eauto.
Qed.

(* ================================================================= *)
(** ** [api_my_rating], [admin] and [admin_reset] *)


(** C3 (as the code has it): a POST to /admin sets the session flag when
    the submitted password, with the whitespace at its two ends removed,
    equals the configured secret, and otherwise shows the login page with
    an error and leaves the session as it was. *)
Theorem admin_flag_set_iff_trimmed_password_matches
    (password reset : option str) (s : session) (db : database) :
  (strip (or_empty password) = ADMIN_PASSWORD ->
   admin POST password reset s db = (Redirect None, {| is_admin := true |})) /\
  (strip (or_empty password) <> ADMIN_PASSWORD ->
   admin POST password reset s db
     = (Html (admin_login (Some "Incorrect password"%string)), s)).
Proof.
  unfold admin.
  destruct (str_eqb (strip (or_empty password)) ADMIN_PASSWORD) eqn:E.
  - apply str_eqb_eq in E. split; [reflexivity|].
    intros H. contradiction.
  - split; [|reflexivity]. intros H. apply str_eqb_eq in H.
    rewrite H in E. discriminate E.
Qed.

(** C8: with the session flag set, the reset empties the table, after
    which the leaderboard and the word counts are empty, the export is the
    header line alone, the admin page lists nothing and no lookup returns
    a rating; without the flag the table stays as it is and the answer is
    a redirect to /admin, which shows the login page. *)
Theorem admin_reset_deletes_all_or_prompts (s : session) (db : database) :
  (is_admin s = true ->
   ratings (snd (admin_reset s db)) = [] /\
   api_leaderboard (snd (admin_reset s db)) = JsonLeaderboard [] /\
   api_words (snd (admin_reset s db)) = JsonWords [] /\
   export_csv (snd (admin_reset s db))
     = Csv [join (of_string ",") header ++ line_end] /\
   (forall reset,
       fst (admin GET None reset s (snd (admin_reset s db)))
       = Html (admin_results [] []
                 (match reset with
                  | Some v => str_eqb v (of_string "1")
                  | None => false
                  end))) /\
   (forall arg cookie r,
       api_my_rating arg cookie (snd (admin_reset s db))
       <> JsonRating (Some r)) /\
   (forall arg cookie z,
       int_of_str (arg_or arg (of_string "-1")) = Ok z ->
       utf8_encodable (device_id_from_request cookie) = true ->
       api_my_rating arg cookie (snd (admin_reset s db)) = JsonRating None)) /\
  (is_admin s = false ->
   admin_reset s db = (Redirect None, db) /\
   forall password reset db',
     admin GET password reset s db' = (Html (admin_login None), s)).
Proof.
  split; intros Hs.
  - unfold admin_reset. rewrite Hs. cbn [negb snd delete_ratings].
    repeat split; try reflexivity.
    + intros reset. unfold admin. rewrite Hs. reflexivity.
    + intros arg cookie r. unfold api_my_rating.
      destruct (int_of_str _); [|discriminate].
      destruct (negb _); [discriminate|].
      destruct (negb _); discriminate.
    + intros arg cookie z Hz Hd. unfold api_my_rating. rewrite Hz, Hd.
      destruct (negb _); reflexivity.
  - unfold admin_reset, admin. rewrite Hs. split; reflexivity.
Qed.

(* ================================================================= *)
(** ** Sorting and traversals *)

Section SortBy.

Context {A : Type} (leb : A -> A -> bool).

Lemma insert_sorted_perm (x : A) (l : list A) :
  Permutation (insert_sorted leb x l) (x :: l).
Proof.
  induction l as [|y t IH]; simpl; [reflexivity|].
  destruct (leb x y); [reflexivity|].
  rewrite IH. apply perm_swap.
Qed.

Lemma sort_by_perm (l : list A) : Permutation (sort_by leb l) l.
Proof.
  induction l as [|x t IH]; simpl; [reflexivity|].
  rewrite insert_sorted_perm. now constructor.
Qed.

Lemma sort_by_In (l : list A) (x : A) : In x (sort_by leb l) <-> In x l.
Proof.
  split; apply Permutation_in;
    [apply sort_by_perm | symmetry; apply sort_by_perm].
Qed.

Hypothesis leb_total : forall a b, leb a b = true \/ leb b a = true.
Hypothesis leb_trans :
  forall a b c, leb a b = true -> leb b c = true -> leb a c = true.

Lemma insert_sorted_sorted (x : A) (l : list A) :
  StronglySorted (fun a b => leb a b = true) l ->
  StronglySorted (fun a b => leb a b = true) (insert_sorted leb x l).
Proof.
  induction 1 as [|y t Ht IH Hy]; simpl; [repeat constructor|].
  destruct (leb x y) eqn:E.
  - constructor; [now constructor|].
    constructor; [exact E|].
    eapply Forall_impl; [|exact Hy]. intros z Hz. eauto.
  - constructor; [exact IH|].
    apply Forall_forall. intros z Hz.
    apply (Permutation_in _ (insert_sorted_perm x t)) in Hz.
    destruct Hz as [<-|Hz].
    + destruct (leb_total x y); congruence.
    + rewrite Forall_forall in Hy. auto.
Qed.

Lemma sort_by_sorted (l : list A) :
  StronglySorted (fun a b => leb a b = true) (sort_by leb l).
Proof.
  induction l as [|x t IH]; simpl; [constructor|].
  now apply insert_sorted_sorted.
Qed.

End SortBy.

Lemma mapM_ok {A B} (f : A -> result B) (l : list A) :
  (forall x, In x l -> exists y, f x = Ok y) ->
  exists ys, mapM f l = Ok ys.
Proof.
  induction l as [|x t IH]; simpl; intros H; [eauto|].
  destruct (H x) as [y Hy]; [now left|].
  destruct IH as [ys Hys]; [intros; apply H; now right|].
  rewrite Hy, Hys. simpl. eauto.
Qed.

Lemma mapM_Forall2 {A B} (f : A -> result B) (l : list A) (ys : list B) :
  mapM f l = Ok ys -> Forall2 (fun x y => f x = Ok y) l ys.
Proof.
  revert ys. induction l as [|x t IH]; simpl; intros ys H.
  - inversion H. constructor.
  - apply bind_ok in H. destruct H as (y & Hy & H).
    apply bind_ok in H. destruct H as (ys' & Hys & H).
    inversion H; subst. constructor; auto.
Qed.

(* ================================================================= *)
(** ** Entrant names *)

Lemma list_index_in_range {A} (l : list A) (i : Z) :
  0 <= i < Z.of_nat (length l) ->
  exists x, list_index l i = Ok x /\ nth_error l (Z.to_nat i) = Some x.
Proof.
  intros Hi. unfold list_index.
  destruct (i <? 0) eqn:E; [apply Z.ltb_lt in E; lia|].
  assert (H : (0 <=? i) && (i <? Z.of_nat (length l)) = true).
  { apply andb_true_iff. rewrite Z.leb_le, Z.ltb_lt. lia. }
  rewrite H.
  destruct (nth_error l (Z.to_nat i)) as [x|] eqn:En; [eauto|].
  apply nth_error_None in En. lia.
Qed.

Lemma entrant_name_ok (i : Z) :
  0 <= i < N_ENTRANTS -> exists n, list_index ENTRANTS i = Ok n.
Proof.
  intros Hi. destruct (list_index_in_range ENTRANTS i Hi) as (n & Hn & _).
  eauto.
Qed.

Lemma ENTRANTS_NoDup : NoDup ENTRANTS.
Proof.
  unfold ENTRANTS. cbn.
  repeat (constructor; [cbn; intuition discriminate|]). constructor.
Qed.

(** Different entrants have different names. *)
Lemma entrant_name_inj (i j : Z) (n : str) :
  0 <= i < N_ENTRANTS -> 0 <= j < N_ENTRANTS ->
  list_index ENTRANTS i = Ok n -> list_index ENTRANTS j = Ok n -> i = j.
Proof.
  intros Hi Hj Hni Hnj.
  destruct (list_index_in_range ENTRANTS i Hi) as (x & Hx & Ei).
  destruct (list_index_in_range ENTRANTS j Hj) as (y & Hy & Ej).
  assert (x = n) by congruence. assert (y = n) by congruence. subst x y.
  pose proof ENTRANTS_NoDup as Hnd.
  rewrite NoDup_nth_error in Hnd.
  assert (Z.to_nat i = Z.to_nat j).
  { apply Hnd; [|congruence].
    apply nth_error_Some. congruence. }
  lia.
Qed.

(* ================================================================= *)
(** ** What the queries return *)

Lemma filter_map_In {A B} (f : A -> option B) (l : list A) (y : B) :
  In y (filter_map f l) <-> exists x, In x l /\ f x = Some y.
Proof.
  induction l as [|a l IH]; simpl.
  - split; [tauto | intros (x & [] & _)].
  - destruct (f a) as [b|] eqn:E; simpl; rewrite IH; split.
    + intros [<-|(x & Hx & Hf)]; eauto.
    + intros (x & [<-|Hx] & Hf); [left; congruence | eauto].
    + intros (x & Hx & Hf); eauto.
    + intros (x & [<-|Hx] & Hf); [congruence | eauto].
Qed.

Lemma group_keys_In (rows : list row) (k : Z) :
  In k (group_keys rows) <-> exists r, In r rows /\ entrant_index r = k.
Proof.
  unfold group_keys. rewrite sort_by_In, nodup_In, in_map_iff.
  split; intros (r & H1 & H2); eauto.
Qed.

Lemma group_keys_NoDup (rows : list row) : NoDup (group_keys rows).
Proof.
  unfold group_keys.
  eapply Permutation_NoDup; [symmetry; apply sort_by_perm|].
  apply NoDup_nodup.
Qed.

Lemma select_leaderboard_In (rows : list row) (g : lb_row) :
  In g (select_leaderboard rows) <->
  exists k, In k (group_keys rows) /\ g = aggregate rows k.
Proof.
  unfold select_leaderboard. rewrite sort_by_In, in_map_iff.
  split; intros (k & H1 & H2); eauto.
Qed.

Lemma word_key_entrant (r : row) (k : Z * str) :
  word_key r = Some k -> fst k = entrant_index r.
Proof.
  unfold word_key. destruct (one_word r); [|discriminate].
  destruct (sql_trim s); [discriminate|].
  intros H. inversion H. reflexivity.
Qed.

Lemma select_words_In (rows : list row) (w : word_row) :
  In w (select_words rows) <->
  In (wr_entrant_index w, wr_w w) (filter_map word_key rows) /\
  wr_c w = Z.of_nat (count_occ key_eq_dec (filter_map word_key rows)
                       (wr_entrant_index w, wr_w w)).
Proof.
  unfold select_words. rewrite sort_by_In, in_map_iff. split.
  - intros ([e x] & <- & Hk). apply nodup_In in Hk. simpl. auto.
  - intros [Hk Hc]. exists (wr_entrant_index w, wr_w w).
    rewrite nodup_In. split; [|exact Hk].
    destruct w. simpl in *. now rewrite Hc.
Qed.

Lemma select_words_entrant (rows : list row) (w : word_row) :
  In w (select_words rows) ->
  exists r, In r rows /\ entrant_index r = wr_entrant_index w.
Proof.
  intros H. apply select_words_In in H. destruct H as [H _].
  apply filter_map_In in H. destruct H as (r & Hr & Hk).
  apply word_key_entrant in Hk. simpl in Hk. eauto.
Qed.

Lemma words_loop_ok (rows : list word_row)
    (out : list (str * list word_count)) :
  (forall w, In w rows ->
     exists n, list_index ENTRANTS (wr_entrant_index w) = Ok n) ->
  exists out', words_loop rows out = Ok out'.
Proof.
  revert out. induction rows as [|w rows IH]; simpl; intros out H; [eauto|].
  destruct (H w) as [n Hn]; [now left|]. rewrite Hn. simpl.
  apply IH. intros; apply H; now right.
Qed.

Section InRange.

Variable db : database.
Hypothesis db_ok : table_ok db.

Lemma row_name_ok (r : row) :
  In r (ratings db) -> exists n, list_index ENTRANTS (entrant_index r) = Ok n.
Proof.
  intros Hr. apply entrant_name_ok.
  pose proof (ok_entrant _ db_ok) as H. rewrite Forall_forall in H. auto.
Qed.

Lemma group_key_range (k : Z) :
  In k (group_keys (ratings db)) -> 0 <= k < N_ENTRANTS.
Proof.
  intros Hk. apply group_keys_In in Hk. destruct Hk as (r & Hr & <-).
  pose proof (ok_entrant _ db_ok) as H. rewrite Forall_forall in H. auto.
Qed.

Lemma leaderboard_out_ok : exists out, leaderboard_out db = Ok out.
Proof.
  apply mapM_ok. intros g Hg.
  apply select_leaderboard_In in Hg. destruct Hg as (k & Hk & ->).
  destruct (entrant_name_ok k (group_key_range k Hk)) as [n Hn].
  unfold lb_entry_of. simpl. rewrite Hn. simpl. eauto.
Qed.

Lemma words_out_ok : exists out, words_out db = Ok out.
Proof.
  apply words_loop_ok. intros w Hw.
  destruct (select_words_entrant _ _ Hw) as (r & Hr & <-).
  now apply row_name_ok.
Qed.

Lemma generate_ok : exists chunks, generate db = Ok chunks.
Proof.
  unfold generate.
  destruct (mapM_ok csv_line (select_export (ratings db))) as [lines Hl].
  - intros r Hr. apply sort_by_In in Hr.
    destruct (row_name_ok r Hr) as [n Hn].
    unfold csv_line. rewrite Hn. simpl. eauto.
  - rewrite Hl. simpl. eauto.
Qed.

Lemma admin_page_ok (reset : option str) :
  exists detailed lb_data,
    admin_page reset db
    = Ok (admin_results detailed lb_data
            (match reset with
             | Some v => str_eqb v (of_string "1")
             | None => false
             end)).
Proof.
  unfold admin_page.
  destruct (mapM_ok detail_of (select_detailed (ratings db))) as [dl Hd].
  { intros r Hr. apply sort_by_In in Hr. apply sort_by_In in Hr.
    destruct (row_name_ok r Hr) as [n Hn].
    unfold detail_of. rewrite Hn. simpl. eauto. }
  destruct (mapM_ok lb_summary_of (select_leaderboard (ratings db)))
    as [ll Hl].
  { intros g Hg.
    apply select_leaderboard_In in Hg. destruct Hg as (k & Hk & ->).
    destruct (entrant_name_ok k (group_key_range k Hk)) as [n Hn].
    unfold lb_summary_of. simpl. rewrite Hn. simpl. eauto. }
  rewrite Hd, Hl. simpl. eauto.
Qed.

End InRange.

(** C10: every row of every table the views can produce has its
    entrant_index in [0, len(ENTRANTS)), so the look-ups
    [ENTRANTS[entrant_index]] of the leaderboard, the word counts, the
    CSV export and the admin page all succeed: none of these views ends
    in an exception. *)
Theorem stored_entrant_index_in_range (db : database) :
  reachable db ->
  Forall (fun r => 0 <= entrant_index r < Z.of_nat (length ENTRANTS))
    (ratings db) /\
  (forall r, In r (ratings db) ->
     exists n, list_index ENTRANTS (entrant_index r) = Ok n) /\
  (exists out, api_leaderboard db = JsonLeaderboard out) /\
  (exists out, api_words db = JsonWords out) /\
  (exists chunks, export_csv db = Csv chunks) /\
  (forall password reset,
     exists detailed lb_data reset_ok,
       fst (admin GET password reset {| is_admin := true |} db)
       = Html (admin_results detailed lb_data reset_ok)).
Proof.
  intros Hreach. apply reachable_table_ok in Hreach.
  split; [exact (ok_entrant _ Hreach)|].
  split; [intros r; now apply row_name_ok|].
  split; [|split; [|split]].
  - destruct (leaderboard_out_ok db Hreach) as [out H].
    exists out. unfold api_leaderboard. now rewrite H.
  - destruct (words_out_ok db Hreach) as [out H].
    exists out. unfold api_words. now rewrite H.
  - destruct (generate_ok db Hreach) as [chunks H].
    exists chunks. unfold export_csv. now rewrite H.
  - intros password reset.
    destruct (admin_page_ok db Hreach reset) as (dl & ll & H).
    exists dl, ll. eexists. unfold admin. simpl. rewrite H. reflexivity.
Qed.

(* ================================================================= *)
(** ** The CSV export *)



Lemma string_of_uint_chars (d : Decimal.uint) :
  Forall int_char (of_string (NilEmpty.string_of_uint d)).
Proof.
  induction d; cbn; constructor; auto; left; lia.
Qed.

Lemma str_of_int_chars (z : Z) : Forall int_char (str_of_int z).
Proof.
  unfold str_of_int, NilZero.string_of_int, NilZero.string_of_uint.
  destruct (Z.to_int z) as [d|d].
  - destruct d; try apply (string_of_uint_chars (_ d)).
    cbn. constructor; [left; lia | constructor].
  - change (of_string (String "-" ?x)) with (45%N :: of_string x).
    constructor; [now right|].
    destruct d; try apply (string_of_uint_chars (_ d)).
    cbn. constructor; [left; lia | constructor].
Qed.


Lemma of_string_cons (a : ascii) (s : string) :
  of_string (String a s) = N_of_ascii a :: of_string s.
Proof. reflexivity. Qed.

Lemma uint_value_pos (d : Decimal.uint) :
  forall acc : positive,
    uint_value (Z.pos acc) d = Z.pos (Pos.of_uint_acc d acc).
Proof.
  induction d; intros acc; cbn [uint_value Pos.of_uint_acc];
    [reflexivity|..];
    rewrite <- IHd; f_equal; lia.
Qed.

Lemma uint_value_0 (d : Decimal.uint) :
  uint_value 0 d = Z.of_N (Pos.of_uint d).
Proof.
  induction d; cbn [uint_value Pos.of_uint]; try reflexivity;
    try (change (10 * 0 + _) with (Z.pos 1) || change (10 * 0 + _) with 2
         || idtac);
    try exact IHd;
    match goal with
    | |- uint_value ?a _ = _ =>
        let p := eval cbv in a in
        change a with p; rewrite uint_value_pos; reflexivity
    end.
Qed.

Lemma uint_text_head (d : Decimal.uint) :
  d <> Decimal.Nil ->
  exists c t,
    of_string (NilEmpty.string_of_uint d) = c :: t /\ (48 <= c <= 57)%N.
Proof.
  destruct d; [congruence|..]; intros _;
    cbn [NilEmpty.string_of_uint]; rewrite of_string_cons;
    eexists _, _; (split; [reflexivity|]); cbn; lia.
Qed.

Lemma to_uint_not_nil (p : positive) : Pos.to_uint p <> Decimal.Nil.
Proof.
  intros E. pose proof (DecimalPos.Unsigned.of_to p) as H.
  rewrite E in H. discriminate H.
Qed.

Lemma nilzero_to_uint (p : positive) :
  NilZero.string_of_uint (Pos.to_uint p)
  = NilEmpty.string_of_uint (Pos.to_uint p).
Proof.
  pose proof (to_uint_not_nil p) as H.
  unfold NilZero.string_of_uint. destruct (Pos.to_uint p); congruence.
Qed.






(* ================================================================= *)
(** ** Rounding *)

(** [round_half_even q] is within one half of [q], and even when [q] is
    half-way between two integers. *)
Lemma round_half_even_bounds (q : Q) :
  (2 * round_half_even q - 1) * Z.pos (Qden q) <= 2 * Qnum q /\
  2 * Qnum q <= (2 * round_half_even q + 1) * Z.pos (Qden q) /\
  ((2 * round_half_even q - 1) * Z.pos (Qden q) = 2 * Qnum q \/
   2 * Qnum q = (2 * round_half_even q + 1) * Z.pos (Qden q) ->
   Z.even (round_half_even q) = true).
Proof.
  unfold round_half_even.
  destruct q as [n d]. cbn [Qnum Qden].
  pose proof (Z.div_mod n (Z.pos d) ltac:(lia)) as Hdm.
  pose proof (Z.mod_pos_bound n (Z.pos d) ltac:(lia)) as Hr.
  set (f := n / Z.pos d) in *. set (r := n mod Z.pos d) in *.
  destruct (Z.compare_spec (2 * r) (Z.pos d)) as [E|E|E].
  - destruct (Z.even f) eqn:Ev.
    + split; [lia|]. split; [lia|]. intros _. exact Ev.
    + split; [lia|]. split; [lia|]. intros _.
      replace (f + 1) with (Z.succ f) by lia.
      rewrite Z.even_succ, <- Z.negb_even, Ev. reflexivity.
  - split; [lia|]. split; [lia|]. intros [H|H]; lia.
  - split; [lia|]. split; [lia|]. intros [H|H]; lia.
Qed.

Lemma round_half_even_mono (p q : Q) :
  (p <= q)%Q -> round_half_even p <= round_half_even q.
Proof.
  intros Hle. unfold Qle in Hle.
  destruct (round_half_even_bounds p) as (Hp1 & _ & Hpe).
  destruct (round_half_even_bounds q) as (_ & Hq2 & Hqe).
  set (k1 := round_half_even p) in *. set (k2 := round_half_even q) in *.
  set (d1 := Z.pos (Qden p)) in *. set (d2 := Z.pos (Qden q)) in *.
  assert (Hd1 : 0 < d1) by (unfold d1; lia).
  assert (Hd2 : 0 < d2) by (unfold d2; lia).
  destruct (Z.le_gt_cases k1 k2) as [H|H]; [exact H|exfalso].
  assert (H1 : (2 * k1 - 1) * d1 * d2 <= 2 * Qnum p * d2)
    by (apply Z.mul_le_mono_nonneg_r; lia).
  assert (H2 : 2 * Qnum q * d1 <= (2 * k2 + 1) * d2 * d1)
    by (apply Z.mul_le_mono_nonneg_r; lia).
  assert (H3 : (2 * k1 - 1) * (d1 * d2) <= (2 * k2 + 1) * (d1 * d2)) by lia.
  assert (Hdd : 0 < d1 * d2) by lia.
  apply Z.mul_le_mono_pos_r in H3; [|exact Hdd].
  assert (Hk : k1 = k2 + 1) by lia.
  assert (E1 : (2 * k1 - 1) * d1 * d2 = 2 * Qnum p * d2) by (subst k1; lia).
  assert (E2 : 2 * Qnum q * d1 = (2 * k2 + 1) * d2 * d1) by (subst k1; lia).
  apply Z.mul_cancel_r in E1; [|lia].
  apply Z.mul_cancel_r in E2; [|lia].
  specialize (Hpe (or_introl E1)). specialize (Hqe (or_intror E2)).
  rewrite Hk in Hpe.
  replace (k2 + 1) with (Z.succ k2) in Hpe by lia.
  rewrite Z.even_succ, <- Z.negb_even, Hqe in Hpe. discriminate.
Qed.

(** [round(x, 2)] is a decimal with two places at most 0.005 away. *)
Lemma py_round2_nearest (x : spec_float) :
  exists k,
    py_round2 x = k # 100 /\
    ((k # 100) - (1 # 200) <= float_value x)%Q /\
    (float_value x <= (k # 100) + (1 # 200))%Q.
Proof.
  exists (round_half_even (float_value x * 100)). split; [reflexivity|].
  destruct (round_half_even_bounds (float_value x * 100)) as (H1 & H2 & _).
  set (k := round_half_even (float_value x * 100)) in *.
  destruct (float_value x) as [n d].
  unfold Qmult in H1, H2. cbn [Qnum Qden] in H1, H2.
  rewrite Pos2Z.inj_mul in H1, H2.
  unfold Qle, Qminus, Qplus, Qopp. cbn [Qnum Qden].
  rewrite ?Pos2Z.inj_mul. lia.
Qed.

Lemma py_round2_mono (x y : spec_float) :
  (float_value x <= float_value y)%Q -> (py_round2 x <= py_round2 y)%Q.
Proof.
  intros H. unfold py_round2.
  assert (Hm : (float_value x * 100 <= float_value y * 100)%Q)
    by (apply Qmult_le_compat_r; [exact H | discriminate]).
  apply round_half_even_mono in Hm.
  unfold Qle. cbn [Qnum Qden]. lia.
Qed.

(* ================================================================= *)
(** ** The binary64 quotient of AVG *)

Lemma digits2_pos_bounds (p : positive) :
  2 ^ (Z.pos (digits2_pos p) - 1) <= Z.pos p < 2 ^ Z.pos (digits2_pos p).
Proof.
  induction p as [p IH|p IH|]; cbn [digits2_pos].
  - rewrite Pos2Z.inj_succ.
    replace (Z.succ (Z.pos (digits2_pos p)) - 1)
      with (Z.succ (Z.pos (digits2_pos p) - 1)) by lia.
    rewrite !Z.pow_succ_r by lia. lia.
  - rewrite Pos2Z.inj_succ.
    replace (Z.succ (Z.pos (digits2_pos p)) - 1)
      with (Z.succ (Z.pos (digits2_pos p) - 1)) by lia.
    rewrite !Z.pow_succ_r by lia. lia.
  - cbn. lia.
Qed.

Lemma digits2_pos_unique (p : positive) (k : Z) :
  2 ^ (k - 1) <= Z.pos p < 2 ^ k -> Z.pos (digits2_pos p) = k.
Proof.
  intros [H1 H2]. destruct (digits2_pos_bounds p) as [B1 B2].
  set (d := Z.pos (digits2_pos p)) in *.
  assert (Hk : 0 < k).
  { destruct (Z.lt_trichotomy k 0) as [Hn|[->|Hp]]; [|cbn in H2; lia|lia].
    rewrite Z.pow_neg_r in H2 by lia. lia. }
  destruct (Z.lt_trichotomy d k) as [Hlt|[Heq|Hgt]]; [exfalso|exact Heq|exfalso].
  - assert (2 ^ d <= 2 ^ (k - 1)) by (apply Z.pow_le_mono_r; lia). lia.
  - assert (2 ^ k <= 2 ^ (d - 1)) by (apply Z.pow_le_mono_r; lia). lia.
Qed.

Lemma shr_1_m (mrs : shr_record) :
  0 <= shr_m mrs ->
  0 <= shr_m (shr_1 mrs) /\ shr_m mrs = 2 * shr_m (shr_1 mrs) + (if shr_r (shr_1 mrs) then 1 else 0)
  /\ shr_s (shr_1 mrs) = shr_r mrs || shr_s mrs.
Proof.
  destruct mrs as [m r s]. cbn [shr_m]. intros Hm.
  destruct m as [|[p|p|]|p]; cbn [shr_1 shr_m shr_r shr_s]; try lia; repeat split; try lia.
Qed.

Lemma shr_1_inbetween (num den : Z) (mrs : shr_record) :
  0 < den -> 0 <= shr_m mrs ->
  inbetween num den (shr_m mrs) (loc_of_shr_record mrs) ->
  inbetween num (2 * den) (shr_m (shr_1 mrs)) (loc_of_shr_record (shr_1 mrs)).
Proof.
  intros Hden Hm H.
  destruct (shr_1_m mrs Hm) as (Hm' & Em & Es).
  destruct mrs as [m r s]. destruct (shr_1 _) as [m' r' s'].
  cbn [shr_m shr_r shr_s] in *. subst s'. subst m.
  destruct r, s, r'; cbn [orb loc_of_shr_record inbetween] in *;
    rewrite ?Z.compare_lt_iff, ?Z.compare_gt_iff, ?Z.compare_eq_iff in *;
    nia.
Qed.

Lemma iter_shr_1_inbetween (num : Z) (p : positive) :
  forall (den : Z) (mrs : shr_record),
  0 < den -> 0 <= shr_m mrs ->
  inbetween num den (shr_m mrs) (loc_of_shr_record mrs) ->
  0 <= shr_m (iter_pos shr_1 p mrs) /\
  shr_m (iter_pos shr_1 p mrs) * 2 ^ Z.pos p <= shr_m mrs
    < (shr_m (iter_pos shr_1 p mrs) + 1) * 2 ^ Z.pos p /\
  inbetween num (2 ^ Z.pos p * den) (shr_m (iter_pos shr_1 p mrs))
    (loc_of_shr_record (iter_pos shr_1 p mrs)).
Proof.
  induction p as [p IH|p IH|]; intros den mrs Hden Hm H; cbn [iter_pos].
  - destruct (shr_1_m mrs Hm) as (Hm1 & Em1 & _).
    pose proof (shr_1_inbetween num den mrs Hden Hm H) as H1.
    destruct (IH (2 * den) (shr_1 mrs) ltac:(lia) Hm1 H1) as (Hm2 & Em2 & H2).
    assert (Hpow : 0 < 2 ^ Z.pos p) by (apply Z.pow_pos_nonneg; lia).
    destruct (IH (2 ^ Z.pos p * (2 * den)) _ ltac:(nia) Hm2 H2)
      as (Hm3 & Em3 & H3).
    assert (E : 2 ^ Z.pos p~1 = 2 * (2 ^ Z.pos p * 2 ^ Z.pos p)).
    { rewrite (Pos2Z.inj_xI p).
      replace (2 * Z.pos p + 1) with (Z.succ (2 * Z.pos p)) by lia.
      rewrite Z.pow_succ_r by lia.
      replace (2 * Z.pos p) with (Z.pos p + Z.pos p) by lia.
      now rewrite Z.pow_add_r by lia. }
    rewrite E.
    split; [exact Hm3|]. split.
    + destruct (shr_r (shr_1 mrs)); nia.
    + replace (2 * (2 ^ Z.pos p * 2 ^ Z.pos p) * den)
        with (2 ^ Z.pos p * (2 ^ Z.pos p * (2 * den))) by ring.
      exact H3.
  - destruct (IH den mrs Hden Hm H) as (Hm2 & Em2 & H2).
    assert (Hpow : 0 < 2 ^ Z.pos p) by (apply Z.pow_pos_nonneg; lia).
    destruct (IH (2 ^ Z.pos p * den) _ ltac:(nia) Hm2 H2)
      as (Hm3 & Em3 & H3).
    assert (E : 2 ^ Z.pos p~0 = 2 ^ Z.pos p * 2 ^ Z.pos p).
    { rewrite (Pos2Z.inj_xO p).
      replace (2 * Z.pos p) with (Z.pos p + Z.pos p) by lia.
      now rewrite Z.pow_add_r by lia. }
    rewrite E.
    split; [exact Hm3|]. split.
    + nia.
    + replace (2 ^ Z.pos p * 2 ^ Z.pos p * den)
        with (2 ^ Z.pos p * (2 ^ Z.pos p * den)) by ring.
      exact H3.
  - destruct (shr_1_m mrs Hm) as (Hm1 & Em1 & _).
    pose proof (shr_1_inbetween num den mrs Hden Hm H) as H1.
    change (2 ^ 1) with 2.
    split; [exact Hm1|]. split; [|exact H1].
    destruct (shr_r (shr_1 mrs)); lia.
Qed.

Lemma fexp_normal (e : Z) : -1021 <= e -> fexp prec emax e = e - 53.
Proof. unfold fexp, emin, prec, emax. lia. Qed.

Lemma loc_of_shr_record_of_loc (m : Z) (l : location) :
  loc_of_shr_record (shr_record_of_loc m l) = l /\
  shr_m (shr_record_of_loc m l) = m.
Proof. destruct l as [|[| |]]; split; reflexivity. Qed.

Lemma round_nearest_even_near (num den m : Z) (l : location) :
  0 < den -> inbetween num den m l ->
  m <= round_nearest_even m l <= m + 1 /\
  Z.abs (2 * (round_nearest_even m l * den - num)) <= den.
Proof.
  intros Hden H. destruct l as [|[| |]]; cbn [round_nearest_even inbetween] in *;
    rewrite ?Z.compare_lt_iff, ?Z.compare_gt_iff, ?Z.compare_eq_iff in *.
  - subst num. split; [lia|]. replace (2 * (m * den - m * den)) with 0 by ring. cbn. lia.
  - destruct (Z.even m); split; try lia; nia.
  - split; [lia|]. nia.
  - split; [lia|]. nia.
Qed.

(** The first shift of [binary_round_aux] brings the mantissa to 53 bits. *)
Lemma shr_fexp_normalizes (mx ex : Z) (lx : location) (num den : Z) :
  0 < den -> 0 < mx -> 53 <= Zdigits2 mx ->
  -1074 <= ex + Zdigits2 mx - 53 ->
  inbetween num den mx lx ->
  exists mrs,
    shr_fexp prec emax mx ex lx = (mrs, ex + (Zdigits2 mx - 53)) /\
    2 ^ 52 <= shr_m mrs < 2 ^ 53 /\
    inbetween num (2 ^ (Zdigits2 mx - 53) * den) (shr_m mrs)
      (loc_of_shr_record mrs).
Proof.
  intros Hden Hmx Hd He H.
  destruct mx as [|p|p]; try lia. cbn [Zdigits2] in *.
  destruct (digits2_pos_bounds p) as [B1 B2].
  set (d := Z.pos (digits2_pos p)) in *.
  unfold shr_fexp. cbn [Zdigits2]. fold d.
  rewrite fexp_normal by lia.
  replace (d + ex - 53 - ex) with (d - 53) by lia.
  destruct (loc_of_shr_record_of_loc (Z.pos p) lx) as [El Em].
  destruct (d - 53) as [|q|q] eqn:Eq; try lia.
  - cbn [shr]. eexists. split; [f_equal; lia|].
    rewrite El, Em. replace d with 53 in * by lia.
    change (2 ^ 0) with 1. rewrite Z.mul_1_l.
    split; [|exact H]. change (53 - 1) with 52 in B1. lia.
  - cbn [shr].
    destruct (iter_shr_1_inbetween num q den (shr_record_of_loc (Z.pos p) lx))
      as (Hm & Hq & Hin); [lia | rewrite Em; lia | now rewrite El, Em |].
    eexists. split; [reflexivity|]. split; [|exact Hin].
    rewrite Em in Hq.
    assert (Hpow : 0 < 2 ^ Z.pos q) by (apply Z.pow_pos_nonneg; lia).
    replace (d - 1) with (52 + Z.pos q) in B1 by lia.
    replace d with (53 + Z.pos q) in B2 by lia.
    rewrite Z.pow_add_r in B1, B2 by lia.
    set (P := 2 ^ Z.pos q) in *.
    set (m' := shr_m (iter_pos shr_1 q (shr_record_of_loc (Z.pos p) lx))) in *.
    split; nia.
Qed.

Lemma binary_round_aux_nearest (sx : bool) (mx ex : Z) (lx : location)
    (num den : Z) :
  0 < den -> 0 < mx -> 53 <= Zdigits2 mx ->
  -1074 <= ex + Zdigits2 mx - 53 -> ex + Zdigits2 mx - 53 < 971 ->
  inbetween num den mx lx ->
  exists m e,
    binary_round_aux prec emax sx mx ex lx = S754_finite sx m e /\
    2 ^ 52 <= Z.pos m < 2 ^ 53 /\
    ex + (Zdigits2 mx - 53) <= e /\
    Z.abs (2 * (Z.pos m * 2 ^ (e - ex) * den - num))
      <= 2 ^ (Zdigits2 mx - 53) * den.
Proof.
  intros Hden Hmx Hd He Ho H.
  destruct (shr_fexp_normalizes mx ex lx num den Hden Hmx Hd He H)
    as (mrs & E1 & Hm & Hin).
  unfold binary_round_aux. rewrite E1.
  set (n := Zdigits2 mx - 53) in *.
  assert (Hn : 0 <= n) by (unfold n; lia).
  assert (HP : 0 < 2 ^ n) by (apply Z.pow_pos_nonneg; lia).
  destruct (round_nearest_even_near num (2 ^ n * den) (shr_m mrs)
              (loc_of_shr_record mrs) ltac:(nia) Hin) as [Hr Hnear].
  set (m2 := round_nearest_even (shr_m mrs) (loc_of_shr_record mrs)) in *.
  destruct (Z.eq_dec m2 (2 ^ 53)) as [Ec|Ec].
  - (* the rounding carried into the next binade *)
    rewrite Ec. exists (Z.to_pos (2 ^ 52)), (ex + n + 1).
    split; [|split; [|split]].
    + unfold shr_fexp. change (Zdigits2 (2 ^ 53)) with 54.
      rewrite fexp_normal by lia.
      replace (54 + (ex + n) - 53 - (ex + n)) with 1 by lia.
      cbn [shr shr_record_of_loc iter_pos]. cbn [shr_1 shr_m].
      change (shr_m (shr_1 {| shr_m := 2 ^ 53; shr_r := false; shr_s := false |}))
        with (2 ^ 52).
      change (2 ^ 52) with (Z.pos (Z.to_pos (2 ^ 52))) at 1.
      cbv iota beta.
      replace (ex + n + 1 <=? emax - prec) with true; [reflexivity|].
      symmetry. apply Z.leb_le. unfold emax, prec. lia.
    + cbn. lia.
    + lia.
    + replace (ex + n + 1 - ex) with (n + 1) by lia.
      rewrite Z.pow_add_r by lia. change (2 ^ 1) with 2.
      change (Z.pos (Z.to_pos (2 ^ 52))) with (2 ^ 52).
      rewrite Ec in Hnear.
      replace (2 ^ 52 * (2 ^ n * 2) * den) with (2 ^ 53 * (2 ^ n * den))
        by (change (2 ^ 53) with (2 ^ 52 * 2); ring).
      exact Hnear.
  - assert (Hm2 : 2 ^ 52 <= m2 < 2 ^ 53) by lia.
    destruct m2 as [|p2|p2] eqn:Em2; try (cbn in Hm2; lia).
    exists p2, (ex + n).
    split; [|split; [|split]].
    + unfold shr_fexp.
      assert (Ed : Zdigits2 (Z.pos p2) = 53).
      { cbn [Zdigits2]. apply digits2_pos_unique.
        change (53 - 1) with 52. exact Hm2. }
      rewrite Ed. rewrite fexp_normal by lia.
      replace (53 + (ex + n) - 53 - (ex + n)) with 0 by lia.
      cbn [shr shr_record_of_loc shr_m].
      replace (ex + n <=? emax - prec) with true; [reflexivity|].
      symmetry. apply Z.leb_le. unfold emax, prec. lia.
    + exact Hm2.
    + lia.
    + replace (ex + n - ex) with n by lia.
      replace (Z.pos p2 * 2 ^ n * den) with (Z.pos p2 * (2 ^ n * den)) by ring.
      exact Hnear.
Qed.

Lemma pos_iter_xO (p q : positive) :
  Z.pos (Pos.iter xO p q) = Z.pos p * 2 ^ Z.pos q.
Proof.
  induction q as [|q IH] using Pos.peano_ind.
  - cbn [Pos.iter]. rewrite (Pos2Z.inj_xO p). change (2 ^ 1) with 2. lia.
  - rewrite Pos.iter_succ, (Pos2Z.inj_xO (Pos.iter xO p q)), IH.
    rewrite Pos2Z.inj_succ, Z.pow_succ_r by lia. ring.
Qed.

(** An integer below 2^53 is a double: the conversion is exact. *)
Lemma double_of_int_exact (a : Z) :
  0 < a < 2 ^ 53 ->
  exists m e,
    double_of_int a = S754_finite false m e /\
    2 ^ 52 <= Z.pos m < 2 ^ 53 /\
    -52 <= e <= 0 /\
    Z.pos m = a * 2 ^ (- e).
Proof.
  intros Ha. destruct a as [|p|p]; try lia.
  unfold double_of_int, binary_normalize, binary_round.
  destruct (digits2_pos_bounds p) as [B1 B2].
  set (d := Z.pos (digits2_pos p)) in *.
  assert (Hd : 1 <= d <= 53).
  { split; [unfold d; lia|].
    destruct (Z.le_gt_cases d 53) as [L|G]; [exact L|exfalso].
    assert (2 ^ 53 <= 2 ^ (d - 1)) by (apply Z.pow_le_mono_r; lia). lia. }
  rewrite Z.add_0_r. rewrite fexp_normal by lia.
  assert (Hal : exists mz,
             shl_align p 0 (d - 53) = (mz, d - 53) /\
             Z.pos mz = Z.pos p * 2 ^ (53 - d)).
  { unfold shl_align. rewrite Z.sub_0_r.
    destruct (d - 53) as [|q|q] eqn:Eq; try lia.
    - exists p. split; [reflexivity|].
      replace (53 - d) with 0 by lia. change (2 ^ 0) with 1. lia.
    - exists (Pos.iter xO p q). split; [reflexivity|].
      rewrite pos_iter_xO. f_equal. f_equal. lia. }
  destruct Hal as (mz & -> & Emz).
  assert (Hpow : 2 ^ (d - 1) * 2 ^ (53 - d) = 2 ^ 52)
    by (rewrite <- Z.pow_add_r by lia; f_equal; lia).
  assert (Hpow' : 2 ^ d * 2 ^ (53 - d) = 2 ^ 53)
    by (rewrite <- Z.pow_add_r by lia; f_equal; lia).
  assert (HP : 0 < 2 ^ (53 - d)) by (apply Z.pow_pos_nonneg; lia).
  assert (Hmz : 2 ^ 52 <= Z.pos mz < 2 ^ 53) by (rewrite Emz; nia).
  assert (Edz : Zdigits2 (Z.pos mz) = 53).
  { cbn [Zdigits2]. apply digits2_pos_unique. change (53 - 1) with 52.
    exact Hmz. }
  destruct (binary_round_aux_nearest false (Z.pos mz) (d - 53) loc_Exact
              (Z.pos mz) 1) as (m & e & E & Hm & He & Hnear);
    try lia.
  { cbn [inbetween]. lia. }
  rewrite Edz in He, Hnear. change (2 ^ (53 - 53)) with 1 in Hnear.
  replace (d - 53 + (53 - 53)) with (d - 53) in He by lia.
  assert (Hee : e = d - 53).
  { destruct (Z.eq_dec e (d - 53)) as [Ee|Ne]; [exact Ee|exfalso].
    assert (Hp2 : 2 ^ 1 <= 2 ^ (e - (d - 53)))
      by (apply Z.pow_le_mono_r; lia).
    change (2 ^ 1) with 2 in Hp2. nia. }
  subst e. replace (d - 53 - (d - 53)) with 0 in Hnear by lia.
  change (2 ^ 0) with 1 in Hnear.
  assert (Z.pos m = Z.pos mz) by lia.
  exists m, (d - 53). rewrite E.
  split; [reflexivity|]. split; [exact Hm|]. split; [lia|].
  replace (- (d - 53)) with (53 - d) by lia. lia.
Qed.

Lemma new_location_inbetween (den q r : Z) :
  0 < den -> 0 <= r < den ->
  inbetween (den * q + r) den q (new_location den r).
Proof.
  intros Hden Hr. unfold new_location.
  destruct (Z.even den) eqn:Ev;
    unfold new_location_even, new_location_odd;
    destruct (Z.eqb_spec r 0) as [E0|Hr0]; cbn [inbetween]; try lia.
  - split; [lia|]. f_equal. lia.
  - split; [lia|].
    assert (Hodd : Z.odd den = true)
      by (rewrite <- Z.negb_even, Ev; reflexivity).
    apply Z.odd_spec in Hodd. destruct Hodd as [k Hk].
    replace (2 * (den * q + r - q * den)) with (2 * r) by lia.
    destruct (Z.compare_spec (2 * r + 1) den) as [E|E|E].
    + apply Z.compare_lt_iff. lia.
    + apply Z.compare_lt_iff. lia.
    + apply Z.compare_gt_iff. lia.
Qed.

(** The quotient of two integers below 2^53, as AVG computes it: the
    double whose 53-bit mantissa is a nearest integer to the scaled exact
    quotient. *)
Lemma int_quotient_nearest (a n : Z) :
  0 < a < 2 ^ 52 -> 0 < n < 2 ^ 53 ->
  exists m e,
    SFdiv prec emax (double_of_int a) (double_of_int n)
      = S754_finite false m e /\
    2 ^ 52 <= Z.pos m < 2 ^ 53 /\
    e <= 0 /\
    Z.abs (2 * (Z.pos m * n - a * 2 ^ (- e))) <= n.
Proof.
  intros Ha Hn.
  destruct (double_of_int_exact a ltac:(lia)) as (m1 & e1 & -> & Hm1 & He1 & Em1).
  destruct (double_of_int_exact n Hn) as (m2 & e2 & -> & Hm2 & He2 & Em2).
  cbn [SFdiv xorb]. unfold SFdiv_core_binary.
  assert (Ed1 : Zdigits2 (Z.pos m1) = 53).
  { cbn [Zdigits2]. apply digits2_pos_unique. change (53 - 1) with 52. exact Hm1. }
  assert (Ed2 : Zdigits2 (Z.pos m2) = 53).
  { cbn [Zdigits2]. apply digits2_pos_unique. change (53 - 1) with 52. exact Hm2. }
  rewrite Ed1, Ed2.
  replace (53 + e1 - (53 + e2)) with (e1 - e2) by lia.
  rewrite fexp_normal by lia.
  replace (Z.min (e1 - e2 - 53) (e1 - e2)) with (e1 - e2 - 53) by lia.
  replace (e1 - e2 - (e1 - e2 - 53)) with 53 by lia.
  cbv iota beta. rewrite Z.shiftl_mul_pow2 by lia.
  pose proof (Z_div_mod (Z.pos m1 * 2 ^ 53) (Z.pos m2) ltac:(lia)) as Hdm.
  destruct (Z.div_eucl (Z.pos m1 * 2 ^ 53) (Z.pos m2)) as [q r].
  destruct Hdm as [Eq Hr].
  set (ex := e1 - e2 - 53) in *.
  assert (Hq : 2 ^ 52 <= q < 2 ^ 54).
  { change (2 ^ 54) with (2 ^ 53 * 2). change (2 ^ 53) with (2 ^ 52 * 2) in *.
    set (T := 2 ^ 52) in *. assert (0 < T) by (unfold T; lia). nia. }
  assert (Hdq : Zdigits2 q = 53 \/ Zdigits2 q = 54).
  { destruct q as [|pq|pq]; try lia. cbn [Zdigits2].
    destruct (Z.lt_ge_cases (Z.pos pq) (2 ^ 53)) as [L|G].
    - left. apply digits2_pos_unique. change (53 - 1) with 52. lia.
    - right. apply digits2_pos_unique. change (54 - 1) with 53. lia. }
  destruct (binary_round_aux_nearest false q ex (new_location (Z.pos m2) r)
              (Z.pos m1 * 2 ^ 53) (Z.pos m2))
    as (m & e & E & Hm & He & Hnear); try lia.
  { rewrite Eq. apply new_location_inbetween; lia. }
  exists m, e. split; [exact E|]. split; [exact Hm|].
  set (nq := Zdigits2 q - 53) in *.
  assert (Hnq : 0 <= nq <= 1) by lia.
  assert (Hsh : 0 <= e - ex) by lia.
  (* the half unit of the result is at least that of the first shift *)
  assert (Hnear' : Z.abs (2 * (Z.pos m * 2 ^ (e - ex) * Z.pos m2
                               - Z.pos m1 * 2 ^ 53))
                   <= 2 ^ (e - ex) * Z.pos m2).
  { assert (2 ^ nq <= 2 ^ (e - ex)) by (apply Z.pow_le_mono_r; lia).
    nia. }
  clear Hnear.
  (* in terms of a and n *)
  rewrite Em1, Em2 in Hnear'.
  assert (EX : 2 ^ (e - ex) * 2 ^ (- e2) = 2 ^ (e - e1 + 53))
    by (rewrite <- Z.pow_add_r by lia; f_equal; unfold ex; lia).
  assert (EW : 2 ^ (- e1) * 2 ^ 53 = 2 ^ (53 - e1))
    by (rewrite <- Z.pow_add_r by lia; f_equal; lia).
  replace (Z.pos m * 2 ^ (e - ex) * (n * 2 ^ (- e2)))
    with (Z.pos m * n * (2 ^ (e - ex) * 2 ^ (- e2))) in Hnear' by ring.
  replace (2 ^ (e - ex) * (n * 2 ^ (- e2)))
    with (n * (2 ^ (e - ex) * 2 ^ (- e2))) in Hnear' by ring.
  replace (a * 2 ^ (- e1) * 2 ^ 53)
    with (a * (2 ^ (- e1) * 2 ^ 53)) in Hnear' by ring.
  rewrite EX, EW in Hnear'.
  assert (HX : 0 < 2 ^ (e - e1 + 53))
    by (apply Z.pow_pos_nonneg; unfold ex in Hsh; lia).
  assert (He0 : e <= 0).
  { destruct (Z.le_gt_cases e 0) as [L|G]; [exact L|exfalso].
    assert (Hk : 2 ^ (1 + (53 - e1)) <= 2 ^ (e - e1 + 53))
      by (apply Z.pow_le_mono_r; lia).
    rewrite Z.pow_add_r in Hk by lia. change (2 ^ 1) with 2 in Hk.
    set (X := 2 ^ (e - e1 + 53)) in *. set (W := 2 ^ (53 - e1)) in *.
    assert (HW : 0 < W) by (apply Z.pow_pos_nonneg; lia).
    assert (HT : 0 < 2 ^ 52) by (apply Z.pow_pos_nonneg; lia).
    set (T := 2 ^ 52) in *.
    assert (H1 : (2 * Z.pos m - 1) * n * X <= 2 * a * W) by lia.
    assert (H2 : 2 * a * W <= a * X).
    { replace (2 * a * W) with (a * (2 * W)) by ring.
      apply Z.mul_le_mono_nonneg_l; lia. }
    assert (H3 : (2 * Z.pos m - 1) * n * X <= a * X) by lia.
    apply Z.mul_le_mono_pos_r in H3; [|exact HX].
    assert (H4 : (2 * Z.pos m - 1) * 1 <= (2 * Z.pos m - 1) * n)
      by (apply Z.mul_le_mono_nonneg_l; lia).
    lia. }
  split; [exact He0|].
  assert (EY : 2 ^ (53 - e1) = 2 ^ (- e) * 2 ^ (e - e1 + 53))
    by (rewrite <- Z.pow_add_r by (unfold ex in Hsh; lia); f_equal; lia).
  rewrite EY in Hnear'.
  set (X := 2 ^ (e - e1 + 53)) in *. set (Y := 2 ^ (- e)) in *.
  replace (2 * (Z.pos m * n * X - a * (Y * X)))
    with (2 * (Z.pos m * n - a * Y) * X) in Hnear' by ring.
  rewrite Z.abs_mul, (Z.abs_eq X) in Hnear' by lia.
  apply Z.mul_le_mono_pos_r in Hnear'; [exact Hnear'|exact HX].
Qed.

Lemma float_value_scaled (m : positive) (e : Z) :
  e <= 0 ->
  exists D : positive,
    Z.pos D = 2 ^ (- e) /\
    (float_value (S754_finite false m e) == Z.pos m # D)%Q.
Proof.
  intros He. destruct e as [|p|p]; try lia.
  - exists 1%positive. split; [reflexivity|].
    cbn [float_value cond_Zopp]. change (2 ^ 0) with 1.
    unfold Qeq, inject_Z. cbn [Qnum Qden]. lia.
  - exists (2 ^ p)%positive. split; [apply Pos2Z.inj_pow|].
    cbn [float_value cond_Zopp]. reflexivity.
Qed.

Lemma Zpos_of_nat (n : nat) :
  (0 < n)%nat -> Z.pos (Pos.of_nat n) = Z.of_nat n.
Proof.
  intros Hn. rewrite <- positive_nat_Z. rewrite Nat2Pos.id by lia.
  reflexivity.
Qed.

(** AVG over integers is within one part in 2^52 of the exact mean. *)
Lemma sql_avg_accurate (l : list Z) :
  0 < sum_list l < 2 ^ 52 -> (0 < length l)%nat ->
  Z.of_nat (length l) < 2 ^ 53 ->
  (Qabs (float_value (sql_avg l) - mean l) <= mean l * (1 # 2 ^ 52))%Q.
Proof.
  intros Hs Hl0 Hl. unfold sql_avg, mean.
  destruct (int_quotient_nearest (sum_list l) (Z.of_nat (length l)) Hs
              ltac:(lia)) as (m & e & -> & Hm & He & Hnear).
  destruct (float_value_scaled m e He) as (D & ED & ->).
  rewrite <- ED in Hnear.
  rewrite <- (Zpos_of_nat _ Hl0) in Hnear.
  set (a := sum_list l) in *. set (L := Pos.of_nat (length l)) in *.
  unfold Qle, Qabs, Qminus, Qplus, Qopp, Qmult. cbn [Qnum Qden].
  rewrite !Pos2Z.inj_mul.
  assert (HT : Z.pos (2 ^ 52) = 2 ^ 52) by apply Pos2Z.inj_pow.
  rewrite HT. set (T := 2 ^ 52) in *.
  assert (HT0 : 0 < T) by (unfold T; apply Z.pow_pos_nonneg; lia).
  set (u := Z.pos m * Z.pos L + - a * Z.pos D).
  replace (Z.pos m * Z.pos L - a * Z.pos D) with u in Hnear by (unfold u; ring).
  assert (Hu : 2 * Z.abs u <= Z.pos L) by lia.
  assert (HaD : (2 * T - 1) * Z.pos L <= 2 * (a * Z.pos D)).
  { assert (T * Z.pos L <= Z.pos m * Z.pos L)
      by (apply Z.mul_le_mono_nonneg_r; lia).
    unfold u in Hu. lia. }
  assert (H1 : Z.abs u * T <= a * Z.pos D).
  { assert (2 * (Z.abs u * T) <= Z.pos L * T)
      by (replace (2 * (Z.abs u * T)) with (2 * Z.abs u * T) by ring;
          apply Z.mul_le_mono_nonneg_r; lia).
    nia. }
  replace (Z.abs u * (Z.pos L * T)) with (Z.abs u * T * Z.pos L) by ring.
  replace (a * 1 * (Z.pos D * Z.pos L)) with (a * Z.pos D * Z.pos L) by ring.
  apply Z.mul_le_mono_nonneg_r; lia.
Qed.

Lemma sum_list_bounds (l : list Z) (lo hi : Z) :
  Forall (fun x => lo <= x <= hi) l ->
  lo * Z.of_nat (length l) <= sum_list l <= hi * Z.of_nat (length l).
Proof.
  induction 1 as [|x l Hx _ IH]; [cbn; lia|].
  cbn [sum_list fold_right length]. fold (sum_list l).
  rewrite Nat2Z.inj_succ. lia.
Qed.

(** A rounded average of values between 1 and 15 is within 0.005, up to
    the error of the division, of the exact mean. *)
Lemma rounded_avg_close (l : list Z) :
  l <> [] ->
  Forall (fun x => 1 <= x <= 15) l ->
  Z.of_nat (length l) < 2 ^ 48 ->
  (Qabs (py_round2 (sql_avg l) - mean l) <= (1 # 200) + (1 # 2 ^ 48))%Q.
Proof.
  intros Hne Hall Hlen.
  assert (Hl0 : (0 < length l)%nat) by (destruct l; [congruence | cbn; lia]).
  pose proof (sum_list_bounds l 1 15 Hall) as Hsum.
  assert (H48 : 16 * 2 ^ 48 = 2 ^ 52) by reflexivity.
  assert (Hacc := sql_avg_accurate l ltac:(lia) Hl0 ltac:(lia)).
  destruct (py_round2_nearest (sql_avg l)) as (k & -> & Hk1 & Hk2).
  assert (Hmu : (0 <= mean l <= 15)%Q).
  { unfold mean, Qle. cbn [Qnum Qden]. rewrite (Zpos_of_nat _ Hl0). lia. }
  apply Qabs_Qle_condition in Hacc.
  apply Qabs_Qle_condition.
  assert (Hc : (mean l * (1 # 2 ^ 52) <= 1 # 2 ^ 48)%Q).
  { apply Qle_trans with (15 * (1 # 2 ^ 52))%Q.
    - apply Qmult_le_compat_r; [tauto | discriminate].
    - unfold Qle. cbn. lia. }
  set (x := (mean l * (1 # 2 ^ 52))%Q) in *.
  set (c := (1 # 2 ^ 48)%Q) in *.
  set (v := float_value (sql_avg l)) in *.
  set (mu := mean l) in *.
  split; lra.
Qed.

(* ================================================================= *)
(** ** The leaderboard *)

Lemma by_avg_total_desc_total (a b : lb_row) :
  by_avg_total_desc a b = true \/ by_avg_total_desc b a = true.
Proof.
  unfold by_avg_total_desc, float_leb. rewrite !Qle_bool_iff.
  destruct (Qlt_le_dec (float_value (lb_avg_total a))
                       (float_value (lb_avg_total b))) as [H|H].
  - right. now apply Qlt_le_weak.
  - now left.
Qed.

Lemma by_avg_total_desc_trans (a b c : lb_row) :
  by_avg_total_desc a b = true -> by_avg_total_desc b c = true ->
  by_avg_total_desc a c = true.
Proof.
  unfold by_avg_total_desc, float_leb. rewrite !Qle_bool_iff.
  intros H1 H2. eapply Qle_trans; eauto.
Qed.

Lemma Forall2_In_r {A B} (R : A -> B -> Prop) (l : list A) (l' : list B)
    (y : B) :
  Forall2 R l l' -> In y l' -> exists x, In x l /\ R x y.
Proof.
  induction 1 as [|a b l l' Hab _ IH]; simpl; [tauto|].
  intros [<-|Hy]; [eauto|].
  destruct (IH Hy) as (x & Hx & Hr). eauto.
Qed.

Lemma Forall2_sorted {A B} (R : A -> B -> Prop)
    (P : A -> A -> Prop) (P' : B -> B -> Prop) (l : list A) (l' : list B) :
  (forall a b a' b', R a a' -> R b b' -> P a b -> P' a' b') ->
  Forall2 R l l' -> StronglySorted P l -> StronglySorted P' l'.
Proof.
  intros HP. induction 1 as [|a a' l l' Ha Hl IH]; intros Hs;
    [constructor|].
  apply StronglySorted_inv in Hs. destruct Hs as [Hs Hhd].
  constructor; [auto|].
  apply Forall_forall. intros b' Hb'.
  destruct (Forall2_In_r _ _ _ _ Hl Hb') as (b & Hb & Hr).
  rewrite Forall_forall in Hhd. eauto.
Qed.

Lemma Forall2_map_In {A B C} (f : A -> C) (P : A -> B -> Prop)
    (R : C -> B -> Prop) (l : list A) (l' : list B) :
  Forall2 P l l' ->
  (forall a b, In a l -> P a b -> R (f a) b) ->
  Forall2 R (map f l) l'.
Proof.
  induction 1 as [|a b l l' Hab _ IH]; simpl; intros H; constructor.
  - apply H; auto.
  - apply IH. intros; apply H; auto.
Qed.

Lemma names_NoDup (keys : list Z) (out : list lb_entry) :
  Forall2 (fun k e => list_index ENTRANTS k = Ok (name e)) keys out ->
  (forall k, In k keys -> 0 <= k < N_ENTRANTS) ->
  NoDup keys -> NoDup (map name out).
Proof.
  induction 1 as [|k e keys out Hke Hrest IH]; simpl; intros Hr Hnd;
    [constructor|].
  inversion Hnd as [|? ? Hnotin Hnd']; subst.
  constructor; [|apply IH; auto].
  intros Hin. apply in_map_iff in Hin. destruct Hin as (e' & He' & Hin).
  destruct (Forall2_In_r _ _ _ _ Hrest Hin) as (k' & Hk' & Hn').
  rewrite He' in Hn'.
  assert (k' = k) by (eapply entrant_name_inj; eauto).
  subst k'. contradiction.
Qed.

Lemma lb_entry_of_aggregate (rows : list row) (k : Z) (e : lb_entry) :
  lb_entry_of (aggregate rows k) = Ok e -> entry_of_entrant rows k e.
Proof.
  unfold lb_entry_of. cbn [lb_entrant_index aggregate].
  intros H. apply bind_ok in H. destruct H as (n & Hn & H).
  inversion H; subst; clear H. unfold entry_of_entrant. cbn.
  repeat split; auto.
Qed.

Lemma Forall2_impl_In_l {A B} (P P' : A -> B -> Prop) (l : list A)
    (l' : list B) :
  (forall a b, In a l -> P a b -> P' a b) ->
  Forall2 P l l' -> Forall2 P' l l'.
Proof.
  intros H HF. induction HF as [|a b l l' Hab _ IH]; constructor.
  - apply H; simpl; auto.
  - apply IH. intros; apply H; simpl; auto.
Qed.

Lemma group_column_bounds (rows : list row) (k : Z) (f : row -> Z) :
  Forall (fun r => score_ok (taste r) && score_ok (presentation r)
                   && score_ok (easy r) = true) rows ->
  (forall r, score_ok (taste r) && score_ok (presentation r)
             && score_ok (easy r) = true -> 1 <= f r <= 15) ->
  Z.of_nat (length rows) < 2 ^ 48 ->
  Forall (fun x => 1 <= x <= 15) (map f (rows_of k rows)) /\
  Z.of_nat (length (map f (rows_of k rows))) < 2 ^ 48.
Proof.
  intros Hok Hf Hlen. split.
  - apply Forall_forall. intros x Hx. apply in_map_iff in Hx.
    destruct Hx as (r & <- & Hr). apply filter_In in Hr.
    rewrite Forall_forall in Hok. apply Hf, Hok, Hr.
  - rewrite length_map. unfold rows_of.
    pose proof (filter_length_le (fun r => entrant_index r =? k) rows).
    lia.
Qed.

Lemma score_ok_range (v : Z) : score_ok v = true -> 1 <= v <= 5.
Proof.
  unfold score_ok. rewrite andb_true_iff, !Z.leb_le. tauto.
Qed.

Lemma entry_near_means_of_entry (rows : list row) (k : Z) (e : lb_entry) :
  Forall (fun r => score_ok (taste r) && score_ok (presentation r)
                   && score_ok (easy r) = true) rows ->
  Z.of_nat (length rows) < 2 ^ 48 ->
  rows_of k rows <> [] ->
  entry_of_entrant rows k e -> entry_near_means rows k e.
Proof.
  intros Hok Hlen Hne (_ & _ & Et & Ep & Ee & Eo).
  unfold entry_near_means. rewrite Et, Ep, Ee, Eo.
  assert (Hcol : forall f,
            (forall r, score_ok (taste r) && score_ok (presentation r)
                       && score_ok (easy r) = true -> 1 <= f r <= 15) ->
            within_rounding (py_round2 (sql_avg (map f (rows_of k rows))))
              (mean (map f (rows_of k rows)))).
  { intros f Hf.
    destruct (group_column_bounds rows k f Hok Hf Hlen) as [Hall Hl].
    apply rounded_avg_close; auto.
    destruct (rows_of k rows); [congruence | discriminate]. }
  repeat split; apply Hcol; intros r Hr;
    apply andb_true_iff in Hr; destruct Hr as [Hr He];
    apply andb_true_iff in Hr; destruct Hr as [Ht Hp];
    apply score_ok_range in Ht, Hp, He; unfold total; lia.
Qed.

Lemma reachable_eq (db db' : database) :
  reachable db -> db = db' -> reachable db'.
Proof. intros H <-. exact H. Qed.

Lemma reachable_two_entrants : reachable two_entrants.
Proof.
  pose proof
    (reach_rate _
       (rate_body 0 (PInt 3) (PInt 3) (PInt 4) [] [])
       (Some (of_string "dev-a")) six_pm reach_init) as H1.
  pose proof
    (reach_rate _
       (rate_body 1 (PInt 2) (PInt 2) (PInt 2) [] [])
       (Some (of_string "dev-a")) six_pm H1) as H2.
  pose proof
    (reach_rate _
       (rate_body 0 (PInt 4) (PInt 4) (PInt 4) [] [])
       (Some (of_string "dev-b")) six_pm H2) as H3.
  pose proof
    (reach_rate _
       (rate_body 1 (PInt 3) (PInt 3) (PInt 2) [] [])
       (Some (of_string "dev-b")) six_pm H3) as H4.
  pose proof
    (reach_rate _
       (rate_body 0 (PInt 5) (PInt 5) (PInt 4) [] [])
       (Some (of_string "dev-c")) six_pm H4) as H5.
  eapply reachable_eq; [exact H5|]. vm_compute. reflexivity.
Qed.

Lemma entrant_rows_rows_of (k : Z) (rows : list row) :
  entrant_rows k rows = rows_of k rows.
Proof.
  unfold rows_of.
  induction rows as [|r rows IH]; cbn [entrant_rows filter]; [reflexivity|].
  destruct (Z.eq_dec (entrant_index r) k) as [E|E].
  - rewrite (proj2 (Z.eqb_eq _ _) E), IH. reflexivity.
  - rewrite (proj2 (Z.eqb_neq _ _) E). exact IH.
Qed.

Lemma column_mean_mean (f : row -> Z) (rows : list row) :
  column_mean f rows = mean (map f rows).
Proof.
  unfold column_mean, mean, sum_list. rewrite length_map. f_equal.
  induction rows as [|r rows IH]; cbn [column_sum map fold_right];
    [reflexivity | now rewrite IH].
Qed.

Lemma py_round2_two_places (x : spec_float) : two_places (py_round2 x).
Proof.
  destruct (py_round2_nearest x) as (k & E & _). exists k. exact E.
Qed.

Lemma entry_averages_of_entry (rows : list row) (k : Z) (e : lb_entry) :
  Forall (fun r => score_ok (taste r) && score_ok (presentation r)
                   && score_ok (easy r) = true) rows ->
  rows_of k rows <> [] ->
  entry_of_entrant rows k e -> entry_averages rows k e.
Proof.
  intros Hok Hne He.
  pose proof He as (_ & Ev & Et & Ep & Ee & Eo).
  unfold entry_averages. rewrite entrant_rows_rows_of, !column_mean_mean.
  split; [exact Ev|].
  split; [rewrite Et; apply py_round2_two_places|].
  split; [rewrite Ep; apply py_round2_two_places|].
  split; [rewrite Ee; apply py_round2_two_places|].
  split; [rewrite Eo; apply py_round2_two_places|].
  intros Hlen.
  exact (entry_near_means_of_entry rows k e Hok Hlen Hne He).
Qed.

(** C5: over a non-empty table the leaderboard has exactly one entry for
    each entrant that has a row and none for the others; the entry gives
    the entrant's name and number of rows, and its avg_taste,
    avg_presentation, avg_easy and avg_total are the averages AVG takes
    of taste, of presentation, of easy and of taste + presentation + easy
    over the entrant's rows, each rounded to two decimal places (a
    decimal at most 0.005 from the average); the entries come in
    descending order of avg_total.  In a table of fewer than 2^48 rows
    each of the four is within 0.005 + 2^-48 of the exact mean.  The
    entrant's rows are the rows of the table whose entrant_index column
    is the entrant's index, votes is their number, and the mean is the
    sum of the column over them divided by their number.  So a table in
    which entrant 0 has rows of totals 10, 12 and 14 and entrant 1 rows
    of totals 6 and 8 gives the entry of entrant 0 with avg_total 12.00
    before that of entrant 1 with avg_total 7.00. *)
Theorem leaderboard_one_entry_per_voted_entrant :
  (forall db : database,
   reachable db ->
   ratings db <> [] ->
   exists out keys,
    api_leaderboard db = JsonLeaderboard out /\
    out <> [] /\
    NoDup keys /\
    (forall k, In k keys <->
               exists r, In r (ratings db) /\ entrant_index r = k) /\
    Forall2 (entry_of_entrant (ratings db)) keys out /\
    NoDup (map name out) /\
    Forall (fun e => 0 < votes e) out /\
    StronglySorted (fun a b => (avg_total b <= avg_total a)%Q) out /\
    (forall x, exists k,
        py_round2 x = k # 100 /\
        ((k # 100) - (1 # 200) <= float_value x)%Q /\
        (float_value x <= (k # 100) + (1 # 200))%Q) /\
    (Z.of_nat (length (ratings db)) < 2 ^ 48 ->
     Forall2 (entry_near_means (ratings db)) keys out) /\
    Forall2 (entry_averages (ratings db)) keys out) /\
  reachable two_entrants /\
  map (column_sum (fun r => taste r + presentation r + easy r))
    [entrant_rows 0 (ratings two_entrants);
     entrant_rows 1 (ratings two_entrants)] = [36; 14] /\
  api_leaderboard two_entrants
  = JsonLeaderboard
      [ {| name := of_string "Javier"; votes := 3;
           avg_taste := 400 # 100; avg_presentation := 400 # 100;
           avg_easy := 400 # 100; avg_total := 1200 # 100 |};
        {| name := of_string "Lindsay"; votes := 2;
           avg_taste := 250 # 100; avg_presentation := 250 # 100;
           avg_easy := 200 # 100; avg_total := 700 # 100 |} ].
Proof.
  split;
    [|split; [exact reachable_two_entrants
             |split; [reflexivity | vm_compute; reflexivity]]].
  intros db Hreach Hne. apply reachable_table_ok in Hreach.
  destruct (leaderboard_out_ok db Hreach) as [out Hout].
  pose proof (mapM_Forall2 _ _ _ Hout) as HF.
  set (rows := ratings db) in *.
  set (S := select_leaderboard rows) in *.
  assert (Hperm : Permutation (map lb_entrant_index S) (group_keys rows)).
  { unfold S, select_leaderboard.
    rewrite (sort_by_perm by_avg_total_desc).
    rewrite map_map. cbn [aggregate lb_entrant_index].
    rewrite map_id. reflexivity. }
  assert (Hkeys : forall k, In k (map lb_entrant_index S) <->
                            In k (group_keys rows)).
  { intros k. split; apply Permutation_in; [exact Hperm | now symmetry]. }
  assert (HF2 : Forall2 (entry_of_entrant rows) (map lb_entrant_index S) out).
  { eapply Forall2_map_In; [exact HF|].
    intros g e Hg He. apply select_leaderboard_In in Hg.
    destruct Hg as (k & _ & ->). now apply lb_entry_of_aggregate. }
  exists out, (map lb_entrant_index S).
  split; [unfold api_leaderboard; now rewrite Hout|].
  assert (Hnd : NoDup (map lb_entrant_index S)).
  { eapply Permutation_NoDup; [symmetry; exact Hperm|].
    apply group_keys_NoDup. }
  repeat split.
  - intros ->. inversion HF2 as [Hnil|]; subst.
    destruct rows as [|r rows'] eqn:Er; [congruence|].
    assert (Hin : In (entrant_index r) (group_keys (r :: rows')))
      by (apply group_keys_In; exists r; simpl; auto).
    apply Hkeys in Hin. rewrite <- Hnil in Hin. exact Hin.
  - exact Hnd.
  - intros Hk. apply Hkeys in Hk. now apply group_keys_In.
  - intros Hk. apply Hkeys. now apply group_keys_In.
  - exact HF2.
  - apply (names_NoDup (map lb_entrant_index S) out); [| |exact Hnd].
    + eapply Forall2_impl; [|exact HF2]. intros k e He. apply He.
    + intros k Hk. apply Hkeys in Hk. eapply group_key_range; eauto.
  - apply Forall_forall. intros e He.
    destruct (Forall2_In_r _ _ _ _ HF2 He) as (k & Hk & Hek).
    destruct Hek as (_ & -> & _).
    apply Hkeys, group_keys_In in Hk. destruct Hk as (r & Hr & Ek).
    assert (Hin : In r (rows_of k rows)).
    { apply filter_In. split; [exact Hr|]. now apply Z.eqb_eq. }
    destruct (rows_of k rows); [contradiction | cbn; lia].
  - eapply Forall2_sorted;
      [| exact HF | apply (sort_by_sorted by_avg_total_desc);
                    [exact by_avg_total_desc_total
                    | exact by_avg_total_desc_trans]].
    intros a b a' b' Ha Hb Hab. cbn beta in *.
    unfold lb_entry_of in Ha, Hb.
    apply bind_ok in Ha. destruct Ha as (na & _ & Ha).
    apply bind_ok in Hb. destruct Hb as (nb & _ & Hb).
    inversion Ha; subst; clear Ha. inversion Hb; subst; clear Hb.
    cbn [avg_total]. apply py_round2_mono.
    unfold by_avg_total_desc, float_leb in Hab.
    now apply Qle_bool_iff in Hab.
  - exact py_round2_nearest.
  - intros Hlen. eapply Forall2_impl_In_l; [|exact HF2].
    intros k e Hk He. apply Hkeys, group_keys_In in Hk.
    destruct Hk as (r & Hr & Ek).
    apply (entry_near_means_of_entry rows k e); auto.
    + exact (ok_scores _ Hreach).
    + intros E. assert (Hin : In r (rows_of k rows)).
      { apply filter_In. split; [exact Hr|]. now apply Z.eqb_eq. }
      rewrite E in Hin. exact Hin.
  - eapply Forall2_impl_In_l; [|exact HF2].
    intros k e Hk He. apply Hkeys, group_keys_In in Hk.
    destruct Hk as (r & Hr & Ek).
    apply (entry_averages_of_entry rows k e); [| |exact He].
    + exact (ok_scores _ Hreach).
    + intros E. assert (Hin : In r (rows_of k rows)).
      { apply filter_In. split; [exact Hr|]. now apply Z.eqb_eq. }
      rewrite E in Hin. exact Hin.
Qed.

(* ================================================================= *)
(** ** The order of the word rows *)

Lemma str_compare_antisym (a b : str) :
  str_compare b a = CompOpp (str_compare a b).
Proof.
  revert b. induction a as [|x a IH]; intros [|y b]; simpl; try reflexivity.
  rewrite (N.compare_antisym x y).
  destruct (N.compare x y); simpl; auto.
Qed.

Lemma str_leb_total (a b : str) : str_leb a b = true \/ str_leb b a = true.
Proof.
  unfold str_leb. rewrite (str_compare_antisym a b).
  destruct (str_compare a b); simpl; auto.
Qed.

Lemma str_leb_trans (a b c : str) :
  str_leb a b = true -> str_leb b c = true -> str_leb a c = true.
Proof.
  unfold str_leb. revert b c.
  induction a as [|x a IH]; intros [|y b] [|z c]; simpl; try congruence.
  destruct (N.compare_spec x y) as [->|Hxy|Hxy]; try discriminate.
  - destruct (N.compare_spec y z) as [->|Hyz|Hyz]; try discriminate; auto.
    apply IH.
  - destruct (N.compare_spec y z) as [->|Hyz|Hyz]; try discriminate.
    + intros _ _. apply N.compare_lt_iff in Hxy. now rewrite Hxy.
    + intros _ _. assert (H : (x < z)%N) by lia.
      apply N.compare_lt_iff in H. now rewrite H.
Qed.

Lemma word_row_leb_total (a b : word_row) :
  word_row_leb a b = true \/ word_row_leb b a = true.
Proof.
  unfold word_row_leb.
  destruct (Z.ltb_spec (wr_entrant_index a) (wr_entrant_index b)); auto.
  destruct (Z.ltb_spec (wr_entrant_index b) (wr_entrant_index a)); auto.
  destruct (Z.ltb_spec (wr_c b) (wr_c a)); auto.
  destruct (Z.ltb_spec (wr_c a) (wr_c b)); auto.
  apply str_leb_total.
Qed.

Lemma word_row_leb_trans (a b c : word_row) :
  word_row_leb a b = true -> word_row_leb b c = true ->
  word_row_leb a c = true.
Proof.
  unfold word_row_leb.
  destruct (Z.ltb_spec (wr_entrant_index a) (wr_entrant_index b));
  destruct (Z.ltb_spec (wr_entrant_index b) (wr_entrant_index a));
  destruct (Z.ltb_spec (wr_entrant_index b) (wr_entrant_index c));
  destruct (Z.ltb_spec (wr_entrant_index c) (wr_entrant_index b));
  destruct (Z.ltb_spec (wr_entrant_index a) (wr_entrant_index c));
  destruct (Z.ltb_spec (wr_entrant_index c) (wr_entrant_index a));
  try lia; try congruence; try reflexivity.
  destruct (Z.ltb_spec (wr_c b) (wr_c a));
  destruct (Z.ltb_spec (wr_c a) (wr_c b));
  destruct (Z.ltb_spec (wr_c c) (wr_c b));
  destruct (Z.ltb_spec (wr_c b) (wr_c c));
  destruct (Z.ltb_spec (wr_c c) (wr_c a));
  destruct (Z.ltb_spec (wr_c a) (wr_c c));
  try lia; try congruence; try reflexivity.
  apply str_leb_trans.
Qed.

(** Within one entrant the order of the rows is the order of the lists. *)
Lemma word_row_leb_same_entrant (a b : word_row) :
  wr_entrant_index a = wr_entrant_index b ->
  word_row_leb a b = true ->
  word_count_before {| word := wr_w a; count := wr_c a |}
                    {| word := wr_w b; count := wr_c b |}.
Proof.
  unfold word_row_leb, word_count_before. intros ->. cbn [word count].
  rewrite Z.ltb_irrefl.
  destruct (Z.ltb_spec (wr_c b) (wr_c a)); [auto|].
  destruct (Z.ltb_spec (wr_c a) (wr_c b)); [discriminate|].
  intros H'. right. split; [lia | exact H'].
Qed.

Lemma StronglySorted_filter {A} (P : A -> A -> Prop) (p : A -> bool)
    (l : list A) :
  StronglySorted P l -> StronglySorted P (filter p l).
Proof.
  induction 1 as [|x l Hl IH Hx]; simpl; [constructor|].
  destruct (p x); [|exact IH].
  constructor; [exact IH|].
  apply Forall_forall. intros y Hy. apply filter_In in Hy.
  rewrite Forall_forall in Hx. apply Hx, Hy.
Qed.

Lemma StronglySorted_map {A B} (f : A -> B) (P : A -> A -> Prop)
    (P' : B -> B -> Prop) (l : list A) :
  (forall a b, In a l -> In b l -> P a b -> P' (f a) (f b)) ->
  StronglySorted P l -> StronglySorted P' (map f l).
Proof.
  intros H Hs. induction Hs as [|x l Hl IH Hx]; simpl; [constructor|].
  constructor.
  - apply IH. intros; apply H; simpl; auto.
  - apply Forall_forall. intros y Hy. apply in_map_iff in Hy.
    destruct Hy as (b & <- & Hb).
    rewrite Forall_forall in Hx. apply H; simpl; auto.
Qed.

(* ================================================================= *)
(** ** The word counts *)

Lemma entrant_name_index (i : Z) :
  0 <= i < N_ENTRANTS -> list_index ENTRANTS i = Ok (entrant_name i).
Proof.
  intros Hi. destruct (list_index_in_range ENTRANTS i Hi) as (n & Hn & E).
  rewrite Hn. f_equal. unfold entrant_name.
  symmetry. now apply nth_error_nth.
Qed.

Lemma words_loop_fold (rows : list word_row)
    (out : list (str * list word_count)) :
  (forall w, In w rows -> 0 <= wr_entrant_index w < N_ENTRANTS) ->
  words_loop rows out = Ok (fold_left words_step rows out).
Proof.
  revert out. induction rows as [|w rows IH]; simpl; intros out H;
    [reflexivity|].
  rewrite entrant_name_index by (apply H; auto). simpl.
  apply IH. intros; apply H; auto.
Qed.

Lemma dict_get_setdefault {V} (out : list (str * list V)) (k k' : str)
    (x : V) :
  dict_get (setdefault_append out k x) k' =
    if str_eqb k k'
    then Some (match dict_get out k with
               | Some l => l ++ [x]
               | None => [x]
               end)
    else dict_get out k'.
Proof.
  induction out as [|[k0 l0] out IH]; simpl.
  - destruct (str_eqb k k'); reflexivity.
  - destruct (str_eqb k0 k) eqn:E0; simpl.
    + apply str_eqb_eq in E0. subst k0.
      destruct (str_eqb k k'); reflexivity.
    + destruct (str_eqb k0 k') eqn:E1.
      * destruct (str_eqb k k') eqn:E2; [|reflexivity].
        apply str_eqb_eq in E1, E2. subst.
        assert (str_eqb k' k' = true) by now apply str_eqb_eq.
        congruence.
      * exact IH.
Qed.

Lemma setdefault_keys {V} (out : list (str * list V)) (k : str) (x : V) :
  (In k (map fst out) /\
   map fst (setdefault_append out k x) = map fst out) \/
  (~ In k (map fst out) /\
   map fst (setdefault_append out k x) = map fst out ++ [k]).
Proof.
  induction out as [|[k0 l0] out IH]; simpl.
  - right. tauto.
  - destruct (str_eqb k0 k) eqn:E0; simpl.
    + apply str_eqb_eq in E0. left. auto.
    + assert (k0 <> k) by (intros ->;
        assert (str_eqb k k = true) by (now apply str_eqb_eq); congruence).
      destruct IH as [[Hin E]|[Hn E]]; rewrite E; [left|right]; tauto.
Qed.

Lemma setdefault_NoDup {V} (out : list (str * list V)) (k : str) (x : V) :
  NoDup (map fst out) -> NoDup (map fst (setdefault_append out k x)).
Proof.
  intros H. destruct (setdefault_keys out k x) as [[_ E]|[Hn E]];
    rewrite E; [exact H | now apply NoDup_snoc].
Qed.

Lemma setdefault_In {V} (out : list (str * list V)) (k k' : str) (x : V) :
  In k' (map fst (setdefault_append out k x)) <->
  k' = k \/ In k' (map fst out).
Proof.
  destruct (setdefault_keys out k x) as [[Hin E]|[Hn E]]; rewrite E.
  - split; [auto | intros [->|H]; auto].
  - rewrite in_app_iff. simpl. intuition.
Qed.

(** The dict the loop builds: under each name, in the order of the rows,
    the entries of the rows that carry it. *)
Lemma words_fold_get (rows : list word_row)
    (out : list (str * list word_count)) (n : str) :
  dict_get (fold_left words_step rows out) n =
    match dict_get out n,
          map entry_of_word_row
            (filter (fun w => str_eqb (entrant_name (wr_entrant_index w)) n)
               rows)
    with
    | Some l0, l => Some (l0 ++ l)
    | None, [] => None
    | None, l => Some l
    end.
Proof.
  revert out. induction rows as [|w rows IH]; intros out; simpl.
  - destruct (dict_get out n); [now rewrite app_nil_r | reflexivity].
  - rewrite IH. unfold words_step. rewrite dict_get_setdefault.
    destruct (str_eqb (entrant_name (wr_entrant_index w)) n) eqn:E; simpl.
    + apply str_eqb_eq in E. rewrite E.
      destruct (dict_get out n); [now rewrite <- app_assoc | reflexivity].
    + reflexivity.
Qed.

Lemma words_fold_NoDup (rows : list word_row)
    (out : list (str * list word_count)) :
  NoDup (map fst out) -> NoDup (map fst (fold_left words_step rows out)).
Proof.
  revert out. induction rows as [|w rows IH]; intros out H; simpl;
    [exact H|].
  apply IH. now apply setdefault_NoDup.
Qed.

Lemma words_fold_In (rows : list word_row)
    (out : list (str * list word_count)) (n : str) :
  In n (map fst (fold_left words_step rows out)) <->
  In n (map fst out) \/
  exists w, In w rows /\ entrant_name (wr_entrant_index w) = n.
Proof.
  revert out. induction rows as [|w rows IH]; intros out; simpl.
  - split; [auto | intros [H|(w & [] & _)]; exact H].
  - rewrite IH. unfold words_step. rewrite setdefault_In. split.
    + intros [[->|H]|(w' & Hw' & E)]; eauto.
    + intros [H|(w' & [<-|Hw'] & E)]; eauto.
Qed.

Lemma word_key_normal (r : row) :
  word_key r = option_map (pair (entrant_index r)) (normal_word r).
Proof.
  unfold word_key, normal_word.
  destruct (one_word r); [|reflexivity].
  destruct (sql_trim s); reflexivity.
Qed.

Lemma keys_In_words_of (rows : list row) (i : Z) (x : str) :
  In (i, x) (filter_map word_key rows) <-> In x (words_of i rows).
Proof.
  unfold words_of, rows_of. rewrite !filter_map_In. split.
  - intros (r & Hr & Hk). rewrite word_key_normal in Hk.
    destruct (normal_word r) as [y|] eqn:E; [|discriminate].
    inversion Hk; subst. exists r. split; [|exact E].
    apply filter_In. split; [exact Hr | apply Z.eqb_refl].
  - intros (r & Hr & Hn). apply filter_In in Hr. destruct Hr as [Hr Hi].
    apply Z.eqb_eq in Hi. exists r. split; [exact Hr|].
    rewrite word_key_normal, Hn, Hi. reflexivity.
Qed.

Lemma keys_count_words_of (rows : list row) (i : Z) (x : str) :
  count_occ key_eq_dec (filter_map word_key rows) (i, x) =
  count_occ (list_eq_dec N.eq_dec) (words_of i rows) x.
Proof.
  unfold words_of, rows_of.
  induction rows as [|r rows IH]; [reflexivity|].
  cbn [filter_map filter]. rewrite word_key_normal.
  destruct (Z.eqb_spec (entrant_index r) i) as [E|E].
  - cbn [filter_map]. destruct (normal_word r) as [y|]; cbn [option_map];
      [|exact IH].
    cbn [count_occ]. rewrite IH, E.
    destruct (key_eq_dec (i, y) (i, x)) as [H|H];
      destruct (list_eq_dec N.eq_dec y x) as [H'|H'];
      try reflexivity; [inversion H; contradiction | subst; contradiction].
  - destruct (normal_word r) as [y|]; cbn [option_map]; [|exact IH].
    cbn [count_occ].
    destruct (key_eq_dec (entrant_index r, y) (i, x)) as [H|H];
      [inversion H; contradiction | exact IH].
Qed.

Lemma select_words_keys_NoDup (rows : list row) :
  NoDup (map (fun w => (wr_entrant_index w, wr_w w)) (select_words rows)).
Proof.
  unfold select_words.
  eapply Permutation_NoDup.
  - symmetry. apply Permutation_map. apply sort_by_perm.
  - rewrite map_map. cbn [wr_entrant_index wr_w].
    erewrite map_ext; [rewrite map_id; apply NoDup_nodup|].
    intros [e x]. reflexivity.
Qed.

Lemma NoDup_words_of_entrant (i : Z) (l : list word_row) :
  NoDup (map (fun w => (wr_entrant_index w, wr_w w)) l) ->
  NoDup (map wr_w (filter (fun w => wr_entrant_index w =? i) l)).
Proof.
  induction l as [|w l IH]; simpl; intros H; [constructor|].
  inversion H as [|? ? Hn Hnd]; subst.
  destruct (Z.eqb_spec (wr_entrant_index w) i) as [E|E]; [|auto].
  simpl. constructor; [|auto].
  intros Hin. apply in_map_iff in Hin. destruct Hin as (w' & Hw & Hin).
  apply filter_In in Hin. destruct Hin as [Hin Hi].
  apply Z.eqb_eq in Hi. apply Hn. apply in_map_iff.
  exists w'. split; [congruence | exact Hin].
Qed.

Section WordsOfEntrant.

Variables (rows : list row) (i : Z).

Let Wi : list word_row :=
  filter (fun w => wr_entrant_index w =? i) (select_words rows).

Lemma entrant_words_In (w : word_row) :
  In w Wi <->
  wr_entrant_index w = i /\ In (wr_w w) (words_of i rows) /\
  wr_c w = Z.of_nat (count_occ (list_eq_dec N.eq_dec) (words_of i rows)
                       (wr_w w)).
Proof.
  unfold Wi. rewrite filter_In, select_words_In, Z.eqb_eq. split.
  - intros [[Hk Hc] E]. rewrite E in Hk, Hc.
    rewrite keys_In_words_of in Hk. rewrite keys_count_words_of in Hc. auto.
  - intros (E & Hk & Hc). rewrite E.
    rewrite keys_In_words_of, keys_count_words_of. auto.
Qed.

Lemma entrant_words_complete (x : str) :
  In x (words_of i rows) -> In x (map wr_w Wi).
Proof.
  intros Hx. apply in_map_iff.
  exists {| wr_entrant_index := i; wr_w := x;
            wr_c := Z.of_nat (count_occ (list_eq_dec N.eq_dec)
                                (words_of i rows) x) |}.
  split; [reflexivity|]. apply entrant_words_In. cbn. auto.
Qed.

Lemma entrant_words_sorted :
  StronglySorted word_count_before (map entry_of_word_row Wi).
Proof.
  apply StronglySorted_map with (P := fun a b => word_row_leb a b = true).
  - intros a b Ha Hb Hab.
    apply entrant_words_In in Ha, Hb.
    apply word_row_leb_same_entrant; [|exact Hab].
    destruct Ha as [-> _]. destruct Hb as [-> _]. reflexivity.
  - apply StronglySorted_filter.
    apply (sort_by_sorted word_row_leb);
      [exact word_row_leb_total | exact word_row_leb_trans].
Qed.

End WordsOfEntrant.

Lemma good_good_bad_reachable : reachable good_good_bad.
Proof.
  pose proof
    (reach_rate _
       (rate_body 0 (PInt 4) (PInt 4) (PInt 4) [] (of_string "Good"))
       (Some (of_string "dev-a")) (of_string "2025-02-09 18:00:01")
       reach_init) as H1.
  pose proof
    (reach_rate _
       (rate_body 0 (PInt 5) (PInt 4) (PInt 3) [] (of_string "good"))
       (Some (of_string "dev-b")) (of_string "2025-02-09 18:00:02") H1) as H2.
  pose proof
    (reach_rate _
       (rate_body 0 (PInt 2) (PInt 3) (PInt 3) [] (of_string "Bad"))
       (Some (of_string "dev-c")) (of_string "2025-02-09 18:00:03") H2) as H3.
  eapply reachable_eq; [exact H3|]. vm_compute. reflexivity.
Qed.

(** C6 (as the code has it): the word counts map each entrant that has at
    least one non-blank one_word to the list of its distinct words, where
    two values are the same word when they agree after the blanks at
    their ends are dropped and the letters A..Z are lower-cased; each
    word comes with the number of the entrant's rows that carry it, in
    the order count descending, then word ascending; an entrant without
    a word has no key.  Good, good and Bad give good with 2, then bad
    with 1. *)
Theorem word_counts_by_entrant :
  (forall db,
      reachable db ->
      exists out,
        api_words db = JsonWords out /\
        NoDup (map fst out) /\
        (forall n, In n (map fst out) ->
           exists i, 0 <= i < N_ENTRANTS /\ n = entrant_name i /\
                     words_of i (ratings db) <> []) /\
        forall i,
          0 <= i < N_ENTRANTS ->
          list_index ENTRANTS i = Ok (entrant_name i) /\
          (words_of i (ratings db) = [] ->
           dict_get out (entrant_name i) = None) /\
          (words_of i (ratings db) <> [] ->
           exists l,
             dict_get out (entrant_name i) = Some l /\
             l <> [] /\
             NoDup (map word l) /\
             (forall x, In x (map word l) <->
                        In x (words_of i (ratings db))) /\
             Forall (fun e =>
                       count e =
                       Z.of_nat (count_occ (list_eq_dec N.eq_dec)
                                   (words_of i (ratings db)) (word e))) l /\
             StronglySorted word_count_before l)) /\
  reachable good_good_bad /\
  api_words good_good_bad
  = JsonWords [ (of_string "Javier",
                 [ {| word := of_string "good"; count := 2 |};
                   {| word := of_string "bad"; count := 1 |} ]) ].
Proof.
  split; [|split; [exact good_good_bad_reachable | reflexivity]].
  intros db Hreach. apply reachable_table_ok in Hreach.
  set (rows := ratings db).
  set (W := select_words rows).
  assert (Hrange : forall w, In w W -> 0 <= wr_entrant_index w < N_ENTRANTS).
  { intros w Hw. destruct (select_words_entrant _ _ Hw) as (r & Hr & <-).
    pose proof (ok_entrant _ Hreach) as H. rewrite Forall_forall in H.
    auto. }
  exists (fold_left words_step W []).
  split.
  { unfold api_words, words_out. fold rows. fold W.
    now rewrite (words_loop_fold W [] Hrange). }
  split; [apply words_fold_NoDup; constructor|].
  assert (Hfilter : forall i, 0 <= i < N_ENTRANTS ->
            filter (fun w => str_eqb (entrant_name (wr_entrant_index w))
                               (entrant_name i)) W
            = filter (fun w => wr_entrant_index w =? i) W).
  { intros i Hi. apply filter_ext_in. intros w Hw.
    destruct (Z.eqb_spec (wr_entrant_index w) i) as [E|E].
    - rewrite E. now apply str_eqb_eq.
    - destruct (str_eqb _ _) eqn:Es; [|reflexivity].
      apply str_eqb_eq in Es. exfalso. apply E.
      apply (entrant_name_inj _ _ (entrant_name i));
        auto using entrant_name_index.
      rewrite <- Es. auto using entrant_name_index. }
  split.
  { intros n Hn. apply words_fold_In in Hn.
    destruct Hn as [[]|(w & Hw & <-)].
    exists (wr_entrant_index w). split; [auto|]. split; [reflexivity|].
    assert (Hin : In w (filter (fun w' => wr_entrant_index w' =?
                                          wr_entrant_index w) W))
      by (apply filter_In; split; [exact Hw | apply Z.eqb_refl]).
    apply entrant_words_In in Hin. destruct Hin as (_ & Hin & _).
    intros E. fold rows in E. rewrite E in Hin. exact Hin. }
  intros i Hi. split; [now apply entrant_name_index|].
  rewrite words_fold_get. cbn [dict_get]. rewrite (Hfilter i Hi).
  set (Wi := filter (fun w => wr_entrant_index w =? i) W).
  assert (Hwords : forall x, In x (map wr_w Wi) <-> In x (words_of i rows)).
  { intros x. split.
    - intros Hx. apply in_map_iff in Hx. destruct Hx as (w & <- & Hw).
      apply entrant_words_In in Hw. tauto.
    - apply entrant_words_complete. }
  split.
  - intros E. destruct Wi as [|w Wi'] eqn:EW; [reflexivity|exfalso].
    assert (Hx : In (wr_w w) (words_of i rows))
      by (apply Hwords; simpl; auto).
    rewrite E in Hx. exact Hx.
  - intros Hne.
    assert (HWi : Wi <> []).
    { intros E. destruct (words_of i rows) as [|x ws] eqn:Ew; [congruence|].
      assert (Hx : In x (map wr_w Wi)) by (apply Hwords; simpl; auto).
      rewrite E in Hx. exact Hx. }
    exists (map entry_of_word_row Wi).
    split; [destruct Wi; [congruence | reflexivity]|].
    split; [destruct Wi; [congruence | discriminate]|].
    assert (Hmap : map word (map entry_of_word_row Wi) = map wr_w Wi)
      by (rewrite map_map; reflexivity).
    rewrite Hmap.
    split; [apply NoDup_words_of_entrant, select_words_keys_NoDup|].
    split; [exact Hwords|].
    split; [|apply entrant_words_sorted].
    apply Forall_forall. intros e He. apply in_map_iff in He.
    destruct He as (w & <- & Hw). apply entrant_words_In in Hw.
    cbn [count word entry_of_word_row]. tauto.
Qed.

(* ================================================================= *)
(** ** What [api_rate] answers and writes *)

Lemma scores_checked (t p ea : Z) :
  existsb (fun v => (v <? 1) || (v >? 5)) [t; p; ea] = false <->
  score_ok t && score_ok p && score_ok ea = true.
Proof.
  unfold score_ok. cbn [existsb]. rewrite !Z.gtb_ltb.
  rewrite !orb_false_iff, !andb_true_iff, !Z.ltb_ge, !Z.leb_le.
  intuition lia.
Qed.

Lemma entrant_checked (e : Z) :
  (0 <=? e) && (e <? N_ENTRANTS) = true <-> 0 <= e < N_ENTRANTS.
Proof. rewrite andb_true_iff, Z.leb_le, Z.ltb_lt. tauto. Qed.

(** The statement fails in one way only once the scores are checked. *)
Lemma upsert_rating_raises (db : database) (e t p ea : Z)
    (j : option str) (d : str) (w : option str) (now : str) (x : exn) :
  score_ok t && score_ok p && score_ok ea = true ->
  upsert_rating db e t p ea j d w now = Raise x ->
  x = UnicodeEncodeError /\
  bindable j && utf8_encodable d && bindable w = false.
Proof.
  intros Hs. unfold upsert_rating. rewrite Hs. cbn [negb].
  destruct (bindable j && utf8_encodable d && bindable w); cbn [negb].
  - destruct (existsb (same_key e d) (ratings db)); discriminate.
  - intros H. inversion H. auto.
Qed.

Lemma upsert_rating_succeeds (db : database) (e t p ea : Z)
    (j : option str) (d : str) (w : option str) (now : str) :
  score_ok t && score_ok p && score_ok ea = true ->
  bindable j && utf8_encodable d && bindable w = true ->
  exists db', upsert_rating db e t p ea j d w now = Ok db'.
Proof.
  intros Hs Hb. unfold upsert_rating. rewrite Hs, Hb. cbn [negb].
  destruct (existsb (same_key e d) (ratings db)); eauto.
Qed.

(** X1: whatever [request.get_json(silent=True)] returns ([body]: None
    or the value parsed), the view then gives one of five answers:
    accepted, one of the three refusals with status 400, or the failure
    of the statement on a text that UTF-8 cannot encode (a lone surrogate
    in the judge, the one_word or the device cookie).  The CHECK
    constraints of the table never fire, and every answer but the first
    leaves the table and its counter as they were.  The call of get_json
    stands before the [try] of the view: a request on which that call
    itself raises is not among those the statement speaks of. *)
Theorem rating_answers_and_refusals
    (body : option pyval) (cookie : option str) (now : str) (db : database) :
  (fst (api_rate body cookie now db) = JsonOk \/
   fst (api_rate body cookie now db) = JsonError "Invalid payload" \/
   fst (api_rate body cookie now db) = JsonError "Invalid entrant" \/
   fst (api_rate body cookie now db) = JsonError "Scores must be 1 to 5" \/
   fst (api_rate body cookie now db)
     = InternalServerError UnicodeEncodeError) /\
  (fst (api_rate body cookie now db) <> JsonOk ->
   snd (api_rate body cookie now db) = db) /\
  (forall x, fst (api_rate body cookie now db) = InternalServerError x ->
     exists f,
       parse_rate (request_data body) = Ok f /\
       bindable (f_judge f)
       && utf8_encodable (device_id_from_request cookie)
       && bindable (f_one_word f) = false).
Proof.
  unfold api_rate.
  destruct (parse_rate (request_data body)) as [f|x0].
  2:{ cbn. split; [auto|]. split; [reflexivity|]. intros x H. discriminate H. }
  destruct ((0 <=? f_entrant_index f) && (f_entrant_index f <? N_ENTRANTS));
    cbn [negb].
  2:{ cbn. split; [auto|]. split; [reflexivity|]. intros x H. discriminate H. }
  destruct (existsb (fun v => (v <? 1) || (v >? 5))
              [f_taste f; f_presentation f; f_easy f]) eqn:Hs.
  { cbn. split; [auto 6|]. split; [reflexivity|]. intros x H. discriminate H. }
  apply scores_checked in Hs.
  destruct (upsert_rating db (f_entrant_index f) (f_taste f)
              (f_presentation f) (f_easy f) (f_judge f)
              (device_id_from_request cookie) (f_one_word f) now)
    as [db1|x1] eqn:Hu; cbn [fst snd].
  - split; [auto|]. split; [intros H; congruence|].
    intros x H. discriminate H.
  - destruct (upsert_rating_raises _ _ _ _ _ _ _ _ _ _ Hs Hu) as [-> Hb].
    split; [auto 6|]. split; [reflexivity|].
    intros x _. exists f. auto.
Qed.

(** X2: once the six fields of a payload convert, the entrant index is
    checked first and the scores next: an index outside [0, N_ENTRANTS)
    is answered "Invalid entrant" whatever the scores are; with the index
    in range, a taste, presentation or easy below 1 or above 5 is
    answered "Scores must be 1 to 5"; with all three in 1..5 and texts
    that UTF-8 can encode the rating is accepted.  The two refusals write
    nothing. *)
Theorem rating_checks_in_order
    (body : option pyval) (cookie : option str) (now : str) (db : database)
    (f : rate_fields) :
  parse_rate (request_data body) = Ok f ->
  (~ (0 <= f_entrant_index f < N_ENTRANTS) ->
   api_rate body cookie now db = (JsonError "Invalid entrant", db)) /\
  (0 <= f_entrant_index f < N_ENTRANTS ->
   ~ (1 <= f_taste f <= 5 /\ 1 <= f_presentation f <= 5 /\
      1 <= f_easy f <= 5) ->
   api_rate body cookie now db = (JsonError "Scores must be 1 to 5", db)) /\
  (0 <= f_entrant_index f < N_ENTRANTS ->
   1 <= f_taste f <= 5 -> 1 <= f_presentation f <= 5 ->
   1 <= f_easy f <= 5 ->
   bindable (f_judge f) && utf8_encodable (device_id_from_request cookie)
   && bindable (f_one_word f) = true ->
   fst (api_rate body cookie now db) = JsonOk).
Proof.
  intros Hp. unfold api_rate. rewrite Hp.
  destruct ((0 <=? f_entrant_index f) && (f_entrant_index f <? N_ENTRANTS))
    eqn:He; cbn [negb].
  - apply entrant_checked in He.
    split; [intros H; contradiction|].
    destruct (existsb (fun v => (v <? 1) || (v >? 5))
                [f_taste f; f_presentation f; f_easy f]) eqn:Hs.
    + split; [reflexivity|]. intros _ Ht Hpr Hea _. exfalso.
      assert (Hok : score_ok (f_taste f) && score_ok (f_presentation f)
                    && score_ok (f_easy f) = true).
      { unfold score_ok. rewrite !andb_true_iff, !Z.leb_le. lia. }
      apply scores_checked in Hok. congruence.
    + apply scores_checked in Hs. split.
      * intros _ Hn. exfalso. apply Hn.
        unfold score_ok in Hs. rewrite !andb_true_iff, !Z.leb_le in Hs. lia.
      * intros _ _ _ _ Hb.
        destruct (upsert_rating_succeeds db (f_entrant_index f) _ _ _ _ _ _
                    now Hs Hb) as [db' ->].
        reflexivity.
  - split; [reflexivity|].
    assert (Hn : ~ (0 <= f_entrant_index f < N_ENTRANTS)).
    { intros H. apply entrant_checked in H. congruence. }
    split; intros; contradiction.
Qed.

(* ================================================================= *)
(** ** The ids and the counter *)

Lemma max_rowid_le (rows : list row) (m : Z) :
  0 <= m -> Forall (fun r => id r <= m) rows -> max_rowid rows <= m.
Proof.
  intros Hm. induction 1 as [|r rows Hr _ IH]; simpl; lia.
Qed.

Lemma update_conflict_ids (e : Z) (d : str) (t p ea : Z) (j w : option str)
    (rows : list row) :
  map id (update_conflict e d (update_row t p ea j w) rows) = map id rows.
Proof.
  induction rows as [|r rows IH]; simpl; [reflexivity|].
  destruct (same_key e d r); simpl; [reflexivity | now rewrite IH].
Qed.

Lemma StronglySorted_snoc (l : list Z) (x : Z) :
  StronglySorted Z.lt l -> Forall (fun y => y < x) l ->
  StronglySorted Z.lt (l ++ [x]).
Proof.
  induction 1 as [|a l Hs IH Ha]; intros Hx; simpl.
  - repeat constructor.
  - inversion Hx; subst. constructor; [auto|].
    apply Forall_app. split; [exact Ha | constructor; [assumption|constructor]].
Qed.

(** What the statement does to the counter and to the ids. *)
Lemma upsert_rating_counter (db db' : database) (e t p ea : Z)
    (j : option str) (d : str) (w : option str) (now : str) :
  upsert_rating db e t p ea j d w now = Ok db' ->
  sqlite_sequence db' = Z.max (sqlite_sequence db) (max_rowid (ratings db)) + 1
  /\
  ((existsb (same_key e d) (ratings db) = true /\
    ratings db' = update_conflict e d (update_row t p ea j w) (ratings db)) \/
   (existsb (same_key e d) (ratings db) = false /\
    ratings db' = ratings db ++
      [ {| id := Z.max (sqlite_sequence db) (max_rowid (ratings db)) + 1;
           entrant_index := e; taste := t; presentation := p; easy := ea;
           judge := j; device_id := Some d; one_word := w;
           created_at := now |} ])).
Proof.
  unfold upsert_rating.
  destruct (negb (bindable j && utf8_encodable d && bindable w));
    [discriminate|].
  destruct (negb (score_ok t && score_ok p && score_ok ea)); [discriminate|].
  destruct (existsb (same_key e d) (ratings db)) eqn:E;
    intros H; inversion H; subst; cbn; auto.
Qed.

Lemma upsert_rating_ids_ok (db db' : database) (e t p ea : Z)
    (j : option str) (d : str) (w : option str) (now : str) :
  ids_ok db ->
  upsert_rating db e t p ea j d w now = Ok db' ->
  ids_ok db'.
Proof.
  intros [Hs Hb Hc] H.
  assert (Hm : max_rowid (ratings db) <= sqlite_sequence db).
  { apply max_rowid_le; [exact Hc|].
    eapply Forall_impl; [|exact Hb]. cbn. intros r Hr. lia. }
  destruct (upsert_rating_counter _ _ _ _ _ _ _ _ _ _ H)
    as (Hq & [[_ E]|[_ E]]).
  - split; rewrite ?E, ?Hq.
    + now rewrite update_conflict_ids.
    + apply update_conflict_Forall.
      * intros r Hr. cbn. lia.
      * eapply Forall_impl; [|exact Hb]. cbn. intros r Hr. lia.
    + lia.
  - split; rewrite ?E, ?Hq.
    + rewrite map_app. cbn [map id]. apply StronglySorted_snoc; [exact Hs|].
      apply Forall_map. eapply Forall_impl; [|exact Hb]. cbn. intros r Hr. lia.
    + apply Forall_app. split.
      * eapply Forall_impl; [|exact Hb]. cbn. intros r Hr. lia.
      * constructor; [cbn; lia | constructor].
    + lia.
Qed.

Lemma api_rate_cases (body : option pyval) (cookie : option str) (now : str)
    (db : database) :
  snd (api_rate body cookie now db) = db \/
  exists f,
    parse_rate (request_data body) = Ok f /\
    0 <= f_entrant_index f < N_ENTRANTS /\
    api_rate body cookie now db = (JsonOk, snd (api_rate body cookie now db)) /\
    upsert_rating db (f_entrant_index f) (f_taste f) (f_presentation f)
      (f_easy f) (f_judge f) (device_id_from_request cookie)
      (f_one_word f) now = Ok (snd (api_rate body cookie now db)).
Proof.
  destruct (api_rate body cookie now db) as [resp db'] eqn:E.
  destruct resp; try (left; pose proof (api_rate_refused body cookie now db)
                        as H; rewrite E in H; apply H; discriminate).
  right. destruct (api_rate_ok _ _ _ _ _ E) as (f & Hp & He & _ & _ & _ & Hu).
  exists f. auto.
Qed.

Lemma api_rate_ids_ok (body : option pyval) (cookie : option str) (now : str)
    (db : database) :
  ids_ok db -> ids_ok (snd (api_rate body cookie now db)).
Proof.
  intros Hok.
  destruct (api_rate_cases body cookie now db) as [->|(f & _ & _ & _ & Hu)];
    [exact Hok|].
  eapply upsert_rating_ids_ok; eauto.
Qed.

Lemma admin_reset_ids_ok (s : session) (db : database) :
  ids_ok db -> ids_ok (snd (admin_reset s db)).
Proof.
  intros Hok. unfold admin_reset. destruct (negb (is_admin s)); [exact Hok|].
  destruct Hok as [_ _ Hc]. split; cbn; [constructor | constructor | exact Hc].
Qed.

Lemma reachable_ids_ok (db : database) : reachable db -> ids_ok db.
Proof.
  induction 1 as [|db body cookie now _ IH|db s _ IH].
  - split; cbn; [constructor | constructor | lia].
  - now apply api_rate_ids_ok.
  - now apply admin_reset_ids_ok.
Qed.





(** X4: the first accepted rating of a device for an entrant adds one row
    at the end of the table and changes no other: the row has the
    submitted fields, the device id of the request, the time of the
    statement as created_at, and the id one above the counter, which is
    above the id of every row of the table. *)
Theorem first_vote_appends_row
    (body : option pyval) (cookie : option str) (now : str)
    (db db' : database) (f : rate_fields) :
  reachable db ->
  parse_rate (request_data body) = Ok f ->
  existsb (same_key (f_entrant_index f) (device_id_from_request cookie))
    (ratings db) = false ->
  api_rate body cookie now db = (JsonOk, db') ->
  ratings db' = ratings db ++
    [ {| id := sqlite_sequence db + 1;
         entrant_index := f_entrant_index f;
         taste := f_taste f; presentation := f_presentation f;
         easy := f_easy f; judge := f_judge f;
         device_id := Some (device_id_from_request cookie);
         one_word := f_one_word f; created_at := now |} ] /\
  sqlite_sequence db' = sqlite_sequence db + 1 /\
  Forall (fun r => id r < sqlite_sequence db + 1) (ratings db).
Proof.
  intros Hr Hp Hex H.
  destruct (api_rate_ok _ _ _ _ _ H) as (f' & Hp' & _ & _ & _ & _ & Hu).
  rewrite Hp in Hp'. inversion Hp'; subst f'; clear Hp'.
  destruct (reachable_ids_ok db Hr) as [_ Hb Hc].
  assert (Hm : Z.max (sqlite_sequence db) (max_rowid (ratings db))
               = sqlite_sequence db).
  { apply Z.max_l. apply max_rowid_le; [exact Hc|].
    eapply Forall_impl; [|exact Hb]. cbn. intros r Hr'. lia. }
  destruct (upsert_rating_counter _ _ _ _ _ _ _ _ _ _ Hu)
    as (Hq & [[Hex' _]|[_ E]]); [congruence|].
  rewrite Hm in Hq, E. split; [exact E|]. split; [exact Hq|].
  eapply Forall_impl; [|exact Hb]. cbn. intros r Hr'. lia.
Qed.

(* ================================================================= *)
(** ** The texts [api_rate] stores *)

Lemma take_while_forallb {A} (p : A -> bool) (l : list A) :
  forallb p (take_while p l) = true.
Proof.
  induction l as [|x l IH]; simpl; [reflexivity|].
  destruct (p x) eqn:E; simpl; [now rewrite E|reflexivity].
Qed.

Lemma forallb_firstn {A} (p : A -> bool) (n : nat) (l : list A) :
  forallb p l = true -> forallb p (firstn n l) = true.
Proof.
  revert l. induction n as [|n IH]; intros [|x l]; simpl; try reflexivity.
  rewrite !andb_true_iff. intros [Hx Hl]. auto.
Qed.

Lemma take_while_all {A} (p : A -> bool) (l : list A) :
  forallb p l = true -> take_while p l = l.
Proof.
  induction l as [|x l IH]; simpl; [reflexivity|].
  rewrite andb_true_iff. intros [-> Hl]. now rewrite IH.
Qed.

Lemma lstrip_no_space (s : str) : no_space s = true -> lstrip s = s.
Proof.
  destruct s as [|c t]; simpl; [reflexivity|].
  rewrite andb_true_iff, negb_true_iff. now intros [-> _].
Qed.

Lemma no_space_rev (s : str) : no_space (rev s) = no_space s.
Proof.
  unfold no_space. destruct (forallb _ s) eqn:E.
  - rewrite forallb_forall in *. intros c Hc. apply E. now apply in_rev.
  - destruct (forallb _ (rev s)) eqn:E'; [|reflexivity].
    rewrite <- E. symmetry. rewrite forallb_forall in *.
    intros c Hc. apply E'. now apply in_rev in Hc.
Qed.

Lemma strip_no_space (s : str) : no_space s = true -> strip s = s.
Proof.
  intros H. unfold strip, rstrip. rewrite (lstrip_no_space s H).
  rewrite lstrip_no_space by now rewrite no_space_rev.
  apply rev_involutive.
Qed.

(** The token [sanitize_one_word] keeps. *)
Lemma normalized_one_word_shape (s w : str) :
  normalized_one_word s = Some w ->
  w <> [] /\ (length w <= 20)%nat /\ no_space w = true.
Proof.
  unfold normalized_one_word.
  destruct (strip_head s) as [E|(c & t & E & Hc)]; rewrite E; [discriminate|].
  intros H. inversion H; subst; clear H. cbn [take_while].
  rewrite Hc. cbn [negb firstn]. split; [discriminate|].
  split.
  - change (length (firstn 20 (c :: take_while (fun c0 => negb (isspace c0)) t))
            <= 20)%nat.
    apply firstn_le_length.
  - change (no_space
              (firstn 20 (c :: take_while (fun c0 => negb (isspace c0)) t))
            = true).
    apply forallb_firstn. cbn [forallb]. rewrite Hc. cbn [negb andb].
    apply take_while_forallb.
Qed.

Lemma normalized_one_word_fixed (w : str) :
  w <> [] -> (length w <= 20)%nat -> no_space w = true ->
  normalized_one_word w = Some w.
Proof.
  intros Hne Hlen Hns. unfold normalized_one_word.
  rewrite (strip_no_space w Hns).
  destruct w as [|c t]; [congruence|].
  rewrite (take_while_all _ (c :: t) Hns).
  now rewrite firstn_all2.
Qed.

Lemma sanitize_one_word_non_text (v : pyval) :
  (forall s, v <> PStr s) ->
  sanitize_one_word v = if truthy v then Raise AttributeError else Ok None.
Proof.
  intros Hv. unfold sanitize_one_word, py_or.
  destruct v as [|b|z|f|s|l|d]; try reflexivity.
  - destruct b; reflexivity.
  - cbn [truthy]. destruct (z =? 0); reflexivity.
  - destruct f; reflexivity.
  - exfalso. now apply (Hv s).
  - destruct l; reflexivity.
  - destruct d; reflexivity.
Qed.

(** X5: the one_word [sanitize_one_word] keeps is in normal form, and the
    function leaves a text in normal form as it is: whenever it returns a
    word, the argument was a string, the word has between 1 and 20
    characters, none of them whitespace, and sanitizing the word again
    returns the same word. *)
Theorem one_word_normal_form (v : pyval) (w : str) :
  sanitize_one_word v = Ok (Some w) ->
  (exists s, v = PStr s) /\
  w <> [] /\ (length w <= 20)%nat /\ no_space w = true /\
  sanitize_one_word (PStr w) = Ok (Some w).
Proof.
  intros H.
  assert (Hs : exists s, v = PStr s).
  { destruct v as [|b|z|f|s|l|d]; eauto; exfalso;
      rewrite sanitize_one_word_non_text in H by discriminate;
      destruct (truthy _); discriminate. }
  destruct Hs as [s ->]. split; [eauto|].
  rewrite sanitize_one_word_str in H.
  assert (Hn : normalized_one_word s = Some w) by congruence.
  destruct (normalized_one_word_shape s w Hn) as (Hne & Hlen & Hns).
  repeat split; try assumption.
  rewrite sanitize_one_word_str. f_equal.
  now apply normalized_one_word_fixed.
Qed.

Lemma py_strip_or_empty (v : pyval) (stripped : str) :
  py_strip (py_or v (PStr [])) = Ok stripped ->
  (truthy v = false /\ stripped = []) \/
  (exists s, v = PStr s /\ stripped = strip s).
Proof.
  unfold py_or. destruct (truthy v) eqn:T.
  - destruct v; try discriminate. intros H. inversion H. eauto.
  - intros H. inversion H. left. auto.
Qed.

Lemma judge_shape (stripped : str) :
  (exists s, stripped = strip s) ->
  bindable (nonempty (firstn 50 stripped)) = true ->
  judge_ok (nonempty (firstn 50 stripped)) = true.
Proof.
  intros [s ->].
  destruct (strip_head s) as [E|(c & t & E & Hc)]; rewrite E;
    [reflexivity|].
  cbn [firstn nonempty bindable judge_ok]. intros ->.
  rewrite Hc. cbn [negb andb]. rewrite andb_true_r.
  apply Nat.leb_le.
  change (length (firstn 50 (c :: t)) <= 50)%nat. apply firstn_le_length.
Qed.

Lemma one_word_shape (v : pyval) (w : option str) :
  sanitize_one_word v = Ok w -> bindable w = true -> one_word_ok w = true.
Proof.
  destruct w as [w|]; [|reflexivity].
  intros H Hb.
  destruct (one_word_normal_form v w H) as (_ & Hne & Hlen & Hns & _).
  destruct w as [|c t]; [congruence|].
  unfold one_word_ok. rewrite Hns. cbn [bindable] in Hb. rewrite Hb.
  cbn [andb]. rewrite andb_true_r. now apply Nat.leb_le.
Qed.

Lemma parse_rate_shapes (data : pyval) (f : rate_fields) :
  parse_rate data = Ok f ->
  bindable (f_judge f) = true -> bindable (f_one_word f) = true ->
  judge_ok (f_judge f) = true /\ one_word_ok (f_one_word f) = true.
Proof.
  intros H Hj Hw.
  destruct (parse_rate_ok data f H)
    as (d & st & _ & _ & _ & _ & _ & Hst & Ej & Ew).
  split; [|eapply one_word_shape; eauto].
  rewrite Ej in *. apply judge_shape; [|exact Hj].
  destruct (py_strip_or_empty _ _ Hst) as [[_ ->]|(s & _ & ->)];
    [exists []; reflexivity | eauto].
Qed.

Lemma device_id_shape (cookie : option str) :
  utf8_encodable (device_id_from_request cookie) = true ->
  device_ok (Some (device_id_from_request cookie)) = true.
Proof.
  destruct cookie as [[|c t]|]; cbn; auto.
Qed.

Lemma upsert_rating_rows_ok (db db' : database) (e t p ea : Z)
    (j : option str) (d : str) (w : option str) (now : str) :
  judge_ok j = true -> one_word_ok w = true -> device_ok (Some d) = true ->
  Forall (fun r => row_ok r = true) (ratings db) ->
  upsert_rating db e t p ea j d w now = Ok db' ->
  Forall (fun r => row_ok r = true) (ratings db').
Proof.
  intros Hj Hw Hd Hok H.
  destruct (upsert_rating_ok _ _ _ _ _ _ _ _ _ _ H)
    as (Hs & _ & [[_ ->]|[_ [rowid ->]]]).
  - apply update_conflict_Forall; [|exact Hok].
    intros r Hr. unfold row_ok in *. cbn.
    rewrite !andb_true_iff in *. tauto.
  - apply Forall_app. split; [exact Hok|].
    constructor; [|constructor]. unfold row_ok. cbn [taste presentation easy
      judge device_id one_word]. now rewrite Hs, Hj, Hw, Hd.
Qed.

Lemma api_rate_rows_ok (body : option pyval) (cookie : option str)
    (now : str) (db : database) :
  Forall (fun r => row_ok r = true) (ratings db) ->
  Forall (fun r => row_ok r = true)
    (ratings (snd (api_rate body cookie now db))).
Proof.
  intros Hok.
  destruct (api_rate_cases body cookie now db) as [->|(f & Hp & _ & _ & Hu)];
    [exact Hok|].
  destruct (upsert_rating_ok _ _ _ _ _ _ _ _ _ _ Hu) as (_ & Hb & _).
  rewrite !andb_true_iff in Hb. destruct Hb as [[Hbj Hbd] Hbw].
  destruct (parse_rate_shapes _ _ Hp Hbj Hbw) as [Hj Hw].
  eapply upsert_rating_rows_ok; eauto using device_id_shape.
Qed.

Lemma reachable_rows_ok (db : database) :
  reachable db -> Forall (fun r => row_ok r = true) (ratings db).
Proof.
  induction 1 as [|db body cookie now _ IH|db s _ IH].
  - constructor.
  - now apply api_rate_rows_ok.
  - unfold admin_reset. destruct (negb (is_admin s)); [exact IH|constructor].
Qed.

(** X6: every row of every table the views can produce is well formed,
    beyond what the schema asks: the three scores are in 1..5; the
    device_id is a text that is not empty, never NULL; the judge is NULL
    or a text of 1 to 50 characters that does not begin with whitespace;
    the one_word is NULL or a text of 1 to 20 characters without any
    whitespace; none of the texts holds a lone surrogate; and no two rows
    have the same entrant_index and device_id. *)
Theorem stored_rows_well_formed (db : database) :
  reachable db ->
  Forall (fun r => row_ok r = true) (ratings db) /\
  NoDup (map key_of (ratings db)).
Proof.
  intros H. split; [now apply reachable_rows_ok|].
  apply (ok_keys db). now apply reachable_table_ok.
Qed.

(** X7: the judge [api_rate] stores for a string is the string with
    the whitespace at its two ends removed, cut to its first 50
    characters, and NULL when nothing is left: after an accepted request
    whose judge is the string [s], the one row of the device for the
    entrant has [strip s] cut to 50 characters as its judge. *)
Theorem judge_stored_trimmed_and_cut
    (d : list (str * pyval)) (s : str) (cookie : option str) (now : str)
    (db db' : database) (e : Z) :
  reachable db ->
  dict_get d (of_string "judge") = Some (PStr s) ->
  py_int (get_or_none d (of_string "entrant_index")) = Ok e ->
  api_rate (Some (PDict d)) cookie now db = (JsonOk, db') ->
  exists r,
    filter (same_key e (device_id_from_request cookie)) (ratings db') = [r] /\
    judge r = nonempty (firstn 50 (strip s)) /\
    judge_ok (judge r) = true.
Proof.
  intros Hreach Hj He H.
  apply reachable_table_ok in Hreach.
  destruct (api_rate_ok _ _ _ _ _ H) as (f & Hf & _ & _ & _ & _ & Hu).
  rewrite request_data_dict in Hf.
  destruct (parse_rate_ok _ _ Hf)
    as (d' & st & Hd & He' & _ & _ & _ & Hst & Ej & _).
  inversion Hd; subst d'; clear Hd.
  rewrite He in He'. inversion He'; subst e; clear He'.
  destruct (upsert_rating_row _ _ _ _ _ _ _ _ _ _ (ok_keys _ Hreach) Hu)
    as (r & Hfr & _ & _ & _ & Hj' & _).
  destruct (upsert_rating_ok _ _ _ _ _ _ _ _ _ _ Hu) as (_ & Hb & _).
  rewrite !andb_true_iff in Hb. destruct Hb as [[Hbj _] _].
  unfold get_or_none in Hst. rewrite Hj in Hst.
  assert (Est : st = strip s).
  { unfold py_or in Hst. destruct (truthy (PStr s)) eqn:T.
    - cbn in Hst. congruence.
    - destruct s; [inversion Hst; reflexivity | discriminate T]. }
  subst st. exists r. split; [exact Hfr|].
  rewrite Hj', Ej. split; [reflexivity|].
  rewrite Ej in Hbj. apply judge_shape; [eauto | exact Hbj].
Qed.

(** X8: a judge or one_word that is not a string is taken as absent when
    it is falsy (null, false, 0, 0.0, an empty list or object) and makes
    the payload invalid when it is truthy: [sanitize_one_word] returns
    None on the one and raises on the other, and [api_rate] refuses the
    request without writing. *)
Theorem non_text_judge_or_one_word
    (body : option pyval) (cookie : option str) (now : str) (db : database)
    (d : list (str * pyval)) (k : str) (v : pyval) :
  request_data body = PDict d ->
  In k [of_string "judge"; of_string "one_word"] ->
  dict_get d k = Some v ->
  (forall s, v <> PStr s) ->
  sanitize_one_word v = (if truthy v then Raise AttributeError else Ok None)
  /\
  (truthy v = true ->
   api_rate body cookie now db = (JsonError "Invalid payload", db)) /\
  (truthy v = false ->
   forall f, parse_rate (request_data body) = Ok f ->
     (k = of_string "judge" -> f_judge f = None) /\
     (k = of_string "one_word" -> f_one_word f = None)).
Proof.
  intros Hd Hk Hv Hn.
  split; [now apply sanitize_one_word_non_text|].
  assert (Hg : get_or_none d k = v) by (unfold get_or_none; now rewrite Hv).
  split.
  - intros T. unfold api_rate. rewrite Hd.
    destruct (parse_rate (PDict d)) as [f|] eqn:Hp; [exfalso|reflexivity].
    destruct (parse_rate_ok _ _ Hp)
      as (d' & st & Ed & _ & _ & _ & _ & Hst & _ & Hw).
    inversion Ed; subst d'; clear Ed.
    destruct Hk as [<-|[<-|[]]]; rewrite Hg in *.
    + unfold py_or in Hst. rewrite T in Hst.
      destruct v; try discriminate. now apply (Hn s).
    + rewrite sanitize_one_word_non_text in Hw by exact Hn.
      rewrite T in Hw. discriminate.
  - intros T f Hp. rewrite Hd in Hp.
    destruct (parse_rate_ok _ _ Hp)
      as (d' & st & Ed & _ & _ & _ & _ & Hst & Ej & Hw).
    inversion Ed; subst d'; clear Ed.
    split; intros ->; rewrite Hg in *.
    + unfold py_or in Hst. rewrite T in Hst. inversion Hst; subst st.
      exact Ej.
    + rewrite sanitize_one_word_non_text in Hw by exact Hn.
      rewrite T in Hw. now inversion Hw.
Qed.

(* ================================================================= *)
(** ** A rating and its look-up *)

Lemma find_update_conflict_same (e : Z) (d : str) (f : row -> row)
    (rows : list row) :
  (forall r, key_of (f r) = key_of r) ->
  find (same_key e d) (update_conflict e d f rows)
  = option_map f (find (same_key e d) rows).
Proof.
  intros Hf. induction rows as [|r rows IH]; simpl; [reflexivity|].
  destruct (same_key e d r) eqn:E; simpl.
  - now rewrite (same_key_f e d f Hf r), E.
  - now rewrite E.
Qed.

Lemma find_update_conflict_other (e e' : Z) (d d' : str) (f : row -> row)
    (rows : list row) :
  (forall r, key_of (f r) = key_of r) ->
  (e', d') <> (e, d) ->
  find (same_key e' d') (update_conflict e d f rows)
  = find (same_key e' d') rows.
Proof.
  intros Hf Hne. induction rows as [|r rows IH]; simpl; [reflexivity|].
  destruct (same_key e d r) eqn:E; simpl.
  - assert (Hr : same_key e' d' r = false).
    { destruct (same_key e' d' r) eqn:E'; [|reflexivity].
      apply same_key_iff in E, E'. exfalso. apply Hne. congruence. }
    rewrite Hr. rewrite <- (same_key_f e' d' f Hf r) in Hr. now rewrite Hr.
  - now rewrite IH.
Qed.

Lemma find_snoc {A} (p : A -> bool) (l : list A) (x : A) :
  find p (l ++ [x]) =
    match find p l with
    | Some y => Some y
    | None => if p x then Some x else None
    end.
Proof.
  induction l as [|a l IH]; simpl; [reflexivity|].
  destruct (p a); [reflexivity | exact IH].
Qed.

Lemma find_none_of_existsb {A} (p : A -> bool) (l : list A) :
  existsb p l = false -> find p l = None.
Proof.
  induction l as [|a l IH]; simpl; [reflexivity|].
  destruct (p a); simpl; [discriminate | exact IH].
Qed.

Lemma find_some_of_existsb {A} (p : A -> bool) (l : list A) :
  existsb p l = true -> exists x, find p l = Some x.
Proof.
  induction l as [|a l IH]; simpl; [discriminate|].
  destruct (p a); simpl; eauto.
Qed.

(** The row the statement leaves under its key, and the rows it leaves
    under the other keys. *)
Lemma upsert_rating_find (db db' : database) (e t p ea : Z)
    (j : option str) (d : str) (w : option str) (now : str) :
  upsert_rating db e t p ea j d w now = Ok db' ->
  (exists r,
     find (same_key e d) (ratings db') = Some r /\
     taste r = t /\ presentation r = p /\ easy r = ea /\
     judge r = j /\ one_word r = w) /\
  (forall e' d', (e', d') <> (e, d) ->
     find (same_key e' d') (ratings db')
     = find (same_key e' d') (ratings db)).
Proof.
  intros H.
  destruct (upsert_rating_ok _ _ _ _ _ _ _ _ _ _ H)
    as (_ & _ & [[Hex ->]|[Hex [rowid ->]]]).
  - split.
    + rewrite find_update_conflict_same by apply update_row_key.
      destruct (find_some_of_existsb _ _ Hex) as [r0 ->].
      eexists. split; [reflexivity|]. cbn. auto.
    + intros e' d' Hne.
      now apply find_update_conflict_other; [apply update_row_key|].
  - split.
    + rewrite find_snoc, (find_none_of_existsb _ _ Hex).
      assert (Hk : same_key e d
                {| id := rowid; entrant_index := e; taste := t;
                   presentation := p; easy := ea; judge := j;
                   device_id := Some d; one_word := w; created_at := now |}
              = true) by (apply same_key_iff; reflexivity).
      rewrite Hk. eexists. split; [reflexivity|]. cbn. auto.
    + intros e' d' Hne. rewrite find_snoc.
      destruct (find (same_key e' d') (ratings db)); [reflexivity|].
      destruct (same_key e' d' _) eqn:Hk; [|reflexivity].
      apply same_key_iff in Hk. cbn in Hk. exfalso. apply Hne.
      inversion Hk. reflexivity.
Qed.

(** X9: a rating that was accepted is what its device reads back: after
    an accepted [api_rate], [api_my_rating] for the same entrant with the
    same device cookie returns the taste, presentation, easy, judge and
    one_word just stored; and the answer to a look-up for any other
    entrant or device is what it was before the rating. *)
Theorem accepted_rating_is_read_back
    (body : option pyval) (cookie : option str) (now : str)
    (db db' : database) (f : rate_fields) (arg : option str) :
  parse_rate (request_data body) = Ok f ->
  api_rate body cookie now db = (JsonOk, db') ->
  int_of_str (arg_or arg (of_string "-1")) = Ok (f_entrant_index f) ->
  api_my_rating arg cookie db'
  = JsonRating (Some {| mr_taste := f_taste f;
                        mr_presentation := f_presentation f;
                        mr_easy := f_easy f;
                        mr_judge := f_judge f;
                        mr_one_word := f_one_word f |}) /\
  (forall arg' cookie',
     (forall e', int_of_str (arg_or arg' (of_string "-1")) = Ok e' ->
        (e', device_id_from_request cookie')
        <> (f_entrant_index f, device_id_from_request cookie)) ->
     api_my_rating arg' cookie' db' = api_my_rating arg' cookie' db).
Proof.
  intros Hp H Harg.
  destruct (api_rate_ok _ _ _ _ _ H) as (f' & Hp' & He & _ & _ & _ & Hu).
  rewrite Hp in Hp'. inversion Hp'; subst f'; clear Hp'.
  destruct (upsert_rating_ok _ _ _ _ _ _ _ _ _ _ Hu) as (_ & Hb & _).
  rewrite !andb_true_iff in Hb. destruct Hb as [[_ Hbd] _].
  destruct (upsert_rating_find _ _ _ _ _ _ _ _ _ _ Hu)
    as [(r & Hf & Ht & Hpr & Hea & Hj & Hw) Hother].
  split.
  - unfold api_my_rating. rewrite Harg.
    apply entrant_checked in He. rewrite He. cbn [negb].
    rewrite Hbd. cbn [negb]. rewrite Hf. cbn [option_map].
    now rewrite Ht, Hpr, Hea, Hj, Hw.
  - intros arg' cookie' Hne. unfold api_my_rating.
    destruct (int_of_str (arg_or arg' (of_string "-1"))) as [e'|];
      [|reflexivity].
    destruct (negb ((0 <=? e') && (e' <? N_ENTRANTS))); [reflexivity|].
    destruct (negb (utf8_encodable (device_id_from_request cookie')));
      [reflexivity|].
    now rewrite (Hother e' (device_id_from_request cookie') (Hne e' eq_refl)).
Qed.

(* ================================================================= *)
(** ** Payloads without the fields, and the same rating twice *)

Lemma parse_rate_entrant_raises (d : list (str * pyval)) (e : exn) :
  py_int (get_or_none d (of_string "entrant_index")) = Raise e ->
  parse_rate (PDict d) = Raise e.
Proof.
  intros H. unfold parse_rate. cbn [py_get bind]. rewrite H. reflexivity.
Qed.

Lemma parse_rate_not_dict (v : pyval) :
  (forall d, v <> PDict d) -> parse_rate v = Raise AttributeError.
Proof.
  intros H. destruct v; try reflexivity. exfalso. now apply (H d).
Qed.

(** X10: when [request.get_json(silent=True)] returns None, a value that
    is not an object (a list, a number, a string), or an object in which
    entrant_index, taste, presentation or easy is missing or null, the
    request is answered "Invalid payload" and writes nothing.  The
    statement is about the value the call returns, [body]; a request on
    which the call itself raises, before the [try] of the view, is not
    among those it speaks of. *)
Theorem payload_without_fields_is_invalid
    (body : option pyval) (cookie : option str) (now : str) (db : database) :
  body = None \/
  (exists v, body = Some v /\ forall d, v <> PDict d) \/
  (exists d k,
     body = Some (PDict d) /\
     In k [of_string "entrant_index"; of_string "taste";
           of_string "presentation"; of_string "easy"] /\
     (dict_get d k = None \/ dict_get d k = Some PNone)) ->
  api_rate body cookie now db = (JsonError "Invalid payload", db).
Proof.
  intros H. unfold api_rate.
  assert (Hraise : exists e, parse_rate (request_data body) = Raise e).
  { destruct H as [->|[(v & -> & Hv)|(d & k & -> & Hk & Hd)]].
    - exists TypeError. reflexivity.
    - unfold request_data, py_or. destruct (truthy v).
      + exists AttributeError. now apply parse_rate_not_dict.
      + exists TypeError. reflexivity.
    - rewrite request_data_dict.
      assert (Hn : py_int (get_or_none d k) = Raise TypeError).
      { unfold get_or_none. destruct Hd as [-> | ->]; reflexivity. }
      destruct Hk as [<-|Hk].
      + exists TypeError. now apply parse_rate_entrant_raises.
      + eapply parse_rate_score_raises; eauto. }
  destruct Hraise as [e ->]. reflexivity.
Qed.

Lemma update_conflict_fixed (e : Z) (d : str) (f : row -> row)
    (rows : list row) (r : row) :
  find (same_key e d) rows = Some r -> f r = r ->
  update_conflict e d f rows = rows.
Proof.
  intros Hf Hr. induction rows as [|a rows IH]; cbn [update_conflict];
    [reflexivity|].
  cbn [find] in Hf. destruct (same_key e d a).
  - inversion Hf; subst a. now rewrite Hr.
  - now rewrite (IH Hf).
Qed.

Lemma existsb_of_find {A} (p : A -> bool) (l : list A) (x : A) :
  find p l = Some x -> existsb p l = true.
Proof.
  induction l as [|a l IH]; cbn [find existsb]; [discriminate|].
  destruct (p a); [reflexivity | exact IH].
Qed.

Lemma update_row_same (r : row) :
  update_row (taste r) (presentation r) (easy r) (judge r) (one_word r) r = r.
Proof. destruct r. reflexivity. Qed.

(** X11: a rating sent again changes no row.  When a request was
    accepted, the same request from the same device is accepted again
    and leaves every row of the table as the first left it, created_at
    included, whatever the time; only the AUTOINCREMENT counter moves
    on. *)
Theorem same_rating_again_changes_no_row
    (body : option pyval) (cookie : option str) (now1 now2 : str)
    (db db1 : database) :
  api_rate body cookie now1 db = (JsonOk, db1) ->
  exists db2,
    api_rate body cookie now2 db1 = (JsonOk, db2) /\
    ratings db2 = ratings db1 /\
    sqlite_sequence db1 < sqlite_sequence db2.
Proof.
  intros H.
  destruct (api_rate_ok _ _ _ _ _ H) as (f & Hp & He & Ht & Hpr & Hea & Hu).
  destruct (upsert_rating_ok _ _ _ _ _ _ _ _ _ _ Hu) as (Hs & Hb & _).
  destruct (upsert_rating_find _ _ _ _ _ _ _ _ _ _ Hu)
    as [(r & Hf & Et & Epr & Eea & Ej & Ew) _].
  destruct (upsert_rating_succeeds db1 (f_entrant_index f) _ _ _ _ _ _
              now2 Hs Hb) as [db2 Hu2].
  exists db2. split.
  - unfold api_rate. rewrite Hp.
    rewrite (proj2 (entrant_checked _) He). cbn [negb].
    rewrite (proj2 (scores_checked _ _ _) Hs). now rewrite Hu2.
  - destruct (upsert_rating_counter _ _ _ _ _ _ _ _ _ _ Hu2)
      as (Hq & [[_ E]|[Hex _]]).
    + split; [|lia]. rewrite E.
      apply (update_conflict_fixed _ _ _ _ r Hf).
      rewrite <- Et, <- Epr, <- Eea, <- Ej, <- Ew. apply update_row_same.
    + rewrite (existsb_of_find _ _ _ Hf) in Hex. discriminate Hex.
Qed.

(* ================================================================= *)
(** ** Integers as decimal text *)

Lemma scan_digits_digit (acc : Z) (n : N) (c : char) (v : Z) (t : str) :
  digit_value c = Some v ->
  scan_digits false acc n (c :: t) = scan_digits false (10 * acc + v) (n + 1) t.
Proof. intros H. cbn [scan_digits]. now rewrite H. Qed.

Lemma scan_digits_uint (d : Decimal.uint) :
  forall (acc : Z) (n : N),
    scan_digits false acc n (of_string (NilEmpty.string_of_uint d))
    = Some (uint_value acc d,
            (n + N.of_nat (length (of_string (NilEmpty.string_of_uint d))))%N,
            []).
Proof.
  induction d; intros acc n; cbn [NilEmpty.string_of_uint uint_value].
  { cbn. now rewrite N.add_0_r. }
  all: rewrite of_string_cons;
    erewrite scan_digits_digit by reflexivity;
    rewrite IHd; cbn [length];
    rewrite Nat2N.inj_succ, <- N.add_1_l, N.add_assoc;
    rewrite ?Z.add_0_r; reflexivity.
Qed.

Lemma digit_value_some (c : char) (v : Z) :
  digit_value c = Some v -> (48 <= c <= 57)%N.
Proof.
  unfold digit_value.
  destruct ((48 <=? c) && (c <=? 57))%N eqn:E; [|discriminate].
  apply andb_true_iff in E. rewrite !N.leb_le in E. tauto.
Qed.

Lemma digit_cases (c : char) :
  (48 <= c <= 57)%N ->
  c = 48%N \/ c = 49%N \/ c = 50%N \/ c = 51%N \/ c = 52%N \/
  c = 53%N \/ c = 54%N \/ c = 55%N \/ c = 56%N \/ c = 57%N.
Proof. lia. Qed.

(** The parser on a text that is an optional minus sign and digits. *)
Lemma long_from_string_digits (c : char) (t : str) (v : Z) (n : N) :
  (48 <= c <= 57)%N ->
  scan_digits false 0 0 (c :: t) = Some (v, n, []) ->
  n <> 0%N -> exceeds_digit_limit n = false ->
  long_from_string (c :: t) = Ok v /\
  long_from_string (45%N :: c :: t) = Ok (- v).
Proof.
  intros Hc Hs Hn Hl.
  assert (Hz : (n =? 0)%N = false) by now apply N.eqb_neq.
  destruct (digit_cases c Hc) as [->|[->|[->|[->|[->|[->|[->|[->|[->| ->]]]]]]]]];
    (split; unfold long_from_string;
     cbn [skip_c_spaces c_isspace N.leb N.eqb N.compare Pos.compare
          Pos.compare_cont Pos.eqb andb orb];
     rewrite Hs, Hz, Hl; reflexivity).
Qed.

Lemma ascii_text (s : str) :
  Forall int_char s -> forallb (fun c => (c <? 128)%N) s = true.
Proof.
  intros H. apply forallb_forall. intros c Hc.
  rewrite Forall_forall in H. specialize (H c Hc).
  apply N.ltb_lt. unfold int_char in H. lia.
Qed.

Lemma long_from_string_pos (p : positive) :
  exceeds_digit_limit (digits_of (Z.pos p)) = false ->
  long_from_string (str_of_int (Z.pos p)) = Ok (Z.pos p) /\
  long_from_string (str_of_int (Z.neg p)) = Ok (Z.neg p).
Proof.
  unfold digits_of, str_of_int. cbn [Z.abs Z.to_int NilZero.string_of_int].
  rewrite nilzero_to_uint. intros Hl.
  destruct (uint_text_head _ (to_uint_not_nil p)) as (c & t & E & Hc).
  pose proof (scan_digits_uint (Pos.to_uint p) 0 0) as Hs.
  rewrite uint_value_0, DecimalPos.Unsigned.of_to in Hs. cbn [Z.of_N] in Hs.
  rewrite N.add_0_l in Hs.
  rewrite of_string_cons.
  change (N_of_ascii "-") with 45%N.
  rewrite E in *.
  apply (long_from_string_digits c t (Z.pos p) _ Hc Hs); [|exact Hl].
  cbn [length]. lia.
Qed.

(** X12: [int] reads back what [str] writes: for every integer whose
    number of digits the interpreter's limit admits (any integer of at
    most 640 digits, whatever the limit; [str] does not raise on these
    either), [int(str(z))] is [z].  The ids and scores of the export,
    and an entrant index written in decimal, are such texts. *)
Theorem int_reads_back_str (z : Z) :
  exceeds_digit_limit (digits_of z) = false ->
  int_of_str (str_of_int z) = Ok z.
Proof.
  intros Hl. unfold int_of_str.
  rewrite (ascii_text _ (str_of_int_chars z)).
  destruct z as [|p|p].
  - reflexivity.
  - now apply long_from_string_pos.
  - now apply long_from_string_pos.
Qed.

(* ================================================================= *)
(** ** Counting *)

Lemma sum_list_app (l l' : list Z) :
  sum_list (l ++ l') = sum_list l + sum_list l'.
Proof.
  unfold sum_list. induction l as [|x l IH]; cbn [app fold_right]; lia.
Qed.

Lemma sum_list_perm (l l' : list Z) :
  Permutation l l' -> sum_list l = sum_list l'.
Proof.
  unfold sum_list.
  induction 1; cbn [fold_right]; lia.
Qed.

Lemma sum_list_map_add {A} (f g : A -> Z) (l : list A) :
  sum_list (map (fun k => f k + g k) l)
  = sum_list (map f l) + sum_list (map g l).
Proof.
  unfold sum_list. induction l as [|x l IH]; cbn [map fold_right]; lia.
Qed.

Section CountOcc.

Context {A : Type} (dec : forall a b : A, {a = b} + {a <> b}).

Lemma sum_indicator (x : A) (ks : list A) :
  NoDup ks ->
  sum_list (map (fun k => if dec x k then 1 else 0) ks)
  = if in_dec dec x ks then 1 else 0.
Proof.
  unfold sum_list.
  induction 1 as [|k ks Hk Hnd IH]; cbn [map fold_right]; [reflexivity|].
  rewrite IH.
  destruct (dec x k) as [E|E].
  - subst k. destruct (in_dec dec x ks) as [Hin|_]; [contradiction|].
    destruct (in_dec dec x (x :: ks)) as [_|Hn]; [reflexivity|].
    exfalso. apply Hn. now left.
  - destruct (in_dec dec x ks) as [Hin|Hn];
      destruct (in_dec dec x (k :: ks)) as [Hin'|Hn']; try reflexivity.
    + exfalso. apply Hn'. now right.
    + exfalso. destruct Hin' as [E'|Hin']; [congruence | contradiction].
Qed.

(** The occurrences of the distinct values add up to the length. *)
Lemma sum_count_occ (ks ws : list A) :
  NoDup ks -> (forall x, In x ws -> In x ks) ->
  sum_list (map (fun k => Z.of_nat (count_occ dec ws k)) ks)
  = Z.of_nat (length ws).
Proof.
  intros Hnd. induction ws as [|w ws IH]; intros Hin.
  - cbn [count_occ length]. unfold sum_list. clear Hnd Hin.
    induction ks as [|k ks IHk]; cbn [map fold_right]; [reflexivity|].
    now rewrite IHk.
  - assert (E : forall k,
              Z.of_nat (count_occ dec (w :: ws) k)
              = (if dec w k then 1 else 0) + Z.of_nat (count_occ dec ws k)).
    { intros k. cbn [count_occ]. destruct (dec w k); lia. }
    rewrite (map_ext _ _ E), sum_list_map_add, (sum_indicator w ks Hnd).
    rewrite IH by (intros x Hx; apply Hin; now right).
    destruct (in_dec dec w ks) as [_|Hn].
    + cbn [length]. lia.
    + exfalso. apply Hn, Hin. now left.
Qed.

End CountOcc.

Lemma rows_of_count (k : Z) (rows : list row) :
  length (rows_of k rows) = count_occ Z.eq_dec (map entrant_index rows) k.
Proof.
  unfold rows_of. induction rows as [|r rows IH]; cbn [filter map count_occ];
    [reflexivity|].
  destruct (Z.eq_dec (entrant_index r) k) as [E|E].
  - rewrite (proj2 (Z.eqb_eq _ _) E). cbn [length]. now rewrite IH.
  - rewrite (proj2 (Z.eqb_neq _ _) E). exact IH.
Qed.

(* ================================================================= *)
(** ** The leaderboard, further *)

Lemma Forall2_map_eq {A B C} (f : A -> C) (g : B -> C) (l : list A)
    (l' : list B) :
  Forall2 (fun a b => f a = g b) l l' -> map f l = map g l'.
Proof.
  induction 1 as [|a b l l' Hab _ IH]; cbn [map]; [reflexivity|].
  now rewrite Hab, IH.
Qed.

Lemma lb_entry_of_votes (g : lb_row) (e : lb_entry) :
  lb_entry_of g = Ok e ->
  votes e = lb_votes g /\ avg_total e = py_round2 (lb_avg_total g) /\
  list_index ENTRANTS (lb_entrant_index g) = Ok (name e).
Proof.
  unfold lb_entry_of. intros H. apply bind_ok in H.
  destruct H as (n & Hn & H). inversion H; subst; clear H. cbn. auto.
Qed.

Lemma select_leaderboard_votes (rows : list row) :
  sum_list (map lb_votes (select_leaderboard rows))
  = Z.of_nat (length rows).
Proof.
  unfold select_leaderboard.
  rewrite (sum_list_perm _ _
             (Permutation_map lb_votes (sort_by_perm by_avg_total_desc _))).
  rewrite map_map. cbn [aggregate lb_votes].
  erewrite map_ext by (intros k; rewrite rows_of_count; reflexivity).
  rewrite (sum_count_occ Z.eq_dec).
  - now rewrite length_map.
  - apply group_keys_NoDup.
  - intros x Hx. apply in_map_iff in Hx. destruct Hx as (r & <- & Hr).
    apply group_keys_In. eauto.
Qed.

(** X13: the votes of the leaderboard add up to the number of rows of
    the table: every rating is counted, and counted for one entrant. *)
Theorem leaderboard_votes_add_up (db : database) :
  reachable db ->
  exists out,
    api_leaderboard db = JsonLeaderboard out /\
    sum_list (map votes out) = Z.of_nat (length (ratings db)).
Proof.
  intros Hreach. apply reachable_table_ok in Hreach.
  destruct (leaderboard_out_ok db Hreach) as [out Hout].
  exists out. split; [unfold api_leaderboard; now rewrite Hout|].
  pose proof (mapM_Forall2 _ _ _ Hout) as HF.
  rewrite <- select_leaderboard_votes. f_equal. symmetry.
  apply Forall2_map_eq. eapply Forall2_impl; [|exact HF].
  intros g e He. cbn beta. now destruct (lb_entry_of_votes g e He) as [-> _].
Qed.

Lemma mean_bounds (l : list Z) (lo hi : Z) :
  l <> [] -> Forall (fun x => lo <= x <= hi) l ->
  (inject_Z lo <= mean l <= inject_Z hi)%Q.
Proof.
  intros Hne Hall.
  assert (Hl0 : (0 < length l)%nat) by (destruct l; [congruence | cbn; lia]).
  pose proof (sum_list_bounds l lo hi Hall) as Hsum.
  unfold mean, Qle, inject_Z. cbn [Qnum Qden].
  rewrite (Zpos_of_nat _ Hl0). lia.
Qed.

(** A rounded average of values between [lo] and [hi] is between them. *)
Lemma rounded_avg_range (l : list Z) (lo hi : Z) :
  l <> [] -> 1 <= lo -> hi <= 15 ->
  Forall (fun x => lo <= x <= hi) l ->
  Z.of_nat (length l) < 2 ^ 48 ->
  (inject_Z lo <= py_round2 (sql_avg l) <= inject_Z hi)%Q.
Proof.
  intros Hne Hlo Hhi Hall Hlen.
  assert (Hall' : Forall (fun x => 1 <= x <= 15) l).
  { eapply Forall_impl; [|exact Hall]. cbn. intros x Hx. lia. }
  pose proof (rounded_avg_close l Hne Hall' Hlen) as Hc.
  pose proof (mean_bounds l lo hi Hne Hall) as Hmu.
  destruct (py_round2_nearest (sql_avg l)) as (k & Ek & _ & _).
  rewrite Ek in *.
  apply Qabs_Qle_condition in Hc.
  assert (Hs : ((1 # 2 ^ 48) < 1 # 200)%Q) by reflexivity.
  set (c := (1 # 2 ^ 48)%Q) in *.
  set (mu := mean l) in *.
  assert (H1 : (inject_Z lo - (1 # 100) < k # 100)%Q) by lra.
  assert (H2 : (k # 100 < inject_Z hi + (1 # 100))%Q) by lra.
  unfold Qlt, Qle, Qminus, Qplus, Qopp, inject_Z in *.
  cbn [Qnum Qden] in *. lia.
Qed.

(** X14: the averages the leaderboard shows are in the range of the
    scores: in a table of fewer than 2^48 rows every avg_taste,
    avg_presentation and avg_easy is between 1.00 and 5.00 and every
    avg_total between 3.00 and 15.00, the rounding and the floating-point
    division notwithstanding. *)
Theorem leaderboard_averages_in_range (db : database) :
  reachable db ->
  Z.of_nat (length (ratings db)) < 2 ^ 48 ->
  exists out,
    api_leaderboard db = JsonLeaderboard out /\
    Forall averages_in_range out.
Proof.
  intros Hreach Hlen. apply reachable_table_ok in Hreach.
  destruct (leaderboard_out_ok db Hreach) as [out Hout].
  exists out. split; [unfold api_leaderboard; now rewrite Hout|].
  pose proof (mapM_Forall2 _ _ _ Hout) as HF.
  apply Forall_forall. intros e He.
  destruct (Forall2_In_r _ _ _ _ HF He) as (g & Hg & Hge).
  apply select_leaderboard_In in Hg. destruct Hg as (k & Hk & ->).
  apply lb_entry_of_aggregate in Hge.
  destruct Hge as (_ & _ & Et & Ep & Ee & Eo).
  unfold averages_in_range. rewrite Et, Ep, Ee, Eo. clear Et Ep Ee Eo.
  apply group_keys_In in Hk. destruct Hk as (r & Hr & Ek).
  set (rows := ratings db) in *.
  assert (Hne : rows_of k rows <> []).
  { intros E. assert (Hin : In r (rows_of k rows)).
    { apply filter_In. split; [exact Hr|]. now apply Z.eqb_eq. }
    rewrite E in Hin. exact Hin. }
  pose proof (ok_scores _ Hreach) as Hok. fold rows in Hok.
  assert (Hcol : forall (f : row -> Z) lo hi,
            1 <= lo -> hi <= 15 ->
            (forall r0, score_ok (taste r0) && score_ok (presentation r0)
                        && score_ok (easy r0) = true -> lo <= f r0 <= hi) ->
            (inject_Z lo <= py_round2 (sql_avg (map f (rows_of k rows)))
             <= inject_Z hi)%Q).
  { intros f lo hi Hlo Hhi Hf. apply rounded_avg_range; try assumption.
    - destruct (rows_of k rows); [congruence | discriminate].
    - apply Forall_forall. intros x Hx. apply in_map_iff in Hx.
      destruct Hx as (r0 & <- & Hr0). apply filter_In in Hr0.
      rewrite Forall_forall in Hok. apply Hf, Hok, Hr0.
    - rewrite length_map. unfold rows_of.
      pose proof (filter_length_le (fun r0 => entrant_index r0 =? k) rows).
      lia. }
  repeat split;
    first [ apply (Hcol taste 1 5) | apply (Hcol presentation 1 5)
          | apply (Hcol easy 1 5) | apply (Hcol total 3 15) ];
    try lia;
    intros r0 Hr0;
    apply andb_true_iff in Hr0; destruct Hr0 as [Hr0 Hea];
    apply andb_true_iff in Hr0; destruct Hr0 as [Hta Hpr];
    apply score_ok_range in Hta, Hpr, Hea; unfold total; lia.
Qed.

(* ================================================================= *)
(** ** The admin page *)

Lemma mapM_summary (S : list lb_row) (out : list lb_entry) :
  mapM lb_entry_of S = Ok out ->
  mapM lb_summary_of S = Ok (map summary_of_entry out).
Proof.
  revert out. induction S as [|g S IH]; cbn [mapM]; intros out H.
  - inversion H. reflexivity.
  - apply bind_ok in H. destruct H as (e & He & H).
    apply bind_ok in H. destruct H as (es & Hes & H).
    inversion H; subst; clear H.
    rewrite (IH es Hes). unfold lb_entry_of in He. unfold lb_summary_of.
    apply bind_ok in He. destruct He as (n & Hn & He).
    inversion He; subst; clear He. rewrite Hn. reflexivity.
Qed.

Lemma detail_leb_total (a b : row) :
  detail_leb a b = true \/ detail_leb b a = true.
Proof.
  unfold detail_leb.
  destruct (Z.ltb_spec (entrant_index a) (entrant_index b)); [now left|].
  destruct (Z.ltb_spec (entrant_index b) (entrant_index a)); [now right|].
  apply str_leb_total.
Qed.

Lemma detail_leb_trans (a b c : row) :
  detail_leb a b = true -> detail_leb b c = true -> detail_leb a c = true.
Proof.
  unfold detail_leb.
  destruct (Z.ltb_spec (entrant_index a) (entrant_index b));
    destruct (Z.ltb_spec (entrant_index b) (entrant_index a));
    destruct (Z.ltb_spec (entrant_index b) (entrant_index c));
    destruct (Z.ltb_spec (entrant_index c) (entrant_index b));
    destruct (Z.ltb_spec (entrant_index a) (entrant_index c));
    destruct (Z.ltb_spec (entrant_index c) (entrant_index a));
    try reflexivity; try discriminate; try lia.
  apply str_leb_trans.
Qed.

Lemma detail_leb_order (a b : row) :
  detail_leb a b = true -> detail_order a b.
Proof.
  unfold detail_leb, detail_order.
  destruct (Z.ltb_spec (entrant_index a) (entrant_index b)); [now left|].
  destruct (Z.ltb_spec (entrant_index b) (entrant_index a)); [discriminate|].
  intros Hs. right. split; [lia | exact Hs].
Qed.

Lemma str_compare_eq (a b : str) : str_compare a b = Eq -> a = b.
Proof.
  revert b. induction a as [|x a IH]; intros [|y b]; cbn [str_compare];
    try discriminate; [reflexivity|].
  destruct (N.compare_spec x y) as [->|_|_]; try discriminate.
  intros H. now rewrite (IH b H).
Qed.

Lemma str_leb_antisym (a b : str) :
  str_leb a b = true -> str_leb b a = true -> a = b.
Proof.
  unfold str_leb. rewrite (str_compare_antisym a b).
  destruct (str_compare a b) eqn:E; cbn [CompOpp]; try discriminate.
  intros _ _. now apply str_compare_eq.
Qed.

Lemma str_leb_refl (a : str) : str_leb a a = true.
Proof. destruct (str_leb_total a a) as [H|H]; exact H. Qed.

Lemma device_leb_total (a b : option str) :
  device_leb a b = true \/ device_leb b a = true.
Proof.
  destruct a as [x|], b as [y|]; cbn [device_leb]; auto.
  apply str_leb_total.
Qed.

Lemma device_leb_trans (a b c : option str) :
  device_leb a b = true -> device_leb b c = true -> device_leb a c = true.
Proof.
  destruct a as [x|], b as [y|], c as [z|]; cbn [device_leb];
    try reflexivity; try discriminate.
  apply str_leb_trans.
Qed.

Lemma unique_index_leb_total (a b : row) :
  unique_index_leb a b = true \/ unique_index_leb b a = true.
Proof.
  unfold unique_index_leb.
  destruct (Z.ltb_spec (entrant_index a) (entrant_index b)); [now left|].
  destruct (Z.ltb_spec (entrant_index b) (entrant_index a)); [now right|].
  apply device_leb_total.
Qed.

Lemma unique_index_leb_trans (a b c : row) :
  unique_index_leb a b = true -> unique_index_leb b c = true ->
  unique_index_leb a c = true.
Proof.
  unfold unique_index_leb.
  destruct (Z.ltb_spec (entrant_index a) (entrant_index b));
    destruct (Z.ltb_spec (entrant_index b) (entrant_index a));
    destruct (Z.ltb_spec (entrant_index b) (entrant_index c));
    destruct (Z.ltb_spec (entrant_index c) (entrant_index b));
    destruct (Z.ltb_spec (entrant_index a) (entrant_index c));
    destruct (Z.ltb_spec (entrant_index c) (entrant_index a));
    try reflexivity; try discriminate; try lia.
  apply device_leb_trans.
Qed.

Section StableSort.

Context {A : Type} (first second : A -> A -> bool).
Hypothesis second_total :
  forall a b, second a b = true \/ second b a = true.
Hypothesis second_trans :
  forall a b c, second a b = true -> second b c = true -> second a c = true.

(** Sorting on [second] a list that is in the order [first] leaves the
    elements that [second] does not tell apart in the order [first]. *)
Lemma insert_sorted_stable (x : A) (l : list A) :
  StronglySorted
    (fun a b => second a b = true /\
                (second b a = true -> first a b = true)) l ->
  Forall (fun z => first x z = true) l ->
  StronglySorted
    (fun a b => second a b = true /\
                (second b a = true -> first a b = true))
    (insert_sorted second x l).
Proof.
  induction 1 as [|y t Ht IH Hy]; intros Hx; cbn [insert_sorted].
  - repeat constructor.
  - inversion Hx as [|? ? Hxy Hxt]; subst.
    destruct (second x y) eqn:E.
    + constructor; [constructor; assumption|].
      constructor; [split; [exact E | intros _; exact Hxy]|].
      apply Forall_forall. intros z Hz.
      rewrite Forall_forall in Hy, Hxt.
      destruct (Hy z Hz) as [Hyz _].
      split; [eapply second_trans; eauto | intros _; now apply Hxt].
    + constructor; [now apply IH|].
      apply Forall_forall. intros z Hz.
      apply (Permutation_in _ (insert_sorted_perm second x t)) in Hz.
      destruct Hz as [<-|Hz].
      * split.
        -- destruct (second_total x y) as [H|H]; [|exact H].
           rewrite E in H. discriminate H.
        -- intros H. rewrite E in H. discriminate H.
      * rewrite Forall_forall in Hy. now apply Hy.
Qed.

Lemma sort_by_stable (l : list A) :
  StronglySorted (fun a b => first a b = true) l ->
  StronglySorted
    (fun a b => second a b = true /\
                (second b a = true -> first a b = true))
    (sort_by second l).
Proof.
  induction 1 as [|x t Ht IH Hx]; cbn [sort_by]; [constructor|].
  apply insert_sorted_stable; [exact IH|].
  apply Forall_forall. intros z Hz.
  apply (proj1 (sort_by_In second t z)) in Hz.
  rewrite Forall_forall in Hx. now apply Hx.
Qed.

End StableSort.

Lemma select_detailed_tie_order (rows : list row) :
  StronglySorted detail_tie_order (select_detailed rows).
Proof.
  rewrite <- (map_id (select_detailed rows)).
  apply StronglySorted_map
    with (P := fun a b => detail_leb a b = true /\
                          (detail_leb b a = true ->
                           unique_index_leb a b = true)).
  - intros a b _ _ [Hab Hba]. split; [now apply detail_leb_order|].
    intros He Hc. 
    assert (Hback : detail_leb b a = true).
    { unfold detail_leb. rewrite He, Z.ltb_irrefl, Hc. apply str_leb_refl. }
    specialize (Hba Hback). unfold unique_index_leb in Hba.
    rewrite He, Z.ltb_irrefl in Hba. exact Hba.
  - apply (sort_by_stable unique_index_leb detail_leb);
      [exact detail_leb_total | exact detail_leb_trans|].
    apply (sort_by_sorted unique_index_leb);
      [exact unique_index_leb_total | exact unique_index_leb_trans].
Qed.

Lemma select_detailed_perm (rows : list row) :
  Permutation (select_detailed rows) rows.
Proof.
  unfold select_detailed, unique_index_scan.
  etransitivity; apply sort_by_perm.
Qed.

Lemma detail_of_shows (r : row) (d : detail) :
  detail_of r = Ok d -> detail_shows r d.
Proof.
  unfold detail_of. intros H. apply bind_ok in H.
  destruct H as (n & Hn & H). inversion H; subst; clear H.
  unfold detail_shows. cbn. repeat split; auto.
Qed.

(** X15: for a session with the admin flag, the admin page over any table
    the views can produce shows every row of the table once, in the order
    entrant_index ascending then created_at ascending (rows equal in
    both by device_id ascending, the order of the UNIQUE index the
    statement reads them through), each with the entrant's name, its
    columns (NULL texts as empty texts) and the total taste +
    presentation + easy, which is between 3 and 15; and the leaderboard
    of the page is the public leaderboard, entry by entry, reduced to
    name, votes and avg_total. *)
Theorem admin_page_lists_every_row
    (password reset : option str) (db : database) :
  reachable db ->
  exists detailed out,
    api_leaderboard db = JsonLeaderboard out /\
    fst (admin GET password reset {| is_admin := true |} db)
    = Html (admin_results detailed (map summary_of_entry out)
              (match reset with
               | Some v => str_eqb v (of_string "1")
               | None => false
               end)) /\
    Forall2 detail_shows (select_detailed (ratings db)) detailed /\
    Permutation (select_detailed (ratings db)) (ratings db) /\
    StronglySorted detail_tie_order (select_detailed (ratings db)) /\
    Forall (fun d => 3 <= d_total d <= 15) detailed.
Proof.
  intros Hreach. apply reachable_table_ok in Hreach.
  destruct (leaderboard_out_ok db Hreach) as [out Hout].
  destruct (admin_page_ok db Hreach reset) as (detailed & lb & Hpage).
  exists detailed, out.
  split; [unfold api_leaderboard; now rewrite Hout|].
  unfold admin_page in Hpage.
  apply bind_ok in Hpage. destruct Hpage as (dl & Hdl & Hpage).
  apply bind_ok in Hpage. destruct Hpage as (ll & Hll & Hpage).
  unfold leaderboard_out in Hout.
  rewrite (mapM_summary _ _ Hout) in Hll.
  inversion Hll; subst ll; clear Hll.
  inversion Hpage; subst; clear Hpage.
  pose proof (mapM_Forall2 _ _ _ Hdl) as HF.
  assert (HF' : Forall2 detail_shows (select_detailed (ratings db)) detailed).
  { eapply Forall2_impl; [|exact HF]. intros r d. apply detail_of_shows. }
  split.
  { cbn [admin is_admin negb fst]. unfold admin_page.
    rewrite Hdl. cbn [bind]. rewrite (mapM_summary _ _ Hout). reflexivity. }
  split; [exact HF'|].
  split; [apply select_detailed_perm|].
  split; [apply select_detailed_tie_order|].
  - apply Forall_forall. intros d Hd.
    destruct (Forall2_In_r _ _ _ _ HF' Hd) as (r & Hr & Hs).
    apply (Permutation_in _ (select_detailed_perm (ratings db))) in Hr.
    pose proof (ok_scores _ Hreach) as Hok. rewrite Forall_forall in Hok.
    specialize (Hok r Hr).
    apply andb_true_iff in Hok. destruct Hok as [Hok Hea].
    apply andb_true_iff in Hok. destruct Hok as [Hta Hpr].
    apply score_ok_range in Hta, Hpr, Hea.
    destruct Hs as (_ & _ & _ & _ & _ & -> & _). lia.
Qed.

(* ================================================================= *)
(** ** The export, further *)

Lemma In_join (c : char) (sep : str) (parts : list str) :
  In c (join sep parts) -> In c sep \/ exists p, In p parts /\ In c p.
Proof.
  induction parts as [|p rest IH]; cbn [join]; [contradiction|].
  destruct rest as [|p' rest'].
  - intros H. right. exists p. split; [now left | exact H].
  - rewrite !in_app_iff. intros [H|[H|H]].
    + right. exists p. split; [now left | exact H].
    + now left.
    + destruct (IH H) as [Hs|(p0 & Hp0 & Hc)]; [now left|].
      right. exists p0. split; [now right | exact Hc].
Qed.

Lemma In_replace_char (c old : char) (new s : str) :
  In c (replace_char old new s) -> In c new \/ In c s.
Proof.
  unfold replace_char. rewrite in_flat_map. intros (a & Ha & Hc).
  destruct (a =? old)%N; [now left|].
  destruct Hc as [<-|[]]. now right.
Qed.

Lemma In_q (c : char) (s : str) : In c (q s) -> c = dquote \/ In c s.
Proof.
  unfold q. rewrite !in_app_iff. intros [H|[H|H]].
  - destruct H as [<-|[]]. now left.
  - apply In_replace_char in H. destruct H as [H|H]; [|now right].
    destruct H as [H|[H|[]]]; left; symmetry; exact H.
  - destruct H as [<-|[]]. now left.
Qed.

Lemma existsb_not_In (c : char) (l : str) :
  existsb (N.eqb c) l = false -> ~ In c l.
Proof.
  intros H Hin.
  assert (H' : existsb (N.eqb c) l = true).
  { apply existsb_exists. exists c. split; [exact Hin | apply N.eqb_refl]. }
  rewrite H in H'. discriminate H'.
Qed.

Lemma list_index_In {A} (l : list A) (i : Z) (x : A) :
  list_index l i = Ok x -> In x l.
Proof.
  unfold list_index.
  destruct (_ && _); [|discriminate].
  destruct (nth_error l _) as [y|] eqn:E; [|discriminate].
  intros H. inversion H; subst. eapply nth_error_In; eauto.
Qed.

Lemma entrant_names_one_line (n : str) :
  In n ENTRANTS -> ~ In line_feed n.
Proof.
  intros Hn.
  assert (H : forallb (fun m => negb (existsb (N.eqb line_feed) m)) ENTRANTS
              = true) by reflexivity.
  rewrite forallb_forall in H. specialize (H n Hn).
  apply negb_true_iff in H. now apply existsb_not_In.
Qed.

Lemma str_of_int_one_line (z : Z) : ~ In line_feed (str_of_int z).
Proof.
  intros H. pose proof (str_of_int_chars z) as Hc.
  rewrite Forall_forall in Hc. specialize (Hc _ H).
  unfold int_char, line_feed in Hc. lia.
Qed.

Lemma Forall2_pick {A B} (R : A -> B -> Prop) (l : list A) (l' : list B)
    (y : B) :
  Forall2 R l l' -> In y l' -> exists x, In x l /\ R x y.
Proof.
  induction 1 as [|a b l l' Hab _ IH]; cbn [In]; [intros []|].
  intros [<-|Hy]; [exists a; split; [now left | exact Hab]|].
  destruct (IH Hy) as (x & Hx & Hr).
  exists x. split; [now right | exact Hr].
Qed.

Lemma csv_line_feed (r : row) (line : str) :
  csv_line r = Ok line ->
  (exists body, line = body ++ line_end) /\
  (In line_feed line -> exists t, In t (row_texts r) /\ In line_feed t).
Proof.
  unfold csv_line. intros H. apply bind_ok in H.
  destruct H as (n & Hn & H). inversion H; subst; clear H.
  split; [eauto|].
  rewrite in_app_iff. intros [Hc|Hc].
  2:{ exfalso. revert Hc. now apply existsb_not_In. }
  apply (In_join line_feed (of_string ",") (csv_fields n r)) in Hc.
  destruct Hc as [Hc|(p & Hp & Hc)].
  { exfalso. revert Hc. now apply existsb_not_In. }
  unfold csv_fields in Hp. cbn [In] in Hp.
  assert (Hq : forall s, In line_feed (q s) -> In line_feed s).
  { intros s Hs. apply In_q in Hs. destruct Hs as [Hs|Hs]; [discriminate|].
    exact Hs. }
  unfold row_texts. cbn [In].
  destruct Hp as [<-|[<-|[<-|[<-|[<-|[<-|[<-|[<-|[<-|[]]]]]]]]]];
    try (exfalso; now apply (str_of_int_one_line _ Hc)).
  - exfalso. apply Hq in Hc.
    now apply (entrant_names_one_line n (list_index_In _ _ _ Hn)).
  - apply Hq in Hc. eauto.
  - apply Hq in Hc. eauto 6.
  - apply Hq in Hc. eauto 7.
  - eauto 8.
Qed.

(** X16: the export of any table the views can produce is the header and
    one line for every row of the table, none left out and none twice, in
    ascending order of created_at. *)
Theorem export_lists_rows_in_time_order (db : database) :
  reachable db ->
  exists lines,
    export_csv db = Csv ((join (of_string ",") header ++ line_end) :: lines)
    /\ Forall2 (fun r line => csv_line r = Ok line)
         (select_export (ratings db)) lines
    /\ length lines = length (ratings db)
    /\ Permutation (select_export (ratings db)) (ratings db)
    /\ StronglySorted
         (fun a b => str_leb (created_at a) (created_at b) = true)
         (select_export (ratings db)).
Proof.
  intros Hreach. apply reachable_table_ok in Hreach.
  destruct (generate_ok db Hreach) as [chunks Hg].
  unfold generate in Hg. apply bind_ok in Hg.
  destruct Hg as (lines & Hl & Hg). inversion Hg; subst; clear Hg.
  exists lines.
  pose proof (mapM_Forall2 _ _ _ Hl) as HF.
  pose proof (sort_by_perm
                (fun a b : row => str_leb (created_at a) (created_at b))
                (ratings db)) as Hperm.
  split; [unfold export_csv, generate; rewrite Hl; reflexivity|].
  split; [exact HF|].
  split.
  { transitivity (length (select_export (ratings db))).
    - symmetry. exact (Forall2_length HF).
    - apply Permutation_length. exact Hperm. }
  split; [exact Hperm|].
  apply (sort_by_sorted
           (fun a b : row => str_leb (created_at a) (created_at b))).
  - intros a b. apply str_leb_total.
  - intros a b c. apply str_leb_trans.
Qed.

(** X17: every chunk of the export ends with the two characters
    backslash and n, which is what the program appends to a line; a line
    feed occurs in a chunk only where the judge, device_id, one_word or
    created_at of the row holds one.  The export of a table whose texts
    have no line feed is therefore a single line of text. *)
Theorem export_ends_lines_with_backslash_n
    (db : database) (chunks : list str) :
  generate db = Ok chunks ->
  Forall (fun chunk =>
            (exists body, chunk = body ++ [92%N; 110%N]) /\
            (In line_feed chunk ->
             exists r t, In r (ratings db) /\ In t (row_texts r) /\
                         In line_feed t))
    chunks.
Proof.
  unfold generate. intros Hg. apply bind_ok in Hg.
  destruct Hg as (lines & Hl & Hg). inversion Hg; subst; clear Hg.
  pose proof (mapM_Forall2 _ _ _ Hl) as HF.
  constructor.
  - split; [exists (join (of_string ",") header); reflexivity|].
    intros Hc. exfalso. revert Hc. now apply existsb_not_In.
  - apply Forall_forall. intros line Hline.
    destruct (Forall2_pick _ _ _ _ HF Hline) as (r & Hr & Hrl).
    apply (proj1 (sort_by_In _ (ratings db) r)) in Hr.
    destruct (csv_line_feed r line Hrl) as [Hend Hlf].
    split; [exact Hend|].
    intros Hc. destruct (Hlf Hc) as (t & Ht & Hct). eauto.
Qed.

(* ================================================================= *)
(** ** A client without the password *)

Lemma same_vote_refl (r : row) : same_vote r r.
Proof. unfold same_vote. auto. Qed.

Lemma same_vote_trans (a b c : row) :
  same_vote a b -> same_vote b c -> same_vote a c.
Proof. unfold same_vote. intuition congruence. Qed.

Lemma update_conflict_In (e : Z) (d : str) (f : row -> row) (rows : list row)
    (r : row) :
  In r rows ->
  In r (update_conflict e d f rows) \/ In (f r) (update_conflict e d f rows).
Proof.
  induction rows as [|a rows IH]; cbn [update_conflict In]; [contradiction|].
  intros [->|Hr].
  - destruct (same_key e d r); [right|left]; now left.
  - destruct (same_key e d a); [left; now right|].
    destruct (IH Hr); [left|right]; now right.
Qed.

Lemma api_rate_keeps_votes (body : option pyval) (cookie : option str)
    (now : str) (db : database) (r : row) :
  In r (ratings db) ->
  exists r', In r' (ratings (snd (api_rate body cookie now db))) /\
             same_vote r r'.
Proof.
  intros Hr.
  destruct (api_rate_cases body cookie now db) as [->|(f & _ & _ & _ & Hu)].
  { exists r. split; [exact Hr | apply same_vote_refl]. }
  destruct (upsert_rating_ok _ _ _ _ _ _ _ _ _ _ Hu)
    as (_ & _ & [[_ ->]|[_ [rowid ->]]]).
  - destruct (update_conflict_In (f_entrant_index f)
                (device_id_from_request cookie)
                (update_row (f_taste f) (f_presentation f) (f_easy f)
                   (f_judge f) (f_one_word f)) _ r Hr) as [H|H].
    + exists r. split; [exact H | apply same_vote_refl].
    + eexists. split; [exact H|]. unfold same_vote. cbn. auto.
  - exists r. split; [|apply same_vote_refl].
    apply in_app_iff. now left.
Qed.

Lemma dispatch_without_password (rq : request) (s : session) (db : database) :
  is_admin s = false -> presents_password rq = false ->
  is_admin (snd (fst (dispatch rq s db))) = false /\
  forall r, In r (ratings db) ->
    exists r', In r' (ratings (snd (dispatch rq s db))) /\ same_vote r r'.
Proof.
  intros Hs Hp.
  assert (Hsame : forall r, In r (ratings db) ->
            exists r', In r' (ratings db) /\ same_vote r r').
  { intros r Hr. exists r. split; [exact Hr | apply same_vote_refl]. }
  destruct rq as [body cookie now|arg cookie| | | |method password reset| | ];
    cbn [dispatch fst snd]; try (split; [exact Hs | exact Hsame]).
  - split; [exact Hs|]. intros r Hr. now apply api_rate_keeps_votes.
  - split; [|exact Hsame].
    destruct method; cbn [admin].
    + rewrite Hs. cbn [negb snd]. exact Hs.
    + cbn [presents_password] in Hp. rewrite Hp. cbn [snd]. exact Hs.
  - unfold admin_reset. rewrite Hs. cbn [negb snd].
    split; [reflexivity | exact Hsame].
  - split; [reflexivity | exact Hsame].
Qed.

Lemma serve_without_password (rqs : list request) :
  forall (s : session) (db : database),
    is_admin s = false ->
    forallb (fun rq => negb (presents_password rq)) rqs = true ->
    is_admin (fst (serve rqs s db)) = false /\
    forall r, In r (ratings db) ->
      exists r', In r' (ratings (snd (serve rqs s db))) /\ same_vote r r'.
Proof.
  induction rqs as [|rq rqs IH]; intros s db Hs Hall.
  - cbn [serve fst snd]. split; [exact Hs|].
    intros r Hr. exists r. split; [exact Hr | apply same_vote_refl].
  - cbn [forallb] in Hall. apply andb_true_iff in Hall.
    destruct Hall as [Hrq Hall]. apply negb_true_iff in Hrq.
    destruct (dispatch_without_password rq s db Hs Hrq) as [Hs' Hkeep].
    cbn [serve].
    destruct (IH _ (snd (dispatch rq s db)) Hs' Hall) as [Hend Hrest].
    split; [exact Hend|].
    intros r Hr. destruct (Hkeep r Hr) as (r1 & Hr1 & H1).
    destruct (Hrest r1 Hr1) as (r2 & Hr2 & H2).
    exists r2. split; [exact Hr2 | eapply same_vote_trans; eauto].
Qed.

(** X18: a client without the password cannot delete a rating, and a
    logout takes the admin rights away.  Over any run of requests to the
    routes with no login whose trimmed password equals the secret, by a
    client whose session lacks the admin flag at the start or whose
    first request is the logout (the session being the one the views
    hand back), the session ends without the flag, and every row the
    table had is still there at the end with its id, entrant_index,
    device_id and created_at: a reset among the requests is answered
    with the redirect to the login. *)
Theorem no_deletion_without_password
    (rqs : list request) (s : session) (db : database) :
  is_admin s = false \/ (exists rest, rqs = GetAdminLogout :: rest) ->
  forallb (fun rq => negb (presents_password rq)) rqs = true ->
  is_admin (fst (serve rqs s db)) = false /\
  forall r, In r (ratings db) ->
    exists r', In r' (ratings (snd (serve rqs s db))) /\ same_vote r r'.
Proof.
  intros [Hs|(rest & ->)] Hall.
  - now apply serve_without_password.
  - cbn [forallb presents_password negb andb] in Hall.
    cbn [serve dispatch fst snd admin_logout].
    now apply serve_without_password.
Qed.

(* ================================================================= *)
(** ** The word counts, further *)

Lemma sql_ltrim_no_space (s : str) : no_space s = true -> sql_ltrim s = s.
Proof.
  destruct s as [|c t]; cbn [sql_ltrim no_space forallb]; [reflexivity|].
  rewrite andb_true_iff, negb_true_iff. intros [Hc _].
  destruct (N.eqb_spec c 32) as [->|_]; [discriminate Hc | reflexivity].
Qed.

Lemma sql_trim_no_space (s : str) : no_space s = true -> sql_trim s = s.
Proof.
  intros H. unfold sql_trim. rewrite (sql_ltrim_no_space s H).
  rewrite sql_ltrim_no_space by now rewrite no_space_rev.
  apply rev_involutive.
Qed.

(** On a well-formed row TRIM changes nothing, and the WHERE clause
    keeps the row when its one_word is not NULL. *)
Lemma normal_word_stored (r : row) :
  row_ok r = true -> normal_word r = option_map sql_lower (one_word r).
Proof.
  unfold row_ok, normal_word. rewrite !andb_true_iff.
  intros (_ & Hw). destruct (one_word r) as [w|]; [|reflexivity].
  destruct w as [|c t]; [discriminate Hw|].
  cbn [one_word_ok] in Hw. rewrite !andb_true_iff in Hw.
  destruct Hw as [[Hns _] _].
  rewrite (sql_trim_no_space _ Hns). reflexivity.
Qed.

Lemma filter_map_length_filter {A B} (f : A -> option B) (l : list A) :
  length (filter_map f l)
  = length (filter (fun x => match f x with Some _ => true | None => false end)
              l).
Proof.
  induction l as [|x l IH]; cbn [filter_map filter]; [reflexivity|].
  destruct (f x); cbn [length]; now rewrite IH.
Qed.

Lemma words_of_length (i : Z) (rows : list row) :
  Forall (fun r => row_ok r = true) rows ->
  length (words_of i rows) = length (worded_rows i rows).
Proof.
  intros Hok. unfold words_of, worded_rows.
  rewrite filter_map_length_filter. f_equal.
  apply filter_ext_in. intros r Hr.
  unfold rows_of in Hr. apply filter_In in Hr. destruct Hr as [Hr _].
  rewrite Forall_forall in Hok.
  rewrite (normal_word_stored r (Hok r Hr)).
  destruct (one_word r); reflexivity.
Qed.

(** What [api_words] puts under the name of entrant [i]. *)
Lemma words_out_entrant (db : database) (i : Z) :
  table_ok db -> 0 <= i < N_ENTRANTS ->
  exists out,
    words_out db = Ok out /\
    match dict_get out (entrant_name i) with
    | Some l => l
    | None => []
    end
    = map entry_of_word_row
        (filter (fun w => wr_entrant_index w =? i)
           (select_words (ratings db))).
Proof.
  intros Hok Hi.
  set (W := select_words (ratings db)).
  assert (Hrange : forall w, In w W -> 0 <= wr_entrant_index w < N_ENTRANTS).
  { intros w Hw. destruct (select_words_entrant _ _ Hw) as (r & Hr & <-).
    pose proof (ok_entrant _ Hok) as H. rewrite Forall_forall in H. auto. }
  exists (fold_left words_step W []).
  split; [unfold words_out; fold W; apply (words_loop_fold W [] Hrange)|].
  rewrite words_fold_get. cbn [dict_get].
  assert (Hfilter :
            filter (fun w => str_eqb (entrant_name (wr_entrant_index w))
                               (entrant_name i)) W
            = filter (fun w => wr_entrant_index w =? i) W).
  { apply filter_ext_in. intros w Hw.
    destruct (Z.eqb_spec (wr_entrant_index w) i) as [E|E].
    - rewrite E. now apply str_eqb_eq.
    - destruct (str_eqb _ _) eqn:Es; [|reflexivity].
      apply str_eqb_eq in Es. exfalso. apply E.
      apply (entrant_name_inj _ _ (entrant_name i));
        auto using entrant_name_index.
      rewrite <- Es. auto using entrant_name_index. }
  rewrite Hfilter.
  destruct (map entry_of_word_row _); reflexivity.
Qed.

Lemma entrant_word_counts (rows : list row) (i : Z) :
  sum_list
    (map wr_c (filter (fun w => wr_entrant_index w =? i) (select_words rows)))
  = Z.of_nat (length (words_of i rows)).
Proof.
  set (Wi := filter (fun w => wr_entrant_index w =? i) (select_words rows)).
  transitivity
    (sum_list
       (map (fun k => Z.of_nat (count_occ (list_eq_dec N.eq_dec)
                                  (words_of i rows) k))
          (map wr_w Wi))).
  - rewrite map_map. f_equal. apply map_ext_in. intros w Hw.
    apply entrant_words_In in Hw. tauto.
  - apply sum_count_occ.
    + apply NoDup_words_of_entrant, select_words_keys_NoDup.
    + intros x Hx. now apply entrant_words_complete.
Qed.

(** X19: every one_word the table holds is counted once.  On any table
    the views can produce, TRIM changes no stored one_word and no row
    with a one_word fails the WHERE clause, so the word of a row is its
    one_word with A..Z in lower case; and the counts listed under an
    entrant add up to the number of that entrant's rows with a one_word
    (no list, when there is none). *)
Theorem word_counts_add_up (db : database) :
  reachable db ->
  (forall r, In r (ratings db) ->
     normal_word r = option_map sql_lower (one_word r)) /\
  exists out,
    api_words db = JsonWords out /\
    forall i, 0 <= i < N_ENTRANTS ->
      sum_list (map count match dict_get out (entrant_name i) with
                          | Some l => l
                          | None => []
                          end)
      = Z.of_nat (length (worded_rows i (ratings db))).
Proof.
  intros Hreach.
  pose proof (reachable_rows_ok db Hreach) as Hrows.
  apply reachable_table_ok in Hreach.
  split.
  { intros r Hr. apply normal_word_stored.
    rewrite Forall_forall in Hrows. auto. }
  destruct (words_out_ok db Hreach) as [out Hout].
  exists out. split; [unfold api_words; now rewrite Hout|].
  intros i Hi.
  destruct (words_out_entrant db i Hreach Hi) as (out' & Hout' & E).
  rewrite Hout in Hout'. inversion Hout'; subst out'; clear Hout'.
  rewrite E.
  rewrite map_map. cbn [entry_of_word_row count].
  rewrite <- (words_of_length i _ Hrows).
  apply entrant_word_counts.
Qed.

(* ================================================================= *)
(** ** The schema at start-up *)






End Runtime.

(* ================================================================= *)
(** ** The properties on sample requests *)

Lemma two_entrants_reachable :
  reachable no_extra_decimal default_max_str_digits two_entrants.
Proof.
  pose proof (reach_init no_extra_decimal default_max_str_digits) as H0.
  pose proof
    (reach_rate _ _ _
       (rate_body 0 (PInt 3) (PInt 3) (PInt 4) [] [])
       (Some (of_string "dev-a")) six_pm H0) as H1.
  pose proof
    (reach_rate _ _ _
       (rate_body 1 (PInt 2) (PInt 2) (PInt 2) [] [])
       (Some (of_string "dev-a")) six_pm H1) as H2.
  pose proof
    (reach_rate _ _ _
       (rate_body 0 (PInt 4) (PInt 4) (PInt 4) [] [])
       (Some (of_string "dev-b")) six_pm H2) as H3.
  pose proof
    (reach_rate _ _ _
       (rate_body 1 (PInt 3) (PInt 3) (PInt 2) [] [])
       (Some (of_string "dev-b")) six_pm H3) as H4.
  pose proof
    (reach_rate _ _ _
       (rate_body 0 (PInt 5) (PInt 5) (PInt 4) [] [])
       (Some (of_string "dev-c")) six_pm H4) as H5.
  eapply reachable_eq; [exact H5|]. vm_compute. reflexivity.
Qed.

Lemma accented_pair_reachable :
  reachable no_extra_decimal default_max_str_digits accented_pair.
Proof.
  pose proof (reach_init no_extra_decimal default_max_str_digits) as H0.
  pose proof
    (reach_rate _ _ _
       (rate_body 0 (PInt 4) (PInt 4) (PInt 4) [] [201%N])
       (Some (of_string "dev-a")) (of_string "2025-02-09 18:00:01") H0)
    as H1.
  pose proof
    (reach_rate _ _ _
       (rate_body 0 (PInt 5) (PInt 4) (PInt 3) [] [233%N])
       (Some (of_string "dev-b")) (of_string "2025-02-09 18:00:02") H1)
    as H2.
  eapply reachable_eq; [exact H2|]. vm_compute. reflexivity.
Qed.

(** The leaderboard of the specification's example: entrant 0 first with
    12.00, then entrant 1 with 7.00, and nobody else. *)
Lemma leaderboard_of_two_entrants :
  api_leaderboard two_entrants
  = JsonLeaderboard
      [ {| name := of_string "Javier"; votes := 3;
           avg_taste := 400 # 100; avg_presentation := 400 # 100;
           avg_easy := 400 # 100; avg_total := 1200 # 100 |};
        {| name := of_string "Lindsay"; votes := 2;
           avg_taste := 250 # 100; avg_presentation := 250 # 100;
           avg_easy := 200 # 100; avg_total := 700 # 100 |} ].
Proof. vm_compute. reflexivity. Qed.

Lemma three_votes_reachable :
  reachable no_extra_decimal default_max_str_digits three_votes.
Proof.
  pose proof (reach_init no_extra_decimal default_max_str_digits) as H0.
  pose proof
    (reach_rate _ _ _
       (rate_body 3 (PInt 1) (PInt 1) (PInt 1) [] [])
       (Some dev_b) six_pm H0) as H1.
  pose proof
    (reach_rate _ _ _
       (rate_body 3 (PInt 1) (PInt 2) (PInt 1) [] [])
       (Some dev_a) six_pm H1) as H2.
  pose proof
    (reach_rate _ _ _
       (rate_body 5 (PInt 2) (PInt 2) (PInt 2) [] [])
       (Some dev_a) six_pm H2) as H3.
  eapply reachable_eq; [exact H3|]. vm_compute. reflexivity.
Qed.

Lemma resubmission_overwrites_in_place_witness :
  exists r1 r2 before after,
    ratings three_votes_first = before ++ r1 :: after /\
    ratings three_votes_second = before ++ r2 :: after /\
    Forall (fun r => entrant_index r <> 3 \/ device_id r <> Some dev_a)
      (before ++ after) /\
    entrant_index r2 = 3 /\ device_id r2 = Some dev_a /\
    taste r2 = 5 /\ presentation r2 = 4 /\ easy r2 = 5 /\
    judge r2 = Some (of_string "Ana B") /\
    one_word r2 = Some (of_string "Crispy") /\
    id r2 = id r1 /\ created_at r2 = created_at r1 /\
    filter (same_key 3 dev_a) (ratings three_votes_second) = [r2].
Proof.
  destruct (resubmission_overwrites_in_place
              no_extra_decimal default_max_str_digits
              three_votes three_votes_first three_votes_second
              first_body second_body
              (Some dev_a) seven_pm eight_pm first_fields second_fields)
    as (r1 & r2 & _ & H2 & H3 & H4 & H5 & H6 & H7 & H8 & H9 & _ & _ &
        _ & _ & K1 & K2 & before & after & E1 & E2 & HF);
    try (vm_compute; reflexivity).
  - exact three_votes_reachable.
  - exists r1, r2, before, after.
    split; [exact E1|]. split; [exact E2|]. split; [exact HF|].
    split; [exact K1|]. split; [exact K2|].
    split; [exact H3|]. split; [exact H4|]. split; [exact H5|].
    split; [exact H6|]. split; [exact H7|]. split; [exact H8|].
    split; [exact H9 | exact H2].
Defined.

Lemma one_word_stored_normalized_witness :
  exists r,
    filter (same_key 3 dev_a) (ratings first_vote) = [r] /\
    one_word r = Some (of_string "Delicious").
Proof.
  destruct (proj1 (proj2 (one_word_stored_normalized
                            no_extra_decimal default_max_str_digits))
              [ (of_string "entrant_index", PInt 3);
                (of_string "taste", PInt 2);
                (of_string "presentation", PInt 3);
                (of_string "easy", PInt 4);
                (of_string "judge", PStr (of_string " Ana "));
                (of_string "one_word",
                 PStr (of_string "  Delicious extra words  ")) ]
              (of_string "  Delicious extra words  ")
              (Some dev_a) six_pm init_db first_vote 3)
    as (r & H1 & H2); try (vm_compute; reflexivity).
  - apply reach_init.
  - exists r. split; [exact H1 | exact H2].
Defined.

(** C4, the claim as stated fails: a taste of 3.7 is not refused; the
    submission is accepted and a row with taste 3 is written. *)
Lemma non_integral_score_accepted :
  three_point_seven = SFdiv prec emax (double_of_int 37) (double_of_int 10) /\
  (3 < float_value three_point_seven)%Q /\
  (float_value three_point_seven < 4)%Q /\
  api_rate no_extra_decimal default_max_str_digits
    (rate_body 3 (PFloat three_point_seven) (PInt 4) (PInt 5) [] [])
    (Some dev_a) six_pm init_db
  = (JsonOk,
     {| ratings := [ sample_row 1 3 3 4 5 None dev_a None six_pm ];
        sqlite_sequence := 1 |}).
Proof. repeat split; vm_compute; reflexivity. Qed.

Lemma unconvertible_score_rejected_witness :
  api_rate no_extra_decimal default_max_str_digits
    (rate_body 3 (PStr (of_string "tasty")) (PInt 4) (PInt 5) [] [])
    (Some dev_a) six_pm first_vote
  = (JsonError "Invalid payload", first_vote).
Proof.
  apply (proj1 (unconvertible_score_rejected
                  no_extra_decimal default_max_str_digits)
           _ _ _ _
           [ (of_string "entrant_index", PInt 3);
             (of_string "taste", PStr (of_string "tasty"));
             (of_string "presentation", PInt 4);
             (of_string "easy", PInt 5);
             (of_string "judge", PStr []);
             (of_string "one_word", PStr []) ]
           (of_string "taste") ValueError).
  - reflexivity.
  - left. reflexivity.
  - vm_compute. reflexivity.
Defined.



(** C3, the claim as stated fails: a submitted password that differs
    from the secret by a blank at each end sets the flag. *)
Lemma padded_password_sets_flag :
  of_string " MASTERCHEF2025 " <> default_admin_password /\
  admin default_admin_password POST
    (Some (of_string " MASTERCHEF2025 ")) None {| is_admin := false |}
    init_db
  = (Redirect None, {| is_admin := true |}).
Proof.
  split; [vm_compute; discriminate | vm_compute; reflexivity].
Qed.

Lemma admin_flag_set_iff_trimmed_password_matches_witness :
  admin default_admin_password POST
    (Some (of_string "masterchef2025")) None {| is_admin := false |}
    init_db
  = (Html (admin_login (Some "Incorrect password"%string)),
     {| is_admin := false |}).
Proof.
  apply (proj2 (admin_flag_set_iff_trimmed_password_matches
                  default_admin_password
                  (Some (of_string "masterchef2025")) None
                  {| is_admin := false |} init_db)).
  vm_compute. discriminate.
Defined.

Lemma admin_reset_deletes_all_or_prompts_witness :
  ratings (snd (admin_reset {| is_admin := true |} two_entrants)) = [] /\
  api_leaderboard (snd (admin_reset {| is_admin := true |} two_entrants))
  = JsonLeaderboard [] /\
  admin_reset {| is_admin := false |} two_entrants
  = (Redirect None, two_entrants).
Proof.
  pose proof (admin_reset_deletes_all_or_prompts
                no_extra_decimal default_max_str_digits
                default_admin_password {| is_admin := true |} two_entrants)
    as [Hset _].
  pose proof (admin_reset_deletes_all_or_prompts
                no_extra_decimal default_max_str_digits
                default_admin_password {| is_admin := false |} two_entrants)
    as [_ Hunset].
  destruct (Hset eq_refl) as (H1 & H2 & _).
  destruct (Hunset eq_refl) as (H3 & _).
  split; [exact H1|]. split; [exact H2 | exact H3].
Defined.

Lemma stored_entrant_index_in_range_witness :
  Forall (fun r => 0 <= entrant_index r < Z.of_nat (length ENTRANTS))
    (ratings two_entrants) /\
  (exists out, api_leaderboard two_entrants = JsonLeaderboard out) /\
  (exists out, api_words two_entrants = JsonWords out) /\
  (exists chunks, export_csv two_entrants = Csv chunks).
Proof.
  destruct (stored_entrant_index_in_range
              no_extra_decimal default_max_str_digits default_admin_password
              two_entrants two_entrants_reachable)
    as (H1 & _ & H2 & H3 & H4 & _).
  repeat split; assumption.
Defined.

Lemma leaderboard_one_entry_per_voted_entrant_witness :
  exists keys,
    api_leaderboard two_entrants
    = JsonLeaderboard
        [ {| name := of_string "Javier"; votes := 3;
             avg_taste := 400 # 100; avg_presentation := 400 # 100;
             avg_easy := 400 # 100; avg_total := 1200 # 100 |};
          {| name := of_string "Lindsay"; votes := 2;
             avg_taste := 250 # 100; avg_presentation := 250 # 100;
             avg_easy := 200 # 100; avg_total := 700 # 100 |} ] /\
    NoDup keys /\
    (forall k, In k keys <->
               exists r, In r (ratings two_entrants) /\ entrant_index r = k) /\
    Forall2 (entry_averages (ratings two_entrants)) keys
      [ {| name := of_string "Javier"; votes := 3;
           avg_taste := 400 # 100; avg_presentation := 400 # 100;
           avg_easy := 400 # 100; avg_total := 1200 # 100 |};
        {| name := of_string "Lindsay"; votes := 2;
           avg_taste := 250 # 100; avg_presentation := 250 # 100;
           avg_easy := 200 # 100; avg_total := 700 # 100 |} ].
Proof.
  destruct (leaderboard_one_entry_per_voted_entrant
              no_extra_decimal default_max_str_digits)
    as (Hall & Hreach & _ & Hex).
  destruct (Hall two_entrants Hreach)
    as (out & keys & H1 & _ & H2 & H3 & _ & _ & _ & _ & _ & _ & H4).
  - discriminate.
  - rewrite Hex in H1. inversion H1 as [Hout]. rewrite <- Hout in H4.
    exists keys.
    split; [reflexivity|]. split; [exact H2|].
    split; [exact H3 | exact H4].
Defined.

(** C6, the claim as stated fails: the capital and the small e with
    acute accent are one word up to case, and are counted as two. *)
Lemma accented_letters_counted_apart :
  reachable no_extra_decimal default_max_str_digits accented_pair /\
  map one_word (ratings accented_pair) = [Some [201%N]; Some [233%N]] /\
  api_words accented_pair
  = JsonWords [ (of_string "Javier",
                 [ {| word := [201%N]; count := 1 |};
                   {| word := [233%N]; count := 1 |} ]) ].
Proof.
  split; [exact accented_pair_reachable|].
  split; vm_compute; reflexivity.
Qed.

Lemma word_counts_by_entrant_witness :
  exists out,
    api_words good_good_bad = JsonWords out /\
    dict_get out (entrant_name 1) = None /\
    exists l,
      dict_get out (entrant_name 0) = Some l /\
      NoDup (map word l) /\
      StronglySorted word_count_before l.
Proof.
  destruct (proj1 (word_counts_by_entrant
                     no_extra_decimal default_max_str_digits)
              good_good_bad
              (good_good_bad_reachable
                 no_extra_decimal default_max_str_digits))
    as (out & H1 & _ & _ & H2).
  exists out. split; [exact H1|].
  destruct (H2 1) as (_ & Hnone & _); [change N_ENTRANTS with 14; lia|].
  destruct (H2 0) as (_ & _ & Hsome); [change N_ENTRANTS with 14; lia|].
  split; [apply Hnone; reflexivity|].
  destruct Hsome as (l & Hl & _ & Hnd & _ & _ & Hs); [discriminate|].
  exists l. auto.
Defined.


(* ================================================================= *)
(** ** The further properties on sample requests *)

Lemma rating_checks_in_order_witness :
  api_rate no_extra_decimal default_max_str_digits
    (rate_body 14 (PInt 0) (PInt 3) (PInt 3) [] []) (Some dev_a) seven_pm
    first_vote
  = (JsonError "Invalid entrant", first_vote).
Proof.
  apply (proj1 (rating_checks_in_order
                  no_extra_decimal default_max_str_digits
                  (rate_body 14 (PInt 0) (PInt 3) (PInt 3) [] [])
                  (Some dev_a) seven_pm first_vote
                  {| f_entrant_index := 14; f_taste := 0;
                     f_presentation := 3; f_easy := 3;
                     f_judge := None; f_one_word := None |}
                  ltac:(vm_compute; reflexivity))).
  vm_compute. intros [_ H]. discriminate H.
Defined.


Lemma first_vote_appends_row_witness :
  ratings first_vote
  = ratings init_db ++
      [ sample_row 1 3 2 3 4 (Some (of_string "Ana")) dev_a
          (Some (of_string "Delicious")) six_pm ] /\
  sqlite_sequence first_vote = sqlite_sequence init_db + 1.
Proof.
  destruct (first_vote_appends_row
              no_extra_decimal default_max_str_digits
              first_body (Some dev_a) six_pm init_db first_vote first_fields)
    as (H1 & H2 & _); try (vm_compute; reflexivity).
  - apply reach_init.
  - split; [exact H1 | exact H2].
Defined.

Lemma one_word_normal_form_witness :
  no_space (of_string "Delicious") = true /\
  sanitize_one_word (PStr (of_string "Delicious"))
  = Ok (Some (of_string "Delicious")).
Proof.
  destruct (one_word_normal_form
              (PStr (of_string "  Delicious extra words  "))
              (of_string "Delicious"))
    as (_ & _ & _ & H1 & H2); [vm_compute; reflexivity|].
  split; [exact H1 | exact H2].
Defined.

Lemma stored_rows_well_formed_witness :
  Forall (fun r => row_ok r = true) (ratings two_entrants) /\
  NoDup (map key_of (ratings two_entrants)).
Proof.
  exact (stored_rows_well_formed
           no_extra_decimal default_max_str_digits two_entrants
           two_entrants_reachable).
Defined.

Lemma non_text_judge_or_one_word_witness :
  api_rate no_extra_decimal default_max_str_digits
    (Some (PDict [ (of_string "entrant_index", PInt 3);
                   (of_string "taste", PInt 2);
                   (of_string "presentation", PInt 3);
                   (of_string "easy", PInt 4);
                   (of_string "judge", PInt 7) ]))
    (Some dev_a) six_pm init_db
  = (JsonError "Invalid payload", init_db).
Proof.
  apply (proj1 (proj2 (non_text_judge_or_one_word
                         no_extra_decimal default_max_str_digits
                         (Some (PDict [ (of_string "entrant_index", PInt 3);
                                        (of_string "taste", PInt 2);
                                        (of_string "presentation", PInt 3);
                                        (of_string "easy", PInt 4);
                                        (of_string "judge", PInt 7) ]))
                         (Some dev_a) six_pm init_db
                         [ (of_string "entrant_index", PInt 3);
                           (of_string "taste", PInt 2);
                           (of_string "presentation", PInt 3);
                           (of_string "easy", PInt 4);
                           (of_string "judge", PInt 7) ]
                         (of_string "judge") (PInt 7)
                         ltac:(vm_compute; reflexivity)
                         ltac:(left; reflexivity)
                         ltac:(vm_compute; reflexivity)
                         ltac:(discriminate)))).
  reflexivity.
Defined.

Lemma accepted_rating_is_read_back_witness :
  api_my_rating no_extra_decimal default_max_str_digits
    (Some (of_string "3")) (Some dev_a) first_vote
  = JsonRating (Some {| mr_taste := 2; mr_presentation := 3; mr_easy := 4;
                        mr_judge := Some (of_string "Ana");
                        mr_one_word := Some (of_string "Delicious") |}).
Proof.
  apply (proj1 (accepted_rating_is_read_back
                  no_extra_decimal default_max_str_digits
                  first_body (Some dev_a) six_pm init_db first_vote
                  first_fields (Some (of_string "3"))
                  ltac:(vm_compute; reflexivity)
                  ltac:(vm_compute; reflexivity)
                  ltac:(vm_compute; reflexivity))).
Defined.

Lemma int_reads_back_str_witness :
  int_of_str no_extra_decimal default_max_str_digits (str_of_int (-2025))
  = Ok (-2025).
Proof.
  apply (int_reads_back_str no_extra_decimal default_max_str_digits (-2025)).
  vm_compute. reflexivity.
Defined.

Lemma leaderboard_votes_add_up_witness :
  exists out,
    api_leaderboard two_entrants = JsonLeaderboard out /\
    sum_list (map votes out) = 5.
Proof.
  destruct (leaderboard_votes_add_up
              no_extra_decimal default_max_str_digits two_entrants
              two_entrants_reachable) as (out & H1 & H2).
  exists out. split; [exact H1 | exact H2].
Defined.

Lemma leaderboard_averages_in_range_witness :
  exists out,
    api_leaderboard two_entrants = JsonLeaderboard out /\
    Forall averages_in_range out.
Proof.
  apply (leaderboard_averages_in_range
           no_extra_decimal default_max_str_digits two_entrants
           two_entrants_reachable).
  vm_compute. reflexivity.
Defined.

Lemma same_second_reachable :
  reachable no_extra_decimal default_max_str_digits same_second.
Proof.
  pose proof (reach_init no_extra_decimal default_max_str_digits) as H0.
  pose proof
    (reach_rate _ _ _
       (rate_body 0 (PInt 3) (PInt 3) (PInt 3) [] [])
       (Some (of_string "dev-z")) six_pm H0) as H1.
  pose proof
    (reach_rate _ _ _
       (rate_body 0 (PInt 4) (PInt 4) (PInt 4) [] [])
       (Some (of_string "dev-a")) six_pm H1) as H2.
  pose proof
    (reach_rate _ _ _
       (rate_body 0 (PInt 5) (PInt 5) (PInt 5) [] [])
       (Some (of_string "dev-m")) six_pm H2) as H3.
  eapply reachable_eq; [exact H3|]. vm_compute. reflexivity.
Qed.

Lemma admin_page_lists_every_row_witness :
  exists detailed out,
    api_leaderboard same_second = JsonLeaderboard out /\
    fst (admin default_admin_password GET None (Some (of_string "1"))
           {| is_admin := true |} same_second)
    = Html (admin_results detailed (map summary_of_entry out) true) /\
    Forall2 detail_shows (select_detailed (ratings same_second)) detailed /\
    StronglySorted detail_tie_order (select_detailed (ratings same_second))
    /\ map id (select_detailed (ratings same_second)) = [2; 3; 1]
    /\ map d_id detailed = [2; 3; 1].
Proof.
  destruct (admin_page_lists_every_row
              no_extra_decimal default_max_str_digits default_admin_password
              None (Some (of_string "1")) same_second same_second_reachable)
    as (detailed & out & H1 & H2 & H3 & _ & H4 & _).
  exists detailed, out.
  split; [exact H1|]. split; [exact H2|]. split; [exact H3|].
  split; [exact H4|]. split; [reflexivity|].
  change (select_detailed (ratings same_second))
    with [ sample_row 2 0 4 4 4 None (of_string "dev-a") None six_pm;
           sample_row 3 0 5 5 5 None (of_string "dev-m") None six_pm;
           sample_row 1 0 3 3 3 None (of_string "dev-z") None six_pm ] in H3.
  inversion H3 as [|r1 d1 l1 l1' S1 T1]; subst.
  inversion T1 as [|r2 d2 l2 l2' S2 T2]; subst.
  inversion T2 as [|r3 d3 l3 l3' S3 T3]; subst.
  inversion T3; subst.
  destruct S1 as (_ & E1 & _), S2 as (_ & E2 & _), S3 as (_ & E3 & _).
  cbn [map]. rewrite E1, E2, E3. reflexivity.
Defined.

Lemma export_lists_rows_in_time_order_witness :
  exists lines,
    export_csv two_entrants
    = Csv ((join (of_string ",") header ++ line_end) :: lines) /\
    length lines = 5%nat.
Proof.
  destruct (export_lists_rows_in_time_order
              no_extra_decimal default_max_str_digits two_entrants
              two_entrants_reachable) as (lines & H1 & _ & H2 & _).
  exists lines. split; [exact H1 | exact H2].
Defined.

Lemma export_ends_lines_with_backslash_n_witness :
  Forall (fun chunk => exists body, chunk = body ++ [92%N; 110%N])
    [ join (of_string ",") header ++ line_end;
      join (of_string ",")
        (csv_fields (of_string "Bryan")
           (sample_row 1 3 2 3 4 (Some (of_string "Ana")) dev_a
              (Some (of_string "Delicious")) six_pm))
      ++ line_end ].
Proof.
  eapply Forall_impl;
    [|apply (export_ends_lines_with_backslash_n first_vote);
      vm_compute; reflexivity].
  intros chunk [H _]. exact H.
Defined.

Lemma no_deletion_without_password_witness :
  is_admin
    (fst (serve no_extra_decimal default_max_str_digits
            default_admin_password
            [GetAdminLogout;
             Admin POST (Some (of_string "masterchef2025")) None;
             PostAdminReset;
             PostRate second_body (Some dev_a) seven_pm]
            {| is_admin := true |} first_vote)) = false /\
  exists r',
    In r' (ratings
             (snd (serve no_extra_decimal default_max_str_digits
                     default_admin_password
                     [GetAdminLogout;
                      Admin POST (Some (of_string "masterchef2025")) None;
                      PostAdminReset;
                      PostRate second_body (Some dev_a) seven_pm]
                     {| is_admin := true |} first_vote))) /\
    id r' = 1 /\ created_at r' = six_pm.
Proof.
  destruct (no_deletion_without_password
              no_extra_decimal default_max_str_digits default_admin_password
              [GetAdminLogout;
               Admin POST (Some (of_string "masterchef2025")) None;
               PostAdminReset;
               PostRate second_body (Some dev_a) seven_pm]
              {| is_admin := true |} first_vote)
    as [H1 H2].
  - right. eexists. reflexivity.
  - vm_compute. reflexivity.
  - split; [exact H1|].
    destruct (H2 (sample_row 1 3 2 3 4 (Some (of_string "Ana")) dev_a
                    (Some (of_string "Delicious")) six_pm))
      as (r' & Hr' & Hid & _ & _ & Hat); [left; reflexivity|].
    exists r'. split; [exact Hr'|]. split; [exact Hid | exact Hat].
Defined.

Lemma word_counts_add_up_witness :
  exists out,
    api_words good_good_bad = JsonWords out /\
    sum_list (map count match dict_get out (entrant_name 0) with
                        | Some l => l
                        | None => []
                        end) = 3.
Proof.
  destruct (word_counts_add_up
              no_extra_decimal default_max_str_digits good_good_bad
              (good_good_bad_reachable
                 no_extra_decimal default_max_str_digits))
    as (_ & out & H1 & H2).
  exists out. split; [exact H1|].
  apply (H2 0). change N_ENTRANTS with 14. lia.
Defined.

Lemma judge_stored_trimmed_and_cut_witness :
  exists r,
    filter (same_key 3 dev_a) (ratings first_vote) = [r] /\
    judge r = Some (of_string "Ana").
Proof.
  destruct (judge_stored_trimmed_and_cut
              no_extra_decimal default_max_str_digits
              [ (of_string "entrant_index", PInt 3);
                (of_string "taste", PInt 2);
                (of_string "presentation", PInt 3);
                (of_string "easy", PInt 4);
                (of_string "judge", PStr (of_string " Ana "));
                (of_string "one_word",
                 PStr (of_string "  Delicious extra words  ")) ]
              (of_string " Ana ") (Some dev_a) six_pm init_db first_vote 3)
    as (r & H1 & H2 & _); try (vm_compute; reflexivity).
  - apply reach_init.
  - exists r. split; [exact H1 | exact H2].
Defined.

Lemma payload_without_fields_is_invalid_witness :
  api_rate no_extra_decimal default_max_str_digits
    (Some (PList [PInt 3; PInt 5])) (Some dev_a) six_pm first_vote
  = (JsonError "Invalid payload", first_vote).
Proof.
  apply (payload_without_fields_is_invalid
           no_extra_decimal default_max_str_digits).
  right. left. exists (PList [PInt 3; PInt 5]).
  split; [reflexivity | discriminate].
Defined.

Lemma same_rating_again_changes_no_row_witness :
  exists db2,
    api_rate no_extra_decimal default_max_str_digits
      first_body (Some dev_a) seven_pm first_vote = (JsonOk, db2) /\
    ratings db2 = ratings first_vote.
Proof.
  destruct (same_rating_again_changes_no_row
              no_extra_decimal default_max_str_digits
              first_body (Some dev_a) six_pm seven_pm init_db first_vote)
    as (db2 & H1 & H2 & _); [vm_compute; reflexivity|].
  exists db2. split; [exact H1 | exact H2].
Defined.

